(** * M1 piano sample extraction: attack and loop-cycle selection

    A shallow embedding of the two extraction scripts of
    [platform/nts-1_mkii/m1_piano_osc]:

    - [extract_samples_simple.py] (pure Python), module [Simple];
    - [extract_samples.py] (numpy), module [Numpy].

    Python integers are [Z]; Python lists are [list]; exceptions are the
    [Raise] branch of [result].  A Python float is the rational number it
    denotes, and every floating-point operation is the exact operation
    followed by [binary64], round-to-nearest-even to 53 significant bits. *)

From Stdlib Require Import ZArith QArith Qabs List Lia Lqa Bool String Ascii.
From Stdlib Require Import DecimalString.
From Stdlib.Strings Require Import Byte.
From Stdlib Require PrimFloat FloatOps SpecFloat Uint63.
Import ListNotations.

Local Open Scope Z_scope.

(** ** Python values, exceptions and sequences *)

Module Py.

Inductive exn : Type :=
| IndexError
| ZeroDivisionError
| StructError
| ValueError (msg : string).

Inductive result (A : Type) : Type :=
| Ok (a : A)
| Raise (e : exn).

Arguments Ok {A} a.
Arguments Raise {A} e.

Definition bind {A B : Type} (m : result A) (k : A -> result B) : result B :=
  match m with
  | Ok a => k a
  | Raise e => Raise e
  end.

Definition len {A : Type} (l : list A) : Z := Z.of_nat (List.length l).

(** [l[i]]: a negative index counts from the end; out of range raises. *)
Definition getitem {A : Type} (l : list A) (i : Z) : result A :=
  let j := if i <? 0 then i + len l else i in
  if j <? 0 then Raise IndexError
  else match nth_error l (Z.to_nat j) with
       | Some x => Ok x
       | None => Raise IndexError
       end.

(** A slice bound is brought into [0, len l]: negative bounds count from
    the end, and anything out of range is clamped. *)
Definition clamp_bound (n : Z) (i : Z) : Z :=
  if i <? 0 then Z.max 0 (i + n) else Z.min i n.

(** [l[lo:hi]] *)
Definition slice {A : Type} (l : list A) (lo hi : Z) : list A :=
  let a := clamp_bound (len l) lo in
  let b := clamp_bound (len l) hi in
  firstn (Z.to_nat (b - a)) (skipn (Z.to_nat a) l).

(** [range(lo, hi)] *)
Definition range (lo hi : Z) : list Z :=
  map (fun k => lo + Z.of_nat k) (seq 0 (Z.to_nat (hi - lo))).

(** [l[::2]] *)
Fixpoint every_other {A : Type} (l : list A) : list A :=
  match l with
  | [] => []
  | x :: rest =>
      x :: match rest with
           | [] => []
           | _ :: rest' => every_other rest'
           end
  end.

(** [int(x)] on a float: truncation towards zero. *)
Definition int (x : Q) : Z := Z.quot (Qnum x) (Zpos (Qden x)).

(** Nearest integer to [n / d] (for [0 < d]), ties to the even one. *)
Definition round_half_even (n d : Z) : Z :=
  let f := n / d in
  match 2 * (n mod d) ?= d with
  | Lt => f
  | Gt => f + 1
  | Eq => if Z.even f then f else f + 1
  end.

(** [x * 2^(-e)] as a fraction [(numerator, denominator)]. *)
Definition scaled (x : Q) (e : Z) : Z * Z :=
  if e <=? 0 then (Qnum x * 2 ^ (- e), Zpos (Qden x))
  else (Qnum x, Zpos (Qden x) * 2 ^ e).

(** The exponent [e] of the last place of [x]: [2^52 <= |x| * 2^(-e) < 2^53]. *)
Definition ulp_exponent (x : Q) : Z :=
  let e0 := Z.log2 (Z.abs (Qnum x)) - Z.log2 (Zpos (Qden x)) - 53 in
  let '(n, d) := scaled x e0 in
  if Z.abs n <? 2 ^ 53 * d then e0 else e0 + 1.

(** IEEE 754 binary64 rounding of a rational (round to nearest, ties to
    even, 53-bit significand).  The exponent range is not bounded: the
    value agrees with a Python float operation as long as the magnitude
    stays in the normal range [2^-1022, 2^1024). *)
Definition binary64 (x : Q) : Q :=
  if Qnum x =? 0 then 0%Q
  else
    let e := ulp_exponent x in
    let '(n, d) := scaled x e in
    let m := round_half_even n d in
    if 0 <=? e then inject_Z (m * 2 ^ e) else m # Z.to_pos (2 ^ (- e)).

(** [str(n)] for an integer *)
Definition str (n : Z) : string := NilZero.string_of_int (Z.to_int n).

(** [range(lo, hi, step)] for a positive [step] *)
Definition range_step (lo hi step : Z) : list Z :=
  map (fun k => lo + step * Z.of_nat k)
      (seq 0 (Z.to_nat ((hi - lo + step - 1) / step))).

(** The last [n] decimal digits of [k], zero padded. *)
Fixpoint digits (n : nat) (k : Z) : string :=
  match n with
  | O => ""
  | S n' => digits n' (k / 10) ++ str (k mod 10)
  end.

(** [f"{x:.6f}"]: six decimals, correctly rounded, ties to even. *)
Definition format_6f (x : Q) : string :=
  let n := round_half_even (Z.abs (Qnum x) * 10 ^ 6) (Zpos (Qden x)) in
  (if Qnum x <? 0 then "-" else "")
    ++ str (n / 10 ^ 6) ++ "." ++ digits 6 (n mod 10 ^ 6).

(** ["\n"] *)
Definition nl : string := String (ascii_of_nat 10) EmptyString.

End Py.

Import Py.

Notation "x <- m ;; k" := (bind m (fun x => k))
  (at level 61, m at next level, right associativity).

(** [a / b] on floats.  Python raises nothing but [ZeroDivisionError]
    here; a quotient beyond the binary64 range is infinite there (and
    [int] of it then raises [OverflowError]), which the rounded rational
    of the model is not: see [binary64] and [finite_arguments]. *)
Definition fdiv (a b : Q) : result Q :=
  if Qeq_bool b 0%Q then Raise ZeroDivisionError else Ok (binary64 (a / b)%Q).

(** [a * b], [a + b], [a - b] on floats *)
Definition fmul (a b : Q) : Q := binary64 (a * b)%Q.
Definition fadd (a b : Q) : Q := binary64 (a + b)%Q.
Definition fsub (a b : Q) : Q := binary64 (a - b)%Q.

(** [float(n)] of an integer operand, for [n] below [2^1024] in
    magnitude; beyond, Python raises [OverflowError]. *)
Definition of_int (n : Z) : Q := binary64 (inject_Z n).

(** [a / b] on integers: the correctly rounded quotient, for a quotient
    in the binary64 range; beyond [2^1024] Python raises [OverflowError],
    and below [2^-1075] the quotient is [0.0]. *)
Definition truediv (a b : Z) : result Q :=
  if b =? 0 then Raise ZeroDivisionError
  else Ok (binary64 (inject_Z a / inject_Z b)%Q).

(** ** Code that the two scripts share word for word

    The crossing test, the selection loop, the integers derived from the
    arguments and the attack slice read the same in both files; both
    decode little-endian 16-bit samples. *)

(** [samples[i] <= 0 and samples[i+1] > 0]; the second read happens only
    when the first test succeeds. *)
Definition rising (samples : list Q) (i : Z) : result bool :=
  s <- getitem samples i ;;
  if Qle_bool s 0%Q
  then (s' <- getitem samples (i + 1) ;; Ok (negb (Qle_bool s' 0%Q)))
  else Ok false.

(** [diff < best_diff], where [best_diff] starts as [float('inf')]. *)
Definition improves (diff : Z) (best_diff : option Z) : bool :=
  match best_diff with
  | None => true
  | Some b => diff <? b
  end.

(** The selection [for] loop of [find_best_loop_cycle] over the crossing
    pairs still to visit; its result is the final [best_idx]. *)
Fixpoint best_pair (crossings : list Z) (expected_cycle_len : Z)
         (indices : list Z) (best_idx : Z) (best_diff : option Z) : result Z :=
  match indices with
  | [] => Ok best_idx
  | i :: indices' =>
      c1 <- getitem crossings (i + 1) ;;
      c0 <- getitem crossings i ;;
      let cycle_len := c1 - c0 in
      let diff := Z.abs (cycle_len - expected_cycle_len) in
      if improves diff best_diff
      then best_pair crossings expected_cycle_len indices' i (Some diff)
      else best_pair crossings expected_cycle_len indices' best_idx best_diff
  end.

(** [int(start_ms * sample_rate / 1000)] *)
Definition start_sample_of (start_ms sample_rate : Z) : result Z :=
  x <- truediv (start_ms * sample_rate) 1000 ;; Ok (int x).

(** [int(sample_rate / base_freq)] *)
Definition expected_cycle_len_of (sample_rate : Z) (base_freq : Q) : result Z :=
  x <- fdiv (of_int sample_rate) base_freq ;; Ok (int x).

(** [int(attack_ms * rate / 1000)] *)
Definition attack_samples_count (attack_ms rate : Z) : result Z :=
  x <- truediv (attack_ms * rate) 1000 ;; Ok (int x).

(** [samples[:attack_samples_count]] *)
Definition attack_slice (samples : list Q) (attack_ms rate : Z)
  : result (list Q) :=
  n <- attack_samples_count attack_ms rate ;; Ok (slice samples 0 n).

(** The default [base_freq=261.63], middle C. *)
Definition default_base_freq : Q := binary64 (26163 # 100).

(** What the [wave] module reports for an opened file. *)
Record wav_file : Type := {
  getnchannels : Z;
  getsampwidth : Z;
  getframerate : Z;
  getnframes : Z;
  readframes : list byte
}.

(** One little-endian signed 16-bit integer. *)
Definition int16_le (b0 b1 : byte) : Z :=
  let v := Z.of_N (Byte.to_N b0) + 256 * Z.of_N (Byte.to_N b1) in
  if v <? 32768 then v else v - 65536.

Fixpoint unpack_h (raw : list byte) : list Z :=
  match raw with
  | b0 :: b1 :: raw' => int16_le b0 b1 :: unpack_h raw'
  | _ => []
  end.

(** ** extract_samples_simple.py *)

Module Simple.

(** The body of the [for] loop of [find_zero_crossings], over the indices
    still to visit; the [break] ends the recursion. *)
Fixpoint scan (samples : list Q) (count min_distance : Z)
         (indices : list Z) (crossings : list Z) (last_crossing : Z)
  : result (list Z) :=
  match indices with
  | [] => Ok crossings
  | i :: indices' =>
      r <- rising samples i ;;
      let '(crossings', last') :=
        if r && (min_distance <=? i - last_crossing)
        then (crossings ++ [i], i)
        else (crossings, last_crossing) in
      if count <=? len crossings' then Ok crossings'
      else scan samples count min_distance indices' crossings' last'
  end.

Definition find_zero_crossings (samples : list Q) (start_idx : Z)
           (count min_distance : Z) : result (list Z) :=
  scan samples count min_distance
       (range start_idx (len samples - 1)) [] (- min_distance).

(** [int(expected_cycle_len * 0.8)] *)
Definition min_dist_of (expected_cycle_len : Z) : Z :=
  int (fmul (of_int expected_cycle_len) (binary64 (8 # 10))).

Definition find_best_loop_cycle (samples : list Q) (start_ms sample_rate : Z)
           (base_freq : Q) : result (list Q) :=
  start_sample <- start_sample_of start_ms sample_rate ;;
  expected_cycle_len <- expected_cycle_len_of sample_rate base_freq ;;
  let min_dist := min_dist_of expected_cycle_len in
  crossings <- find_zero_crossings samples start_sample 10 min_dist ;;
  if len crossings <? 2
  then Ok (slice samples start_sample (start_sample + expected_cycle_len))
  else
    best_idx <- best_pair crossings expected_cycle_len
                  (range 0 (len crossings - 1)) 0 None ;;
    cycle_start <- getitem crossings best_idx ;;
    cycle_end <- getitem crossings (best_idx + 1) ;;
    Ok (slice samples cycle_start cycle_end).

(** [struct.unpack(f'<{n}h', raw_data)]: the buffer must hold exactly
    [n] two-byte items. *)
Definition struct_unpack_h (n : Z) (raw : list byte) : result (list Z) :=
  if len raw =? 2 * n then Ok (unpack_h raw) else Raise StructError.

(** [max(abs(s) for s in l)] *)
Definition max_abs (l : list Q) : result Q :=
  match l with
  | [] => Raise (ValueError "max() arg is an empty sequence")
  | x :: l' =>
      Ok (fold_left (fun m y => if Qle_bool (Qabs y) m then m else Qabs y)
                    l' (Qabs x))
  end.

(** The decoding step: width test, unpacking, channel selection and
    normalisation by [32768.0]. *)
Definition decode (wav : wav_file) : result (list Q) :=
  let channels := getnchannels wav in
  let width := getsampwidth wav in
  let frames := getnframes wav in
  samples <-
    (if width =? 2
     then struct_unpack_h (frames * channels) (readframes wav)
     else Raise (ValueError ("Unsupported sample width: " ++ str width))) ;;
  let samples := if channels =? 2 then every_other samples else samples in
  Ok (map (fun s => binary64 (of_int s / 32768)%Q) samples).

(** The console output is not modelled; a [print] whose argument can
    raise is kept as the evaluation of that argument. *)
Definition extract_attack_and_loop (wav : wav_file)
           (attack_ms loop_start_ms : Z)
  : result (list Q * list Q * Z) :=
  let rate := getframerate wav in
  samples <- decode wav ;;
  _ <- max_abs samples ;;
  _ <- truediv (len samples) rate ;;
  attack <- attack_slice samples attack_ms rate ;;
  _ <- max_abs attack ;;
  loop_cycle <-
    find_best_loop_cycle samples loop_start_ms rate default_base_freq ;;
  _ <- max_abs loop_cycle ;;
  _ <- truediv rate (len loop_cycle) ;;
  Ok (attack, loop_cycle, rate).

(** One iteration of the interpolation loop of [downsample_to_48k]. *)
Definition interpolate (samples : list Q) (ratio : Q) (i : Z) : result Q :=
  let pos := fmul (of_int i) ratio in
  let idx := int pos in
  let frac := fsub pos (of_int idx) in
  if idx + 1 <? len samples
  then
    a <- getitem samples idx ;;
    b <- getitem samples (idx + 1) ;;
    Ok (fadd (fmul a (fsub 1 frac)) (fmul b frac))
  else getitem samples idx.

Fixpoint interpolate_all (samples : list Q) (ratio : Q) (indices : list Z)
         (downsampled : list Q) : result (list Q) :=
  match indices with
  | [] => Ok downsampled
  | i :: indices' =>
      val <- interpolate samples ratio i ;;
      interpolate_all samples ratio indices' (downsampled ++ [val])
  end.

Definition downsample_to_48k (samples : list Q)
           (original_rate target_rate : Z) : result (list Q) :=
  if original_rate =? target_rate then Ok samples
  else
    ratio <- truediv original_rate target_rate ;;
    x <- fdiv (of_int (len samples)) ratio ;;
    let new_len := int x in
    interpolate_all samples ratio (range 0 new_len) [].

Definition generate_c_array (samples : list Q) (array_name : string) : string :=
  let rows :=
    map (fun i =>
           let chunk := slice samples i (i + 8) in
           let values :=
             String.concat ", "
               (map (fun val => (format_6f val ++ "f")%string) chunk) in
           ("    " ++ values ++ ",")%string)
        (range_step 0 (len samples) 8) in
  let lines :=
    [("const float " ++ array_name ++ "[] = {")%string] ++ rows
      ++ ["};"%string;
          ("const uint32_t " ++ array_name ++ "_len = "
             ++ str (len samples) ++ ";")%string] in
  String.concat nl lines.

(** The text files of the machine, by path. *)
Definition files : Type := string -> option string.

Definition write_file (fs : files) (path content : string) : files :=
  fun p => if String.eqb p path then Some content else fs p.

Definition output_path : string :=
  "/mnt/c/Users/sande_ej/logue-sdk/platform/nts-1_mkii/m1_piano_osc/"
  ++ "samples_data.h".

(** [main], given what [wave.open(wav_path)] yields and the files present
    before the run; it returns the files after the run and the outcome.
    [open(output_path, 'w')] is reached only after every computation has
    succeeded.  The run is followed until the output file is closed: the
    summary that lines 203-207 print afterwards goes to the console, which
    is not modelled (its first line holds characters outside ASCII, which
    a console of a narrower encoding refuses). *)
Definition main (wav : wav_file) (fs : files) : files * result unit :=
  match
    (extracted <- extract_attack_and_loop wav 45 200 ;;
     let '(attack, loop_cycle, rate) := extracted in
     attack_48k <- downsample_to_48k attack rate 48000 ;;
     loop_48k <- downsample_to_48k loop_cycle rate 48000 ;;
     let attack_code := generate_c_array attack_48k "k_attack_samples" in
     let loop_code := generate_c_array loop_48k "k_loop_samples" in
     Ok (attack_code, loop_code))
  with
  | Raise e => (fs, Raise e)
  | Ok (attack_code, loop_code) =>
      let text : string :=
        ("/*" ++ nl
        ++ " * M1 Piano Samples - Auto-generated from WAV" ++ nl
        ++ " * Source: m1-style-piano-shot_C_major.wav" ++ nl
        ++ " * Base Note: C4 (261.63 Hz)" ++ nl
        ++ " */" ++ nl ++ nl
        ++ "#pragma once" ++ nl ++ nl
        ++ "#include <stdint.h>" ++ nl ++ nl
        ++ "// Attack samples (first 45ms)" ++ nl
        ++ attack_code
        ++ nl ++ nl
        ++ "// Loop cycle samples (single cycle for looping)" ++ nl
        ++ loop_code
        ++ nl)%string in
      (write_file fs output_path text, Ok tt)
  end.

End Simple.

(** ** extract_samples.py *)

Module Numpy.

(** The loop of [find_zero_crossings]: no spacing test, and the bound on
    the number of crossings is the literal [10]. *)
Fixpoint scan (samples : list Q) (indices : list Z) (crossings : list Z)
  : result (list Z) :=
  match indices with
  | [] => Ok crossings
  | i :: indices' =>
      r <- rising samples i ;;
      let crossings' := if r then crossings ++ [i] else crossings in
      if 10 <=? len crossings' then Ok crossings'
      else scan samples indices' crossings'
  end.

Definition find_zero_crossings (samples : list Q) (start_idx : Z)
  : result (list Z) :=
  scan samples (range start_idx (len samples - 1)) [].

Definition find_best_loop_cycle (samples : list Q) (start_ms sample_rate : Z)
           (base_freq : Q) : result (list Q) :=
  start_sample <- start_sample_of start_ms sample_rate ;;
  expected_cycle_len <- expected_cycle_len_of sample_rate base_freq ;;
  let search_start := start_sample in
  crossings <- find_zero_crossings samples search_start ;;
  if len crossings <? 2
  then Ok (slice samples start_sample (start_sample + expected_cycle_len))
  else
    best_idx <- best_pair crossings expected_cycle_len
                  (range 0 (len crossings - 1)) 0 None ;;
    cycle_start <- getitem crossings best_idx ;;
    cycle_end <- getitem crossings (best_idx + 1) ;;
    Ok (slice samples cycle_start cycle_end).

(** [np.frombuffer(raw_data, dtype=np.int16)] *)
Definition frombuffer_int16 (raw : list byte) : result (list Z) :=
  if Z.even (len raw) then Ok (unpack_h raw)
  else Raise (ValueError "buffer size must be a multiple of element size").

(** [np.max(np.abs(a))] *)
Definition np_max_abs (a : list Q) : result Q :=
  match a with
  | [] => Raise (ValueError
      "zero-size array to reduction operation maximum which has no identity")
  | _ => Simple.max_abs a
  end.

(** The decoding step.  The samples become [float32]; an [int16] divided
    by [32768] is exact in that format as well. *)
Definition decode (wav : wav_file) : result (list Q) :=
  let channels := getnchannels wav in
  let width := getsampwidth wav in
  samples <-
    (if width =? 2
     then frombuffer_int16 (readframes wav)
     else Raise (ValueError ("Unsupported sample width: " ++ str width))) ;;
  let samples := if channels =? 2 then every_other samples else samples in
  Ok (map (fun s => binary64 (of_int s / 32768)%Q) samples).

Definition extract_attack_and_loop (wav : wav_file)
           (attack_ms loop_start_ms : Z)
  : result (list Q * list Q * Z) :=
  let rate := getframerate wav in
  samples <- decode wav ;;
  _ <- truediv (len samples) rate ;;
  _ <- np_max_abs samples ;;
  attack <- attack_slice samples attack_ms rate ;;
  _ <- np_max_abs attack ;;
  loop_cycle <-
    find_best_loop_cycle samples loop_start_ms rate default_base_freq ;;
  _ <- truediv rate (len loop_cycle) ;;
  _ <- np_max_abs loop_cycle ;;
  Ok (attack, loop_cycle, rate).

End Numpy.

(** ** Vocabulary of the statements *)

(** A rising zero crossing at offset [i]: [samples[i] <= 0 < samples[i+1]]. *)
Definition crossing_at (samples : list Q) (i : Z) : Prop :=
  exists a b,
    nth_error samples (Z.to_nat i) = Some a /\
    nth_error samples (Z.to_nat (i + 1)) = Some b /\
    (a <= 0)%Q /\ (0 < b)%Q.

(** Neighbours in [cs] are at least [min_distance] apart. *)
Fixpoint spaced (min_distance : Z) (cs : list Z) : Prop :=
  match cs with
  | a :: (b :: _) as rest => min_distance <= b - a /\ spaced min_distance rest
  | _ => True
  end.

(** [c[k]] for an index known to be in range. *)
Definition at_ (c : list Z) (k : Z) : Z := nth (Z.to_nat k) c 0.

(** The distance of the [k]-th adjacent pair from the target length. *)
Definition pair_diff (c : list Z) (target : Z) (k : Z) : Z :=
  Z.abs (at_ c (k + 1) - at_ c k - target).

(** [lo <= c0 < c1 < ... < cn < hi] *)
Fixpoint ascending (lo : Z) (cs : list Z) (hi : Z) : Prop :=
  match cs with
  | [] => lo <= hi
  | c :: rest => lo <= c /\ ascending (c + 1) rest hi
  end.

(** [k] is the first index that minimises [pair_diff] over the adjacent
    pairs [0 .. n-1]. *)
Definition first_best (c : list Z) (target : Z) (n : Z) (k : Z) : Prop :=
  0 <= k < n /\
  forall j, 0 <= j < n ->
    pair_diff c target k <= pair_diff c target j /\
    (j < k -> pair_diff c target k < pair_diff c target j).

(** Both [samples[i]] and [samples[i+1]] exist. *)
Definition in_bounds (samples : list Q) (i : Z) : Prop :=
  0 <= i /\ i + 1 < len samples.

(** The integers that [find_best_loop_cycle] derives from its arguments:
    [int(start_ms * sample_rate / 1000)] and [int(sample_rate / base_freq)]. *)
Definition start_sample (start_ms sample_rate : Z) : Z :=
  int (binary64 (inject_Z (start_ms * sample_rate) / inject_Z 1000)).

Definition cycle_len (sample_rate : Z) (base_freq : Q) : Z :=
  int (binary64 (of_int sample_rate / base_freq)).

(** [out] is the slice between the first best adjacent pair of
    [crossings]. *)
Definition selected (samples : list Q) (crossings : list Z) (target : Z)
           (out : list Q) : Prop :=
  exists k,
    first_best crossings target (len crossings - 1) k /\
    out = slice samples (at_ crossings k) (at_ crossings (k + 1)).

(** The length of [out] is as close to [target] as the spacing of any
    adjacent pair of [crossings]. *)
Definition closest_length (crossings : list Z) (target : Z) (out : list Q)
  : Prop :=
  forall j, 0 <= j < len crossings - 1 ->
    Z.abs (len out - target)
    <= Z.abs (at_ crossings (j + 1) - at_ crossings j - target).

(** The quantities of [downsample_to_48k]: [ratio], [new_len] and the
    index [idx] read for output position [i]. *)
Definition ratio_of (original_rate target_rate : Z) : Q :=
  binary64 (inject_Z original_rate / inject_Z target_rate).

Definition new_len_of (samples : list Q) (original_rate target_rate : Z) : Z :=
  int (binary64 (of_int (len samples) / ratio_of original_rate target_rate)).

Definition read_index (ratio : Q) (i : Z) : Z := int (fmul (of_int i) ratio).

(** The exception raised for a sample width other than two bytes. *)
Definition width_error (width : Z) : exn :=
  ValueError ("Unsupported sample width: " ++ str width).

(** An exception other than [width_error]. *)
Definition other_error (e : exn) : Prop := forall w, e <> width_error w.

(** A computation that raises, if anything, an [other_error]. *)
Definition no_width_error {A : Type} (r : result A) : Prop :=
  match r with
  | Ok _ => True
  | Raise e => other_error e
  end.

(** The rational denoted by a finite binary64 value of the kernel, the
    kernel float of an integer in [0, 2^63), and the comparison of a kernel
    float with a rational; they serve to compare [binary64] with the
    kernel's IEEE 754 arithmetic on sample inputs. *)
Definition Q_of_float (f : PrimFloat.float) : option Q :=
  match FloatOps.Prim2SF f with
  | SpecFloat.S754_zero _ => Some 0%Q
  | SpecFloat.S754_finite s m e =>
      let v := if 0 <=? e then inject_Z (Zpos m * 2 ^ e)
               else Qmake (Zpos m) (Z.to_pos (2 ^ (- e))) in
      Some (if s then Qopp v else v)
  | _ => None
  end.

Definition float_of_Z (n : Z) : PrimFloat.float :=
  PrimFloat.of_uint63 (Uint63.of_Z n).

Definition same_value (f : PrimFloat.float) (x : Q) : bool :=
  match Q_of_float f with
  | Some q => Qeq_bool q x
  | None => false
  end.

(** A test input: 210 frames of a square wave of period 4 at 1000 Hz,
    mono, 16-bit. *)
Definition square_wave : wav_file :=
  {| getnchannels := 1; getsampwidth := 2; getframerate := 1000;
     getnframes := 210;
     readframes :=
       flat_map (fun k => if (Z.of_nat k mod 4 =? 0) || (Z.of_nat k mod 4 =? 3)
                          then [x18; xfc]%byte else [xe8; x03]%byte)
                (seq 0 210) |}.

(** The unit roundoff of binary64: [2^-53]. *)
Definition u53 : Q := 1 # 9007199254740992.

(** ** The range of the floats

    [binary64] rounds to 53 bits at every magnitude.  A Python float ends
    at [2^1024]: [float(n)] and [a / b] on integers raise [OverflowError]
    beyond, a quotient of floats is infinite there and [int] of it raises
    [OverflowError]; below [2^-1022] a float keeps fewer than 53 bits and
    from [2^-1075] down it is zero.  The statements about code that
    divides are therefore made for arguments inside the bounds below,
    with a wide margin: there every float the code computes is zero, or
    lies in the normal range where [binary64] is Python's rounding, or is
    a quotient below one of which only [int] is taken (lemmas
    [finite_arguments_floats] and [finite_ratio_float]). *)

(** [int(start_ms * sample_rate / 1000)] and [int(sample_rate / base_freq)]
    are computed without overflow. *)
Definition finite_arguments (start_ms sample_rate : Z) (base_freq : Q)
  : Prop :=
  Z.abs (start_ms * sample_rate) < 2 ^ 1000
  /\ Z.abs sample_rate < 2 ^ 1000
  /\ (Qabs (inject_Z sample_rate) < inject_Z (2 ^ 1000) * Qabs base_freq)%Q.

(** [original_rate / target_rate] is a float of the normal range, neither
    infinite nor rounded to zero. *)
Definition finite_ratio (original_rate target_rate : Z) : Prop :=
  original_rate < 2 ^ 900 * target_rate
  /\ target_rate < 2 ^ 900 * original_rate.

(** ** Vocabulary of the further properties *)

(** A rational that a binary64 value of magnitude at most [2^53] holds:
    an integer of at most 53 bits over a power of two. *)
Definition representable (a : Q) : Prop :=
  exists m k, 0 <= k /\ Z.abs m <= 2 ^ 53 /\ (a == m # Z.to_pos (2 ^ k))%Q.

(** The crossing test as a total function of an offset into the buffer. *)
Definition rising_at (samples : list Q) (i : Z) : bool :=
  match nth_error samples (Z.to_nat i),
        nth_error samples (Z.to_nat (i + 1)) with
  | Some a, Some b => Qle_bool a 0 && negb (Qle_bool b 0)
  | _, _ => false
  end.

(** The chunks that [generate_c_array] prints, one per row:
    [samples[i:i+8]] for [i] in [range(0, len(samples), 8)]. *)
Definition chunks (samples : list Q) : list (list Q) :=
  map (fun i => slice samples i (i + 8)) (range_step 0 (len samples) 8).

(** The text of one row. *)
Definition row_text (chunk : list Q) : string :=
  ("    "
   ++ String.concat ", " (map (fun val => (format_6f val ++ "f")%string) chunk)
   ++ ",")%string.

(** [z, z + P, ..., z + (m - 1) * P] *)
Definition progression (z P : Z) (m : nat) : list Z :=
  map (fun j => z + Z.of_nat j * P) (seq 0 m).

(** ** Rounding *)

Lemma round_half_even_err n d :
  0 < d -> 2 * Z.abs (round_half_even n d * d - n) <= d.
Proof.
  intros Hd. unfold round_half_even.
  pose proof (Z.div_mod n d ltac:(lia)) as E.
  pose proof (Z.mod_pos_bound n d Hd) as B.
  destruct (Z.compare_spec (2 * (n mod d)) d) as [C|C|C];
    [destruct (Z.even (n / d))| |]; nia.
Qed.

Lemma scaled_den_pos x e : 0 < snd (scaled x e).
Proof.
  unfold scaled. destruct (e <=? 0) eqn:E; cbn [fst snd]; [lia|].
  apply Z.leb_gt in E. apply Z.mul_pos_pos; [lia|apply Z.pow_pos_nonneg; lia].
Qed.

Lemma scaled_succ x e :
  Z.abs (fst (scaled x e)) * snd (scaled x (e + 1))
  = 2 * Z.abs (fst (scaled x (e + 1))) * snd (scaled x e).
Proof.
  unfold scaled.
  destruct (e <=? 0) eqn:E; destruct (e + 1 <=? 0) eqn:E'; cbn [fst snd];
    try apply Z.leb_le in E; try apply Z.leb_gt in E;
    try apply Z.leb_le in E'; try apply Z.leb_gt in E'; try lia.
  - replace (- e) with (Z.succ (- (e + 1))) by lia.
    rewrite Z.pow_succ_r by lia.
    replace (Qnum x * (2 * 2 ^ (- (e + 1)))) with (2 * (Qnum x * 2 ^ (- (e + 1)))) by ring.
    rewrite (Z.abs_mul 2). rewrite (Z.abs_eq 2) by lia. ring.
  - assert (e = 0) by lia. subst e. change (2 ^ (- 0)) with 1.
    change (2 ^ (0 + 1)) with 2. rewrite Z.mul_1_r. ring.
  - rewrite Z.pow_add_r by lia. change (2 ^ 1) with 2. ring.
Qed.

Lemma scaled_log2_lower x :
  Qnum x <> 0 ->
  let e0 := Z.log2 (Z.abs (Qnum x)) - Z.log2 (Zpos (Qden x)) - 53 in
  2 ^ 52 * snd (scaled x e0) <= Z.abs (fst (scaled x e0)).
Proof.
  intros Hx e0.
  pose proof (Z.log2_spec (Z.abs (Qnum x)) ltac:(lia)) as [P1 _].
  pose proof (Z.log2_spec (Zpos (Qden x)) ltac:(lia)) as [_ P2].
  pose proof (Z.log2_nonneg (Z.abs (Qnum x))) as N1.
  pose proof (Z.log2_nonneg (Zpos (Qden x))) as N2.
  set (lp := Z.log2 (Z.abs (Qnum x))) in *.
  set (lq := Z.log2 (Zpos (Qden x))) in *.
  unfold scaled. destruct (e0 <=? 0) eqn:E; cbn [fst snd].
  - apply Z.leb_le in E. rewrite Z.abs_mul.
    rewrite (Z.abs_eq (2 ^ _)) by (apply Z.pow_nonneg; lia).
    assert (2 ^ lp * 2 ^ (- e0) = 2 ^ 52 * 2 ^ Z.succ lq) as K.
    { rewrite <- !Z.pow_add_r by lia. f_equal. lia. }
    pose proof (Z.pow_pos_nonneg 2 (- e0) ltac:(lia) ltac:(lia)).
    nia.
  - apply Z.leb_gt in E.
    assert (2 ^ 52 * (2 ^ Z.succ lq * 2 ^ e0) = 2 ^ lp) as K.
    { rewrite <- !Z.pow_add_r by lia. f_equal. lia. }
    pose proof (Z.pow_pos_nonneg 2 e0 ltac:(lia) ltac:(lia)).
    nia.
Qed.

Lemma ulp_exponent_lower x :
  Qnum x <> 0 ->
  2 ^ 52 * snd (scaled x (ulp_exponent x))
  <= Z.abs (fst (scaled x (ulp_exponent x))).
Proof.
  intros Hx. pose proof (scaled_log2_lower x Hx) as L. cbv zeta in L.
  unfold ulp_exponent.
  set (e0 := Z.log2 (Z.abs (Qnum x)) - Z.log2 (Zpos (Qden x)) - 53) in *.
  destruct (scaled x e0) as [n d] eqn:S0. cbn [fst snd] in L.
  destruct (Z.abs n <? 2 ^ 53 * d) eqn:C.
  - rewrite S0. exact L.
  - apply Z.ltb_ge in C.
    pose proof (scaled_succ x e0) as K. rewrite S0 in K. cbn [fst snd] in K.
    pose proof (scaled_den_pos x (e0 + 1)).
    pose proof (scaled_den_pos x e0) as D0. rewrite S0 in D0. cbn [fst snd] in D0.
    nia.
Qed.

Lemma binary64_mantissa x :
  Qnum x <> 0 ->
  let n := fst (scaled x (ulp_exponent x)) in
  let d := snd (scaled x (ulp_exponent x)) in
  2 ^ 53 * Z.abs (round_half_even n d * d - n) <= Z.abs n.
Proof.
  intros Hx n d.
  pose proof (ulp_exponent_lower x Hx) as L.
  pose proof (scaled_den_pos x (ulp_exponent x)) as D.
  pose proof (round_half_even_err n d D) as R.
  fold n d in L, R. change (2 ^ 53) with (2 * 2 ^ 52). lia.
Qed.

Lemma scale_le a b c k :
  0 <= a -> 0 < c -> 0 < k -> 9007199254740992 * a <= b ->
  a * (9007199254740992 * c) <= 1 * b * (k * c).
Proof.
  intros Ha Hc Hk H.
  assert (a * 9007199254740992 * c <= b * c) by nia.
  assert (b * c <= b * (k * c)) by nia.
  lia.
Qed.

Lemma binary64_err x : (Qabs (binary64 x - x) <= u53 * Qabs x)%Q.
Proof.
  unfold binary64. destruct (Qnum x =? 0) eqn:Z0.
  - apply Z.eqb_eq in Z0. destruct x as [p q]. cbn in Z0. subst p.
    unfold Qle, Qabs, Qminus, Qplus, Qopp, Qmult, u53. cbn. lia.
  - apply Z.eqb_neq in Z0.
    pose proof (binary64_mantissa x Z0) as M. cbv zeta in M.
    remember (ulp_exponent x) as e eqn:He. clear He.
    unfold scaled in *. destruct x as [p q].
    change (Qnum (p # q)) with p in *.
    change (Z.pos (Qden (p # q))) with (Z.pos q) in *.
    unfold Qle, Qabs, Qminus, Qplus, Qopp, Qmult, u53, inject_Z.
    change (2 ^ 53) with 9007199254740992 in M.
    destruct (e <=? 0) eqn:E1; cbn [fst snd] in M; cbv beta iota;
      destruct (0 <=? e) eqn:E0;
      try apply Z.leb_le in E0; try apply Z.leb_gt in E0;
      try apply Z.leb_le in E1; try apply Z.leb_gt in E1; try lia;
      cbn [Qnum Qden]; rewrite !Pos2Z.inj_mul.
    + assert (e = 0) by lia. subst e. change (2 ^ (-0)) with 1 in *.
      change (2 ^ 0) with 1. rewrite ?Z.mul_1_r in M |- *.
      apply scale_le; try lia.
      replace (round_half_even (p * 1) (Z.pos q) * Z.pos q + - p * 1)
        with (round_half_even p (Z.pos q) * Z.pos q - p)
        by (rewrite Z.mul_1_r; ring).
      exact M.
    + pose proof (Z.pow_pos_nonneg 2 (- e) ltac:(lia) ltac:(lia)) as K.
      rewrite Z2Pos.id by lia.
      remember (2 ^ (- e)) as k eqn:Hk. clear Hk.
      remember (round_half_even (p * k) (Z.pos q)) as m eqn:Hm. clear Hm.
      rewrite Z.abs_mul in M. rewrite (Z.abs_eq k) in M by lia.
      replace (m * Z.pos q + - p * k) with (m * Z.pos q - p * k) by ring.
      remember (Z.abs (m * Z.pos q - p * k)) as a eqn:Ha.
      assert (0 <= a) by lia. clear Ha.
      assert (a * 9007199254740992 * Z.pos q <= Z.abs p * k * Z.pos q) by nia.
      lia.
    + pose proof (Z.pow_pos_nonneg 2 e ltac:(lia) ltac:(lia)) as K.
      remember (2 ^ e) as k eqn:Hk. clear Hk.
      remember (round_half_even p (Z.pos q * k)) as m eqn:Hm. clear Hm.
      apply scale_le; lia.
Qed.

Lemma round_half_even_exact a d : 0 < d -> round_half_even (a * d) d = a.
Proof.
  intros Hd. unfold round_half_even.
  rewrite Z.div_mul by lia. rewrite Z.mod_mul by lia.
  destruct (Z.compare_spec (2 * 0) d); lia.
Qed.

Lemma binary64_int x k :
  (x == inject_Z k)%Q -> Z.abs k <= 2 ^ 53 -> (binary64 x == inject_Z k)%Q.
Proof.
  intros Hx Hk. unfold binary64. destruct (Qnum x =? 0) eqn:Z0.
  - apply Z.eqb_eq in Z0. destruct x as [p q].
    unfold Qeq, inject_Z in *. cbn [Qnum Qden] in *. nia.
  - apply Z.eqb_neq in Z0.
    pose proof (ulp_exponent_lower x Z0) as L.
    remember (ulp_exponent x) as e eqn:He. clear He.
    unfold scaled in *. destruct x as [p q].
    change (Qnum (p # q)) with p in *.
    change (Z.pos (Qden (p # q))) with (Z.pos q) in *.
    assert (p = k * Z.pos q) as Hp.
    { unfold Qeq, inject_Z in Hx. cbn [Qnum Qden] in Hx. lia. }
    clear Hx. subst p.
    assert (k <> 0) as Hk0 by (intros ->; apply Z0; reflexivity).
    destruct (e <=? 0) eqn:E1; cbn [fst snd] in L; cbv beta iota;
      destruct (0 <=? e) eqn:E0;
      try apply Z.leb_le in E0; try apply Z.leb_gt in E0;
      try apply Z.leb_le in E1; try apply Z.leb_gt in E1; try lia.
    + assert (e = 0) by lia. subst e. change (2 ^ (-0)) with 1.
      change (2 ^ 0) with 1. rewrite !Z.mul_1_r.
      rewrite round_half_even_exact by lia. reflexivity.
    + pose proof (Z.pow_pos_nonneg 2 (- e) ltac:(lia) ltac:(lia)) as K.
      replace (k * Z.pos q * 2 ^ (- e)) with (k * 2 ^ (- e) * Z.pos q) by ring.
      rewrite round_half_even_exact by lia.
      unfold Qeq, inject_Z. cbn [Qnum Qden]. rewrite Z2Pos.id by lia. ring.
    + (* 0 < e: only possible for |k| = 2^53 and e = 1 *)
      assert (e = 1) as ->.
      { destruct (Z.eq_dec e 1) as [|Ne]; [assumption|exfalso].
        assert (2 ^ 2 <= 2 ^ e) by (apply Z.pow_le_mono_r; lia).
        rewrite Z.abs_mul in L. rewrite (Z.abs_eq (Z.pos q)) in L by lia.
        change (2 ^ 2) with 4 in *.
        change (2 ^ 52) with 4503599627370496 in L.
        change (2 ^ 53) with 9007199254740992 in Hk.
        nia. }
      change (2 ^ 1) with 2 in *.
      rewrite Z.abs_mul in L. rewrite (Z.abs_eq (Z.pos q)) in L by lia.
      change (2 ^ 52) with 4503599627370496 in L.
      change (2 ^ 53) with 9007199254740992 in Hk.
      assert (Z.abs k = 9007199254740992) as Hk' by nia.
      assert (k = 4503599627370496 * 2 \/ k = -4503599627370496 * 2)
        as [-> | ->] by lia.
      * replace (4503599627370496 * 2 * Z.pos q)
          with (4503599627370496 * (Z.pos q * 2)) by ring.
        rewrite round_half_even_exact by lia. reflexivity.
      * replace (-4503599627370496 * 2 * Z.pos q)
          with (-4503599627370496 * (Z.pos q * 2)) by ring.
        rewrite round_half_even_exact by lia. reflexivity.
Qed.

Lemma binary64_bounds x :
  (0 <= x)%Q ->
  ((1 - u53) * x <= binary64 x /\ binary64 x <= (1 + u53) * x)%Q.
Proof.
  intros Hx. pose proof (binary64_err x) as E.
  rewrite (Qabs_pos x Hx) in E.
  apply Qabs_Qle_condition in E. destruct E as [E1 E2].
  split; lra.
Qed.

Lemma binary64_nonneg x : (0 <= x)%Q -> (0 <= binary64 x)%Q.
Proof.
  intros Hx. destruct (binary64_bounds x Hx) as [L _].
  assert (0 <= (1 - u53) * x)%Q.
  { apply Qmult_le_0_compat; [unfold u53; lra | assumption]. }
  lra.
Qed.

Lemma int_nonneg_spec x :
  (0 <= x)%Q -> (inject_Z (int x) <= x /\ x < inject_Z (int x + 1))%Q.
Proof.
  intros Hx. unfold int. destruct x as [p q].
  unfold Qle, Qlt, inject_Z in *. cbn [Qnum Qden] in *.
  assert (0 <= p) by lia.
  rewrite Z.quot_div_nonneg by lia.
  pose proof (Z.div_mod p (Z.pos q) ltac:(lia)).
  pose proof (Z.mod_pos_bound p (Z.pos q) ltac:(lia)).
  nia.
Qed.

Lemma int_nonneg x : (0 <= x)%Q -> 0 <= int x.
Proof.
  intros Hx. unfold int. destruct x as [p q].
  unfold Qle in Hx. cbn [Qnum Qden] in *.
  apply Z.quot_pos; lia.
Qed.

Lemma int_unique x k :
  (inject_Z k <= x)%Q -> (x < inject_Z (k + 1))%Q -> 0 <= k -> int x = k.
Proof.
  intros H1 H2 Hk.
  assert (0 <= x)%Q as Hx.
  { apply Qle_trans with (inject_Z k); [|assumption].
    unfold Qle, inject_Z; cbn; lia. }
  destruct (int_nonneg_spec x Hx) as [A B].
  assert (inject_Z (int x) < inject_Z (k + 1))%Q as C by lra.
  assert (inject_Z k < inject_Z (int x + 1))%Q as D by lra.
  rewrite <- Zlt_Qlt in C, D. lia.
Qed.

Lemma inject_Z_nonneg n : 0 <= n -> (0 <= inject_Z n)%Q.
Proof. intros H. unfold Qle, inject_Z. cbn. lia. Qed.

Lemma inject_Z_pos n : 0 < n -> (0 < inject_Z n)%Q.
Proof. intros H. unfold Qlt, inject_Z. cbn. lia. Qed.


(** [binary64] computes what the kernel's binary64 arithmetic computes on
    the operations the scripts perform with their default settings. *)
Example binary64_agrees_with_kernel_floats :
  let fdiv' a b := PrimFloat.div (float_of_Z a) (float_of_Z b) in
  same_value (fdiv' 26163 100) default_base_freq = true
  /\ same_value (fdiv' 8 10) (binary64 (Qmake 8 10)) = true
  /\ same_value (PrimFloat.div (float_of_Z 44100) (fdiv' 26163 100))
       (binary64 (of_int 44100 / default_base_freq)) = true
  /\ same_value (PrimFloat.mul (float_of_Z 168) (fdiv' 8 10))
       (fmul (of_int 168) (binary64 (Qmake 8 10))) = true
  /\ same_value (fdiv' (200 * 44100) 1000)
       (binary64 (inject_Z (200 * 44100) / inject_Z 1000)) = true
  /\ same_value (fdiv' 44100 48000) (ratio_of 44100 48000) = true
  /\ same_value (PrimFloat.div (float_of_Z 48000) (fdiv' 48000 44100))
       (binary64 (of_int 48000 / ratio_of 48000 44100)) = true
  /\ same_value (PrimFloat.mul (float_of_Z 7) (fdiv' 44100 48000))
       (fmul (of_int 7) (ratio_of 44100 48000)) = true
  /\ same_value
       (PrimFloat.div (PrimFloat.opp (float_of_Z 12345)) (float_of_Z 32768))
       (binary64 (of_int (-12345) / 32768)) = true.
Proof. vm_compute. repeat split. Qed.

(** ** Error analysis of the resampler's length and read positions *)

Local Open Scope Q_scope.

Section ResampleBounds.

Variables L o t rho Lf q : Q.
Hypothesis Ho : 0 < o.
Hypothesis Ht : 0 < t.
Hypothesis HL : 0 <= L.
Hypothesis Hsize : L * t < 1125899906842624 * o.
Hypothesis Hrho_lo : (1 - u53) * o <= rho * t.
Hypothesis Hrho_hi : rho * t <= (1 + u53) * o.
Hypothesis HLf_lo : (1 - u53) * L <= Lf.
Hypothesis HLf_hi : Lf <= (1 + u53) * L.
Hypothesis Hq_lo : (1 - u53) * Lf <= q * rho.
Hypothesis Hq_hi : q * rho <= (1 + u53) * Lf.

Lemma rho_pos : 0 < rho.
Proof. unfold u53 in *. nra. Qed.

Lemma q_nonneg : 0 <= q.
Proof.
  pose proof rho_pos. unfold u53 in *.
  assert (0 <= q * rho) by nra. nra.
Qed.

Lemma qrt_hi : q * rho * t <= (1 + u53) * (1 + u53) * (L * t).
Proof.
  unfold u53 in *.
  assert (q * rho <= (1 + (1 # 9007199254740992)) * (1 + (1 # 9007199254740992)) * L) by nra.
  nra.
Qed.

Lemma qrt_lo : (1 - u53) * (1 - u53) * (L * t) <= q * rho * t.
Proof.
  unfold u53 in *.
  assert ((1 - (1 # 9007199254740992)) * (1 - (1 # 9007199254740992)) * L <= q * rho) by nra.
  nra.
Qed.

Lemma new_len_upper (N F : Q) :
  F * o <= L * t -> L * t < (F + 1) * o -> N <= q -> N < F + 2.
Proof.
  intros HF HFl HN.
  pose proof rho_pos as Hr. pose proof q_nonneg as Hq. pose proof qrt_hi as B1.
  assert (F < 1125899906842624) as HFb by nra.
  destruct (Qlt_le_dec N (F + 2)) as [|C]; [assumption|exfalso].
  unfold u53 in *.
  assert ((F + 2) * (rho * t) <= q * rho * t) as B2.
  { assert (F + 2 <= q) by lra. nra. }
  destruct (Qlt_le_dec F (-2)) as [Hneg|Hpos].
  - assert (q * rho * t < 0) by nra. nra.
  - assert ((F + 2) * ((1 - (1 # 9007199254740992)) * o) <= (F + 2) * (rho * t))
      as B3 by nra.
    assert ((F + 2) * (1 - (1 # 9007199254740992)) * o
            < (1 + (1 # 9007199254740992)) * (1 + (1 # 9007199254740992))
              * (F + 1) * o) as B5 by nra.
    assert ((F + 2) * (1 - (1 # 9007199254740992))
            < (1 + (1 # 9007199254740992)) * (1 + (1 # 9007199254740992))
              * (F + 1)) as B6 by nra.
    lra.
Qed.

Lemma new_len_lower (N F : Q) :
  F * o <= L * t -> L * t < (F + 1) * o -> q < N + 1 -> F - 2 < N.
Proof.
  intros HF HFl HN.
  pose proof rho_pos as Hr. pose proof q_nonneg as Hq. pose proof qrt_lo as B1.
  assert (F < 1125899906842624) as HFb by nra.
  destruct (Qlt_le_dec (F - 2) N) as [|C]; [assumption|exfalso].
  unfold u53 in *.
  assert (q < F - 1) as Hq' by lra.
  assert (q * rho * t <= (F - 1) * (rho * t)) as B2 by nra.
  assert ((F - 1) * (rho * t) <= (F - 1) * ((1 + (1 # 9007199254740992)) * o))
    as B3 by nra.
  assert ((1 - (1 # 9007199254740992)) * (1 - (1 # 9007199254740992)) * (F * o)
          <= (1 - (1 # 9007199254740992)) * (1 - (1 # 9007199254740992)) * (L * t))
    as B4 by nra.
  assert ((1 - (1 # 9007199254740992)) * (1 - (1 # 9007199254740992)) * F * o
          <= (F - 1) * (1 + (1 # 9007199254740992)) * o) as B5 by lra.
  assert ((1 - (1 # 9007199254740992)) * (1 - (1 # 9007199254740992)) * F
          <= (F - 1) * (1 + (1 # 9007199254740992))) as B6 by nra.
  lra.
Qed.

Lemma read_position_upper (N i pos : Q) :
  N <= q -> 0 <= i -> i <= N - 1 -> pos <= (1 + u53) * (i * rho) -> pos < L.
Proof.
  intros HN Hi0 Hi Hpos.
  pose proof rho_pos as Hr. pose proof q_nonneg as Hq. pose proof qrt_hi as B1.
  unfold u53 in *.
  assert (i * rho <= (q - 1) * rho) as C1 by nra.
  assert (pos * t <= (1 + (1 # 9007199254740992)) * ((q - 1) * rho) * t) as C2.
  { assert (pos <= (1 + (1 # 9007199254740992)) * ((q - 1) * rho)) by nra. nra. }
  assert ((1 + (1 # 9007199254740992)) * ((q - 1) * rho) * t
          == (1 + (1 # 9007199254740992)) * (q * rho * t)
             - (1 + (1 # 9007199254740992)) * (rho * t)) as C3 by ring.
  assert (pos * t < L * t) as D4.
  { rewrite C3 in C2. nra. }
  nra.
Qed.

End ResampleBounds.

Local Close Scope Q_scope.

(** ** Sequences *)

Lemma len_nonneg {A} (l : list A) : 0 <= len l.
Proof. unfold len. lia. Qed.

Lemma len_app {A} (l l' : list A) : len (l ++ l') = len l + len l'.
Proof. unfold len. rewrite length_app. lia. Qed.

Lemma getitem_nth_error {A} (l : list A) i :
  0 <= i ->
  getitem l i = match nth_error l (Z.to_nat i) with
                | Some x => Ok x
                | None => Raise IndexError
                end.
Proof.
  intros Hi. unfold getitem.
  destruct (Z.ltb_spec i 0); [lia|].
  destruct (Z.ltb_spec i 0); [lia|]. reflexivity.
Qed.

Lemma getitem_in_range {A} (l : list A) i d :
  0 <= i < len l -> getitem l i = Ok (nth (Z.to_nat i) l d).
Proof.
  intros Hi. rewrite getitem_nth_error by lia.
  destruct (nth_error l (Z.to_nat i)) eqn:E.
  - f_equal. symmetry. apply nth_error_nth. exact E.
  - apply nth_error_None in E. unfold len in Hi. lia.
Qed.

Lemma range_nil lo hi : hi <= lo -> range lo hi = [].
Proof.
  intros H. unfold range. replace (Z.to_nat (hi - lo)) with 0%nat by lia.
  reflexivity.
Qed.

Lemma range_cons lo hi : lo < hi -> range lo hi = lo :: range (lo + 1) hi.
Proof.
  intros H. unfold range.
  replace (Z.to_nat (hi - lo)) with (S (Z.to_nat (hi - (lo + 1)))) by lia.
  cbn [seq map]. f_equal; [lia|].
  rewrite <- seq_shift, map_map. apply map_ext. intros k. lia.
Qed.

Lemma map_seq_shift {A} (f g : nat -> A) n a b :
  (forall k, f (a + k)%nat = g (b + k)%nat) ->
  map f (seq a n) = map g (seq b n).
Proof.
  revert a b. induction n as [|n IH]; intros a b H; cbn [seq map].
  - reflexivity.
  - f_equal.
    + specialize (H 0%nat). rewrite !Nat.add_0_r in H. exact H.
    + apply IH. intros k. specialize (H (S k)).
      rewrite !Nat.add_succ_r in H. exact H.
Qed.

Lemma range_app lo mid hi :
  lo <= mid <= hi -> range lo hi = range lo mid ++ range mid hi.
Proof.
  intros H. unfold range.
  replace (Z.to_nat (hi - lo))
    with (Z.to_nat (mid - lo) + Z.to_nat (hi - mid))%nat by lia.
  rewrite seq_app, map_app. f_equal.
  apply map_seq_shift. intros k. lia.
Qed.

Lemma in_range i lo hi : In i (range lo hi) <-> lo <= i < hi.
Proof.
  unfold range. rewrite in_map_iff. split.
  - intros (k & <- & Hk). apply in_seq in Hk. lia.
  - intros H. exists (Z.to_nat (i - lo)). split; [lia|].
    apply in_seq. lia.
Qed.

(** ** The zero-crossing scan *)

Lemma rising_in_range samples i :
  0 <= i -> i + 1 < len samples ->
  exists b, rising samples i = Ok b /\ (b = true <-> crossing_at samples i).
Proof.
  intros H0 H1. unfold rising, crossing_at.
  rewrite (getitem_in_range samples i 0%Q) by lia.
  rewrite (getitem_in_range samples (i + 1) 0%Q) by lia.
  assert (nth_error samples (Z.to_nat i) = Some (nth (Z.to_nat i) samples 0%Q)) as Ea.
  { apply nth_error_nth'. unfold len in H1. lia. }
  assert (nth_error samples (Z.to_nat (i + 1))
          = Some (nth (Z.to_nat (i + 1)) samples 0%Q)) as Eb.
  { apply nth_error_nth'. unfold len in H1. lia. }
  set (a := nth (Z.to_nat i) samples 0%Q) in *.
  set (b := nth (Z.to_nat (i + 1)) samples 0%Q) in *.
  cbn [bind].
  destruct (Qle_bool a 0) eqn:Ca; cbn [bind].
  - destruct (Qle_bool b 0) eqn:Cb; cbn [negb]; eexists; split; try reflexivity.
    + split; [discriminate|]. intros (a' & b' & Ha' & Hb' & _ & Hpos).
      rewrite Eb in Hb'. injection Hb' as <-.
      apply Qle_bool_iff in Cb. lra.
    + split; [|reflexivity]. intros _. exists a, b.
      repeat split; try assumption.
      * apply Qle_bool_iff. exact Ca.
      * apply Qnot_le_lt. intros C. apply Qle_bool_iff in C. congruence.
  - eexists; split; [reflexivity|]. split; [discriminate|].
    intros (a' & b' & Ha' & _ & Hle & _).
    rewrite Ea in Ha'. injection Ha' as <-.
    apply Qle_bool_iff in Hle. congruence.
Qed.

Lemma spaced_snoc md l a i :
  spaced md (l ++ [a]) -> md <= i - a -> spaced md ((l ++ [a]) ++ [i]).
Proof.
  induction l as [|x l IH]; intros S H.
  - cbn. auto.
  - destruct l as [|y l].
    + cbn in *. tauto.
    + cbn [app spaced] in S |- *. destruct S as [S1 S2].
      split; [assumption|]. apply IH; assumption.
Qed.

Lemma spaced_nth md cs k a b :
  spaced md cs -> nth_error cs k = Some a -> nth_error cs (S k) = Some b ->
  md <= b - a.
Proof.
  revert k. induction cs as [|x cs IH]; intros k S Ha Hb.
  - destruct k; discriminate.
  - destruct cs as [|y cs]; [destruct k; discriminate|].
    cbn [spaced] in S. destruct S as [S1 S2].
    destruct k as [|k].
    + cbn in Ha, Hb. injection Ha as <-. injection Hb as <-. exact S1.
    + cbn [nth_error] in Ha, Hb. eapply IH; eassumption.
Qed.

Lemma scan_spaced samples count md indices : forall crossings last,
  Forall (in_bounds samples) indices ->
  spaced md crossings ->
  (crossings = [] \/ exists pre, crossings = pre ++ [last]) ->
  exists picked,
    Simple.scan samples count md indices crossings last = Ok (crossings ++ picked)
    /\ spaced md (crossings ++ picked).
Proof.
  induction indices as [|i indices IH]; intros crossings last B S L.
  - exists []. rewrite app_nil_r. split; [reflexivity|assumption].
  - inversion B as [|? ? [B0 B1] B']; subst.
    destruct (rising_in_range samples i B0 B1) as (r & Er & _).
    cbn [Simple.scan]. rewrite Er. cbn [bind].
    destruct (r && (md <=? i - last)) eqn:C.
    + apply andb_true_iff in C. destruct C as [_ C]. apply Z.leb_le in C.
      assert (spaced md (crossings ++ [i])) as S'.
      { destruct L as [-> | (pre & ->)]; [exact I|].
        apply spaced_snoc; assumption. }
      destruct (count <=? len (crossings ++ [i])).
      * exists [i]. split; [reflexivity|assumption].
      * destruct (IH (crossings ++ [i]) i B' S') as (picked & E & Sp).
        { right. exists crossings. reflexivity. }
        exists (i :: picked). rewrite E.
        rewrite <- app_assoc in Sp |- *. split; [reflexivity|exact Sp].
    + destruct (count <=? len crossings).
      * exists []. rewrite app_nil_r. split; [reflexivity|assumption].
      * apply IH; assumption.
Qed.

Lemma scan_spaced_result samples count md indices : forall crossings last cs,
  Simple.scan samples count md indices crossings last = Ok cs ->
  spaced md crossings ->
  (crossings = [] \/ exists pre, crossings = pre ++ [last]) ->
  spaced md cs.
Proof.
  induction indices as [|i indices IH]; intros crossings last cs E Sp L.
  - cbn in E. injection E as <-. exact Sp.
  - cbn [Simple.scan] in E.
    destruct (rising samples i) as [r|]; [|discriminate]. cbn [bind] in E.
    destruct (r && (md <=? i - last)) eqn:C.
    + apply andb_true_iff in C. destruct C as [_ C]. apply Z.leb_le in C.
      assert (spaced md (crossings ++ [i])) as Sp'.
      { destruct L as [-> | (pre & ->)]; [exact I|].
        apply spaced_snoc; assumption. }
      destruct (count <=? len (crossings ++ [i])).
      * injection E as <-. exact Sp'.
      * apply (IH (crossings ++ [i]) i cs E Sp').
        right. exists crossings. reflexivity.
    + destruct (count <=? len crossings).
      * injection E as <-. exact Sp.
      * apply (IH crossings last cs E Sp L).
Qed.

Lemma scan_skip samples count md pre : forall rest last,
  1 <= count ->
  Forall (fun j => rising samples j = Ok false) pre ->
  Simple.scan samples count md (pre ++ rest) [] last
  = Simple.scan samples count md rest [] last.
Proof.
  induction pre as [|j pre IH]; intros rest last Hc F.
  - reflexivity.
  - inversion F as [|? ? Fj F']; subst.
    cbn [app Simple.scan]. rewrite Fj. cbn [bind andb].
    change (len (@nil Z)) with 0.
    destruct (Z.leb_spec count 0); [lia|]. apply IH; assumption.
Qed.

Lemma ascending_weaken lo cs hi hi' :
  ascending lo cs hi -> hi <= hi' -> ascending lo cs hi'.
Proof.
  revert lo. induction cs as [|c cs IH]; intros lo A H; cbn in *.
  - lia.
  - destruct A as [A1 A2]. split; [assumption|]. apply IH; assumption.
Qed.

Lemma ascending_snoc lo cs i :
  ascending lo cs i -> ascending lo (cs ++ [i]) (i + 1).
Proof.
  revert lo. induction cs as [|c cs IH]; intros lo A; cbn in *.
  - lia.
  - destruct A as [A1 A2]. split; [assumption|]. apply IH; assumption.
Qed.

Lemma ascending_nth lo cs hi k a b :
  ascending lo cs hi ->
  nth_error cs k = Some a -> nth_error cs (S k) = Some b ->
  lo <= a /\ a < b /\ b < hi.
Proof.
  revert lo k. induction cs as [|c cs IH]; intros lo k A Ha Hb.
  - destruct k; discriminate.
  - cbn [ascending] in A. destruct A as [A1 A2]. destruct k as [|k].
    + cbn in Ha. injection Ha as <-. destruct cs as [|c' cs]; [discriminate|].
      cbn in Hb. injection Hb as <-. cbn [ascending] in A2.
      destruct A2 as [A2 A3].
      assert (c' + 1 <= hi).
      { clear - A3. revert A3. generalize (c' + 1). induction cs as [|x cs IH]; cbn; intros z H.
        - exact H.
        - destruct H as [H1 H2]. apply IH in H2. lia. }
      lia.
    + cbn [nth_error] in Ha, Hb.
      destruct (IH (c + 1) k A2 Ha Hb) as (? & ? & ?). lia.
Qed.

Lemma scan_ascending samples count md : forall n a crossings last lo cs,
  Simple.scan samples count md (range a (a + Z.of_nat n)) crossings last = Ok cs ->
  ascending lo crossings a ->
  ascending lo cs (a + Z.of_nat n).
Proof.
  induction n as [|n IH]; intros a crossings last lo cs E A.
  - rewrite range_nil in E by lia. cbn in E. injection E as <-.
    eapply ascending_weaken; [eassumption|lia].
  - rewrite range_cons in E by lia. cbn [Simple.scan] in E.
    destruct (rising samples a) as [r|]; [|discriminate]. cbn [bind] in E.
    replace (a + Z.of_nat (S n)) with (a + 1 + Z.of_nat n) in * by lia.
    destruct (r && (md <=? a - last)).
    + apply ascending_snoc in A.
      destruct (count <=? len (crossings ++ [a])).
      * injection E as <-. eapply ascending_weaken; [eassumption|lia].
      * eapply IH; eassumption.
    + destruct (count <=? len crossings).
      * injection E as <-. eapply ascending_weaken; [eassumption|lia].
      * eapply IH; [eassumption|].
        eapply ascending_weaken; [eassumption|lia].
Qed.

Lemma find_zero_crossings_ascending samples start_idx count md cs :
  Simple.find_zero_crossings samples start_idx count md = Ok cs ->
  ascending start_idx cs (Z.max start_idx (len samples - 1)).
Proof.
  unfold Simple.find_zero_crossings. intros E.
  destruct (Z.le_gt_cases start_idx (len samples - 1)) as [H|H].
  - replace (Z.max start_idx (len samples - 1))
      with (start_idx + Z.of_nat (Z.to_nat (len samples - 1 - start_idx))) by lia.
    eapply scan_ascending with (crossings := []).
    + replace (start_idx + Z.of_nat (Z.to_nat (len samples - 1 - start_idx)))
        with (len samples - 1) by lia. exact E.
    + cbn. lia.
  - rewrite range_nil in E by lia. cbn in E. injection E as <-. cbn. lia.
Qed.

(** ** The numpy scan is the pure-Python scan without the spacing test *)

Lemma numpy_scan_eq samples md : forall n a crossings last,
  md <= 1 -> md <= a - last ->
  Numpy.scan samples (range a (a + Z.of_nat n)) crossings
  = Simple.scan samples 10 md (range a (a + Z.of_nat n)) crossings last.
Proof.
  induction n as [|n IH]; intros a crossings last H1 H.
  - rewrite range_nil by lia. reflexivity.
  - rewrite range_cons by lia. cbn [Numpy.scan Simple.scan].
    destruct (rising samples a) as [r|]; [|reflexivity]. cbn [bind].
    replace (a + Z.of_nat (S n)) with (a + 1 + Z.of_nat n) by lia.
    destruct (Z.leb_spec md (a - last)); [|lia].
    destruct r; cbn [andb].
    + destruct (10 <=? len (crossings ++ [a])); [reflexivity|].
      apply IH; lia.
    + destruct (10 <=? len crossings); [reflexivity|].
      apply IH; lia.
Qed.

Lemma numpy_find_zero_crossings_eq samples start_idx md :
  0 <= start_idx -> md <= 1 ->
  Numpy.find_zero_crossings samples start_idx
  = Simple.find_zero_crossings samples start_idx 10 md.
Proof.
  intros H0 H1. unfold Numpy.find_zero_crossings, Simple.find_zero_crossings.
  destruct (Z.le_gt_cases start_idx (len samples - 1)) as [H|H].
  - replace (len samples - 1)
      with (start_idx + Z.of_nat (Z.to_nat (len samples - 1 - start_idx))) by lia.
    apply numpy_scan_eq; lia.
  - rewrite range_nil by lia. reflexivity.
Qed.

(** ** The selection loop *)

Lemma best_pair_spec c target : forall n a bi bd,
  0 <= a -> a + Z.of_nat n = len c - 1 ->
  (a = 0 /\ bd = None /\ bi = 0) \/
  (first_best c target a bi /\ bd = Some (pair_diff c target bi)) ->
  exists k,
    best_pair c target (range a (len c - 1)) bi bd = Ok k /\
    ((len c - 1 = 0 /\ k = 0) \/ first_best c target (len c - 1) k).
Proof.
  induction n as [|n IH]; intros a bi bd Ha Hn Inv.
  - rewrite range_nil by lia. exists bi. split; [reflexivity|].
    destruct Inv as [(-> & _ & ->) | (F & _)].
    + left. split; [lia|reflexivity].
    + right. replace (len c - 1) with a by lia. exact F.
  - rewrite range_cons by lia. cbn [best_pair].
    rewrite (getitem_in_range c (a + 1) 0) by lia.
    rewrite (getitem_in_range c a 0) by lia.
    cbn [bind]. fold (at_ c (a + 1)). fold (at_ c a).
    fold (pair_diff c target a).
    assert (first_best c target (a + 1)
              (if improves (pair_diff c target a) bd then a else bi)
            /\ (if improves (pair_diff c target a) bd
                then Some (pair_diff c target a) else bd)
               = Some (pair_diff c target
                         (if improves (pair_diff c target a) bd then a else bi)))
      as Inv'.
    { destruct Inv as [(-> & -> & ->) | ((Hb & Hmin) & ->)]; cbn [improves].
      - split; [|reflexivity]. split; [lia|]. intros j Hj.
        assert (j = 0) as -> by lia. lia.
      - destruct (Z.ltb_spec (pair_diff c target a) (pair_diff c target bi)).
        + split; [|reflexivity]. split; [lia|]. intros j Hj.
          destruct (Z.eq_dec j a) as [->|Hne]; [lia|].
          destruct (Hmin j ltac:(lia)). lia.
        + split; [|reflexivity]. split; [lia|]. intros j Hj.
          destruct (Z.eq_dec j a) as [->|Hne]; [lia|].
          destruct (Hmin j ltac:(lia)). lia. }
    destruct (improves (pair_diff c target a) bd);
      apply IH; try lia; right; exact Inv'.
Qed.

Lemma best_pair_first_best c target :
  2 <= len c ->
  exists k,
    best_pair c target (range 0 (len c - 1)) 0 None = Ok k /\
    first_best c target (len c - 1) k.
Proof.
  intros H.
  destruct (best_pair_spec c target (Z.to_nat (len c - 1)) 0 0 None)
    as (k & E & [(? & _) | F]); try lia.
  - left. auto.
  - exists k. auto.
Qed.

Lemma len_slice {A} (l : list A) lo hi :
  0 <= lo <= hi -> hi <= len l -> len (slice l lo hi) = hi - lo.
Proof.
  intros H1 H2. unfold slice, clamp_bound.
  destruct (Z.ltb_spec lo 0); [lia|]. destruct (Z.ltb_spec hi 0); [lia|].
  unfold len in *. rewrite length_firstn, length_skipn. lia.
Qed.

Lemma start_sample_of_eq start_ms sample_rate :
  start_sample_of start_ms sample_rate
  = Ok (start_sample start_ms sample_rate).
Proof. reflexivity. Qed.

Lemma expected_cycle_len_of_eq sample_rate base_freq :
  ~ (base_freq == 0)%Q ->
  expected_cycle_len_of sample_rate base_freq
  = Ok (cycle_len sample_rate base_freq).
Proof.
  intros H. unfold expected_cycle_len_of, fdiv.
  destruct (Qeq_bool base_freq 0) eqn:E; [|reflexivity].
  apply Qeq_bool_iff in E. contradiction.
Qed.

Lemma start_sample_nonneg start_ms sample_rate :
  0 <= start_ms -> 0 <= sample_rate -> 0 <= start_sample start_ms sample_rate.
Proof.
  intros H1 H2. unfold start_sample. apply int_nonneg, binary64_nonneg.
  assert (0 <= start_ms * sample_rate) as H by nia.
  unfold Qle, Qdiv, Qmult, Qinv, inject_Z. cbn. lia.
Qed.

Lemma nth_error_at c k :
  0 <= k < len c -> nth_error c (Z.to_nat k) = Some (at_ c k).
Proof.
  intros H. unfold at_. apply nth_error_nth'. unfold len in H. lia.
Qed.

Lemma selection_tail samples crossings target :
  2 <= len crossings ->
  exists out,
    (best_idx <- best_pair crossings target (range 0 (len crossings - 1)) 0 None ;;
     cycle_start <- getitem crossings best_idx ;;
     cycle_end <- getitem crossings (best_idx + 1) ;;
     Ok (slice samples cycle_start cycle_end)) = Ok out
    /\ selected samples crossings target out.
Proof.
  intros H2.
  destruct (best_pair_first_best crossings target H2) as (k & E & F).
  rewrite E. cbn [bind].
  pose proof F as ((Hk1 & Hk2) & _).
  rewrite (getitem_in_range crossings k 0) by lia.
  rewrite (getitem_in_range crossings (k + 1) 0) by lia.
  cbn [bind]. fold (at_ crossings k). fold (at_ crossings (k + 1)).
  eexists. split; [reflexivity|].
  exists k. split; [exact F|reflexivity].
Qed.

Lemma selected_closest samples crossings target start out :
  0 <= start ->
  ascending start crossings (Z.max start (len samples - 1)) ->
  selected samples crossings target out ->
  closest_length crossings target out.
Proof.
  intros H0 A (k & F & ->).
  pose proof F as ((Hk1 & Hk2) & Hmin).
  pose proof (nth_error_at crossings k ltac:(lia)) as Ea.
  pose proof (nth_error_at crossings (k + 1) ltac:(lia)) as Eb.
  replace (Z.to_nat (k + 1)) with (S (Z.to_nat k)) in Eb by lia.
  destruct (ascending_nth _ _ _ _ _ _ A Ea Eb) as (? & ? & ?).
  intros j Hj. rewrite len_slice by lia.
  destruct (Hmin j Hj) as [M _]. exact M.
Qed.


Lemma range_in_bounds samples start_idx :
  0 <= start_idx ->
  Forall (in_bounds samples) (range start_idx (len samples - 1)).
Proof.
  intros H. apply Forall_forall. intros i Hi. apply in_range in Hi.
  unfold in_bounds. lia.
Qed.


(** ** The fallback slice *)

Lemma flat_zero_not_rising samples i :
  Forall (fun s => s == 0)%Q samples ->
  0 <= i -> i + 1 < len samples ->
  rising samples i = Ok false.
Proof.
  intros Hz H0 H1.
  destruct (rising_in_range samples i H0 H1) as (r & Er & Hr).
  destruct r; [|exact Er]. exfalso.
  destruct (proj1 Hr eq_refl) as (a & b & _ & Hb & _ & Hpos).
  apply nth_error_In in Hb.
  rewrite Forall_forall in Hz. specialize (Hz b Hb).
  rewrite Hz in Hpos. exact (Qlt_irrefl 0 Hpos).
Qed.

Lemma find_zero_crossings_flat samples start_idx md :
  Forall (fun s => s == 0)%Q samples ->
  0 <= start_idx ->
  Simple.find_zero_crossings samples start_idx 10 md = Ok [].
Proof.
  intros Hz H0. unfold Simple.find_zero_crossings.
  rewrite <- (app_nil_r (range start_idx (len samples - 1))).
  rewrite scan_skip; [reflexivity|lia|].
  apply Forall_forall. intros j Hj. apply in_range in Hj.
  apply flat_zero_not_rising; [assumption|lia|lia].
Qed.

Lemma slice_beyond_end {A} (l : list A) lo hi :
  len l <= lo -> slice l lo hi = [].
Proof.
  intros H. pose proof (len_nonneg l) as Hl. unfold slice, clamp_bound.
  destruct (Z.ltb_spec lo 0); [lia|].
  replace (Z.min lo (len l)) with (len l) by lia.
  replace (Z.to_nat ((if hi <? 0 then Z.max 0 (hi + len l) else Z.min hi (len l))
                     - len l)) with 0%nat.
  - reflexivity.
  - destruct (Z.ltb_spec hi 0); lia.
Qed.

Lemma find_best_loop_cycle_fallback samples start_ms sample_rate base_freq crossings :
  ~ (base_freq == 0)%Q ->
  Simple.find_zero_crossings samples (start_sample start_ms sample_rate) 10
    (Simple.min_dist_of (cycle_len sample_rate base_freq)) = Ok crossings ->
  len crossings < 2 ->
  Simple.find_best_loop_cycle samples start_ms sample_rate base_freq
  = Ok (slice samples (start_sample start_ms sample_rate)
          (start_sample start_ms sample_rate + cycle_len sample_rate base_freq)).
Proof.
  intros Hbf E H. unfold Simple.find_best_loop_cycle.
  rewrite start_sample_of_eq, (expected_cycle_len_of_eq _ _ Hbf).
  cbn [bind]. rewrite E. cbn [bind].
  destruct (Z.ltb_spec (len crossings) 2); [reflexivity|lia].
Qed.

Lemma default_base_freq_nonzero : ~ (default_base_freq == 0)%Q.
Proof. intros H. vm_compute in H. discriminate. Qed.


(** ** The attack slice *)

Lemma slice_prefix_all {A} (l : list A) n : len l <= n -> slice l 0 n = l.
Proof.
  intros H. pose proof (len_nonneg l) as Hl. unfold slice, clamp_bound.
  destruct (Z.ltb_spec n 0); [lia|]. cbn [Z.ltb Z.compare].
  replace (Z.min 0 (len l)) with 0 by lia.
  replace (Z.min n (len l)) with (len l) by lia.
  cbn [Z.to_nat skipn]. rewrite Z.sub_0_r. unfold len.
  rewrite Nat2Z.id. apply firstn_all.
Qed.

Lemma len_slice_prefix {A} (l : list A) n :
  0 <= n -> len (slice l 0 n) = Z.min (len l) n.
Proof.
  intros H. destruct (Z.le_gt_cases (len l) n) as [C|C].
  - rewrite slice_prefix_all by assumption. lia.
  - rewrite len_slice by lia. lia.
Qed.

Lemma int_truediv_1000 a :
  0 <= a < 2 ^ 53 ->
  int (binary64 (inject_Z a / inject_Z 1000)) = a / 1000.
Proof.
  intros Ha.
  pose proof (Z.div_mod a 1000 ltac:(lia)) as D.
  pose proof (Z.mod_pos_bound a 1000 ltac:(lia)) as B.
  set (F := a / 1000) in *. set (r := a mod 1000) in *.
  assert (0 <= F) by lia.
  assert (inject_Z a / inject_Z 1000 == inject_Z F + inject_Z r * (1 # 1000))%Q as Ex.
  { rewrite D. rewrite inject_Z_plus, inject_Z_mult. field. }
  destruct (Z.eq_dec r 0) as [R0|R0].
  - assert (binary64 (inject_Z a / inject_Z 1000) == inject_Z F)%Q as E.
    { apply binary64_int.
      - rewrite Ex, R0. field.
      - change (2 ^ 53) with 9007199254740992 in *. lia. }
    apply int_unique; [rewrite E; lra| |assumption].
    rewrite E. rewrite inject_Z_plus. change (inject_Z 1) with 1%Q. lra.
  - assert (0 <= inject_Z a / inject_Z 1000)%Q as Hx.
    { pose proof (inject_Z_nonneg F ltac:(lia)).
      pose proof (inject_Z_nonneg r ltac:(lia)). lra. }
    pose proof (binary64_bounds _ Hx) as [Lo Hi].
    assert (inject_Z 1 <= inject_Z r)%Q as R1 by (rewrite <- Zle_Qle; lia).
    assert (inject_Z r <= inject_Z 999)%Q as R2 by (rewrite <- Zle_Qle; lia).
    assert (inject_Z a < inject_Z 9007199254740992)%Q as A1.
    { rewrite <- Zlt_Qlt. change (2 ^ 53) with 9007199254740992 in *. lia. }
    assert (inject_Z a / inject_Z 1000 < 9007199254740992 * (1 # 1000))%Q as A2.
    { change (inject_Z 9007199254740992) with (9007199254740992%Q) in A1.
      assert (inject_Z a / inject_Z 1000 == inject_Z a * (1 # 1000))%Q as E'
        by (change (inject_Z 1000) with (1000%Q); field).
      lra. }
    change (inject_Z 1) with 1%Q in R1. change (inject_Z 999) with 999%Q in R2.
    unfold u53 in *.
    remember (inject_Z a / inject_Z 1000)%Q as x eqn:Hxdef. clear Hxdef.
    apply int_unique; [| |assumption].
    + lra.
    + rewrite inject_Z_plus. change (inject_Z 1) with 1%Q. lra.
Qed.

Lemma int_truediv_1000_large a :
  2 ^ 53 <= a -> 2 ^ 42 <= int (binary64 (inject_Z a / inject_Z 1000)).
Proof.
  intros Ha.
  assert (inject_Z 9007199254740992 <= inject_Z a)%Q as A1.
  { rewrite <- Zle_Qle. exact Ha. }
  change (inject_Z 9007199254740992) with (9007199254740992%Q) in A1.
  assert (inject_Z a / inject_Z 1000 == inject_Z a * (1 # 1000))%Q as Ex
    by (change (inject_Z 1000) with (1000%Q); field).
  assert (0 <= inject_Z a / inject_Z 1000)%Q as Hx by lra.
  pose proof (binary64_bounds _ Hx) as [Lo _].
  pose proof (binary64_nonneg _ Hx) as Hn.
  pose proof (int_nonneg_spec _ Hn) as [_ Up].
  set (n := int (binary64 (inject_Z a / inject_Z 1000))) in *.
  unfold u53 in *.
  remember (inject_Z a / inject_Z 1000)%Q as x eqn:Hxdef. clear Hxdef.
  assert (inject_Z 4398046511104 < inject_Z (n + 1))%Q as C.
  { change (inject_Z 4398046511104) with 4398046511104%Q. lra. }
  rewrite <- Zlt_Qlt in C. change (2 ^ 42) with 4398046511104. lia.
Qed.

(** ** The resampler *)

Lemma resample_setting L o t :
  0 < o -> 0 < t -> 0 <= L ->
  let rho := ratio_of o t in
  let Lf := of_int L in
  let q := binary64 (Lf / rho) in
  ((1 - u53) * inject_Z o <= rho * inject_Z t)%Q /\
  (rho * inject_Z t <= (1 + u53) * inject_Z o)%Q /\
  ((1 - u53) * inject_Z L <= Lf)%Q /\
  (Lf <= (1 + u53) * inject_Z L)%Q /\
  ((1 - u53) * Lf <= q * rho)%Q /\
  (q * rho <= (1 + u53) * Lf)%Q /\
  (0 < rho)%Q /\ (0 <= q)%Q.
Proof.
  intros Ho Ht HL rho Lf q.
  pose proof (inject_Z_pos o Ho) as Ho'.
  pose proof (inject_Z_pos t Ht) as Ht'.
  pose proof (inject_Z_nonneg L HL) as HL'.
  assert (0 < inject_Z o / inject_Z t)%Q as Hx.
  { apply Qlt_shift_div_l; [assumption|]. lra. }
  assert (inject_Z o / inject_Z t * inject_Z t == inject_Z o)%Q as Ex.
  { field. lra. }
  pose proof (binary64_bounds (inject_Z o / inject_Z t) (Qlt_le_weak _ _ Hx))
    as [R1 R2].
  fold (ratio_of o t) in R1, R2. fold rho in R1, R2.
  pose proof (binary64_bounds (inject_Z L) HL') as [L1 L2].
  fold (of_int L) in L1, L2. fold Lf in L1, L2.
  assert ((1 - u53) * inject_Z o <= rho * inject_Z t)%Q as A1.
  { unfold u53 in *. remember (inject_Z o / inject_Z t)%Q as x. nra. }
  assert (rho * inject_Z t <= (1 + u53) * inject_Z o)%Q as A2.
  { unfold u53 in *. remember (inject_Z o / inject_Z t)%Q as x. nra. }
  assert (0 < rho)%Q as Hrho.
  { apply (rho_pos (inject_Z o) (inject_Z t)); assumption. }
  assert (0 <= Lf)%Q as HLf.
  { unfold Lf, of_int. apply binary64_nonneg. assumption. }
  assert (0 <= Lf / rho)%Q as Hy.
  { apply Qle_shift_div_l; [assumption|]. lra. }
  assert (Lf / rho * rho == Lf)%Q as Ey.
  { field. lra. }
  pose proof (binary64_bounds (Lf / rho) Hy) as [Q1 Q2]. fold q in Q1, Q2.
  assert ((1 - u53) * Lf <= q * rho)%Q as A3.
  { unfold u53 in *. remember (Lf / rho)%Q as y. nra. }
  assert (q * rho <= (1 + u53) * Lf)%Q as A4.
  { unfold u53 in *. remember (Lf / rho)%Q as y. nra. }
  assert (0 <= q)%Q as Hq.
  { unfold q. apply binary64_nonneg. assumption. }
  repeat split; assumption.
Qed.

Lemma size_bound_Q L o t :
  L * t < 2 ^ 50 * o ->
  (inject_Z L * inject_Z t < 1125899906842624 * inject_Z o)%Q.
Proof.
  intros H. change (2 ^ 50) with 1125899906842624 in H.
  change 1125899906842624%Q with (inject_Z 1125899906842624).
  rewrite <- !inject_Z_mult, <- Zlt_Qlt. exact H.
Qed.

Lemma new_len_nonneg samples o t :
  0 < o -> 0 < t -> 0 <= new_len_of samples o t.
Proof.
  intros Ho Ht.
  destruct (resample_setting (len samples) o t Ho Ht (len_nonneg samples))
    as (_ & _ & _ & _ & _ & _ & _ & Hq).
  unfold new_len_of. apply int_nonneg. exact Hq.
Qed.

Lemma new_len_close samples o t :
  0 < o -> 0 < t -> len samples * t < 2 ^ 50 * o ->
  Z.abs (new_len_of samples o t - len samples * t / o) <= 1.
Proof.
  intros Ho Ht Hsize.
  pose proof (len_nonneg samples) as HL.
  destruct (resample_setting (len samples) o t Ho Ht HL)
    as (A1 & A2 & A3 & A4 & A5 & A6 & Hrho & Hq).
  pose proof (size_bound_Q _ _ _ Hsize) as Hs.
  pose proof (int_nonneg_spec _ Hq) as [N1 N2].
  fold (new_len_of samples o t) in N1, N2.
  set (N := new_len_of samples o t) in *.
  pose proof (Z.div_mod (len samples * t) o ltac:(lia)) as D.
  pose proof (Z.mod_pos_bound (len samples * t) o Ho) as B.
  set (F := len samples * t / o) in *.
  assert (inject_Z F * inject_Z o <= inject_Z (len samples) * inject_Z t)%Q as F1.
  { rewrite <- !inject_Z_mult, <- Zle_Qle. lia. }
  assert (inject_Z (len samples) * inject_Z t < (inject_Z F + 1) * inject_Z o)%Q
    as F2.
  { change 1%Q with (inject_Z 1).
    rewrite <- inject_Z_plus, <- !inject_Z_mult, <- Zlt_Qlt. lia. }
  pose proof (inject_Z_pos o Ho) as Ho'.
  pose proof (inject_Z_pos t Ht) as Ht'.
  pose proof (inject_Z_nonneg _ HL) as HL'.
  pose proof (new_len_upper _ _ _ _ _ _ Ho' Ht' HL' Hs A1 A2 A3 A4 A5 A6
                (inject_Z N) (inject_Z F) F1 F2 N1) as U.
  assert (binary64 (of_int (len samples) / ratio_of o t) < inject_Z N + 1)%Q
    as N2'.
  { rewrite inject_Z_plus in N2. exact N2. }
  pose proof (new_len_lower _ _ _ _ _ _ Ho' Ht' HL' Hs A1 A2 A3 A5
                (inject_Z N) (inject_Z F) F1 F2 N2') as Lw.
  assert (inject_Z N < inject_Z (F + 2))%Q as U'.
  { rewrite inject_Z_plus. exact U. }
  assert (inject_Z (F - 2) < inject_Z N)%Q as L'.
  { unfold Z.sub. rewrite inject_Z_plus. exact Lw. }
  rewrite <- Zlt_Qlt in U', L'. lia.
Qed.

Lemma read_index_in_range samples o t i :
  0 < o -> 0 < t -> len samples * t < 2 ^ 50 * o ->
  0 <= i < new_len_of samples o t ->
  0 <= read_index (ratio_of o t) i < len samples.
Proof.
  intros Ho Ht Hsize Hi.
  pose proof (len_nonneg samples) as HL.
  destruct (resample_setting (len samples) o t Ho Ht HL)
    as (A1 & A2 & A3 & A4 & A5 & A6 & Hrho & Hq).
  pose proof (size_bound_Q _ _ _ Hsize) as Hs.
  pose proof (int_nonneg_spec _ Hq) as [N1 _].
  fold (new_len_of samples o t) in N1.
  pose proof (new_len_close samples o t Ho Ht Hsize) as Hclose.
  set (N := new_len_of samples o t) in *.
  assert (len samples * t / o < 2 ^ 50) as HF.
  { apply Z.div_lt_upper_bound; lia. }
  assert (Z.abs i <= 2 ^ 53) as Hi53.
  { change (2 ^ 50) with 1125899906842624 in HF.
    change (2 ^ 53) with 9007199254740992. lia. }
  pose proof (binary64_int (inject_Z i) i (Qeq_refl _) Hi53) as Ei.
  fold (of_int i) in Ei.
  pose proof (inject_Z_nonneg i ltac:(lia)) as Hi0.
  assert (0 <= of_int i * ratio_of o t)%Q as Hprod.
  { rewrite Ei. apply Qmult_le_0_compat; [assumption|lra]. }
  pose proof (binary64_bounds _ Hprod) as [_ P2].
  pose proof (binary64_nonneg _ Hprod) as P0.
  fold (fmul (of_int i) (ratio_of o t)) in P2, P0.
  set (pos := fmul (of_int i) (ratio_of o t)) in *.
  assert (pos <= (1 + u53) * (inject_Z i * ratio_of o t))%Q as P2'.
  { rewrite <- Ei. exact P2. }
  assert (inject_Z i <= inject_Z N - 1)%Q as HiN.
  { change 1%Q with (inject_Z 1). unfold Qminus.
    rewrite <- inject_Z_opp, <- inject_Z_plus, <- Zle_Qle. lia. }
  pose proof (inject_Z_pos o Ho) as Ho'.
  pose proof (inject_Z_pos t Ht) as Ht'.
  pose proof (inject_Z_nonneg _ HL) as HL'.
  pose proof (read_position_upper _ _ _ _ _ _ Ho' Ht' HL' Hs A1 A2 A3 A4 A5 A6
                (inject_Z N) (inject_Z i) pos N1 Hi0 HiN P2') as Up.
  unfold read_index. fold pos. split.
  - apply int_nonneg. exact P0.
  - pose proof (int_nonneg_spec _ P0) as [I1 _].
    assert (inject_Z (int pos) < inject_Z (len samples))%Q as C by lra.
    rewrite <- Zlt_Qlt in C. exact C.
Qed.

Lemma interpolate_ok samples ratio i :
  0 <= read_index ratio i < len samples ->
  exists v,
    Simple.interpolate samples ratio i = Ok v /\
    (len samples <= read_index ratio i + 1 ->
     getitem samples (read_index ratio i) = Ok v).
Proof.
  intros H. unfold Simple.interpolate. fold (read_index ratio i).
  set (idx := read_index ratio i) in *.
  rewrite (getitem_in_range samples idx 0%Q) by lia.
  destruct (Z.ltb_spec (idx + 1) (len samples)) as [C|C].
  - rewrite (getitem_in_range samples (idx + 1) 0%Q) by lia. cbn [bind].
    eexists. split; [reflexivity|]. intros; lia.
  - eexists. split; [reflexivity|]. intros _. reflexivity.
Qed.

Lemma interpolate_all_ok samples ratio : forall indices acc,
  Forall (fun i => 0 <= read_index ratio i < len samples) indices ->
  exists vs,
    Simple.interpolate_all samples ratio indices acc = Ok (acc ++ vs) /\
    Forall2 (fun i v => Simple.interpolate samples ratio i = Ok v) indices vs.
Proof.
  induction indices as [|i indices IH]; intros acc F.
  - exists []. rewrite app_nil_r. split; [reflexivity|constructor].
  - inversion F as [|? ? Fi F']; subst.
    destruct (interpolate_ok samples ratio i Fi) as (v & Ev & _).
    destruct (IH (acc ++ [v]) F') as (vs & E & F2).
    exists (v :: vs). cbn [Simple.interpolate_all]. rewrite Ev. cbn [bind].
    rewrite E, <- app_assoc. split; [reflexivity|].
    constructor; assumption.
Qed.

Lemma len_range lo hi : lo <= hi -> len (range lo hi) = hi - lo.
Proof.
  intros H. unfold len, range. rewrite length_map, length_seq. lia.
Qed.

Lemma nth_error_range lo hi i :
  0 <= i < hi - lo -> nth_error (range lo hi) (Z.to_nat i) = Some (lo + i).
Proof.
  intros H. unfold range.
  rewrite nth_error_map, nth_error_seq.
  destruct (Nat.ltb_spec (Z.to_nat i) (Z.to_nat (hi - lo))); [|lia].
  cbn. f_equal. lia.
Qed.

Lemma Forall2_len {A B} (R : A -> B -> Prop) l l' :
  Forall2 R l l' -> len l = len l'.
Proof. intros H. unfold len. f_equal. eapply Forall2_length. eassumption. Qed.

Lemma Forall2_nth_error {A B} (R : A -> B -> Prop) l l' k a :
  Forall2 R l l' -> nth_error l k = Some a ->
  exists b, nth_error l' k = Some b /\ R a b.
Proof.
  intros H. revert k. induction H as [|x y l l' Hxy H IH]; intros k Hk.
  - destruct k; discriminate.
  - destruct k as [|k].
    + cbn in Hk. injection Hk as <-. exists y. split; [reflexivity|assumption].
    + cbn [nth_error] in Hk |- *. apply IH. assumption.
Qed.

(** What [downsample_to_48k] does when the two rates differ. *)
Lemma downsample_resampled samples o t :
  0 < o -> 0 < t -> o <> t -> len samples * t < 2 ^ 50 * o ->
  exists out,
    Simple.downsample_to_48k samples o t = Ok out /\
    len out = new_len_of samples o t /\
    Forall2 (fun i v => Simple.interpolate samples (ratio_of o t) i = Ok v)
            (range 0 (new_len_of samples o t)) out.
Proof.
  intros Ho Ht Hne Hsize.
  destruct (resample_setting (len samples) o t Ho Ht (len_nonneg samples))
    as (_ & _ & _ & _ & _ & _ & Hrho & _).
  unfold Simple.downsample_to_48k, truediv, fdiv.
  destruct (Z.eqb_spec o t); [contradiction|].
  destruct (Z.eqb_spec t 0); [lia|]. cbn [bind].
  fold (ratio_of o t).
  destruct (Qeq_bool (ratio_of o t) 0) eqn:Ez.
  { apply Qeq_bool_iff in Ez. lra. }
  cbn [bind]. fold (new_len_of samples o t).
  pose proof (new_len_nonneg samples o t Ho Ht) as HN.
  destruct (interpolate_all_ok samples (ratio_of o t)
              (range 0 (new_len_of samples o t)) []) as (vs & E & F2).
  { apply Forall_forall. intros i Hi. apply in_range in Hi.
    apply read_index_in_range; assumption. }
  cbn [app] in E. exists vs. split; [exact E|]. split; [|exact F2].
  rewrite <- (Forall2_len _ _ _ F2). rewrite len_range by lia. lia.
Qed.

(** ** Which exceptions the pipeline can raise *)

Lemma other_IndexError : other_error IndexError.
Proof. intros w H. discriminate. Qed.

Lemma other_ZeroDivisionError : other_error ZeroDivisionError.
Proof. intros w H. discriminate. Qed.

Lemma other_StructError : other_error StructError.
Proof. intros w H. discriminate. Qed.

Lemma no_width_error_bind {A B} (m : result A) (k : A -> result B) :
  no_width_error m -> (forall a, no_width_error (k a)) ->
  no_width_error (bind m k).
Proof.
  intros Hm Hk. destruct m as [a|e]; cbn [bind]; [apply Hk|exact Hm].
Qed.

Lemma no_width_error_getitem {A} (l : list A) i : no_width_error (getitem l i).
Proof.
  unfold getitem.
  destruct (_ <? 0); [exact other_IndexError|].
  destruct (nth_error l _); [exact I|exact other_IndexError].
Qed.

Lemma no_width_error_truediv a b : no_width_error (truediv a b).
Proof.
  unfold truediv. destruct (b =? 0); [exact other_ZeroDivisionError|exact I].
Qed.

Lemma no_width_error_fdiv a b : no_width_error (fdiv a b).
Proof.
  unfold fdiv. destruct (Qeq_bool b 0); [exact other_ZeroDivisionError|exact I].
Qed.

Lemma no_width_error_max_abs l : no_width_error (Simple.max_abs l).
Proof.
  destruct l; cbn; [|exact I]. intros w H. discriminate.
Qed.

Lemma no_width_error_np_max_abs l : no_width_error (Numpy.np_max_abs l).
Proof.
  destruct l; cbn -[fold_left]; [|exact I]. intros w H. discriminate.
Qed.

Create HintDb raises.

#[local] Hint Resolve no_width_error_getitem no_width_error_truediv
  no_width_error_fdiv no_width_error_max_abs no_width_error_np_max_abs
  : raises.

Ltac raises :=
  repeat first
    [ exact I
    | progress intros
    | solve [auto with raises]
    | apply no_width_error_bind
    | match goal with
      | |- no_width_error (if ?c then _ else _) => destruct c
      | |- no_width_error (let '(_, _) := ?p in _) => destruct p
      end ].

Lemma no_width_error_rising samples i : no_width_error (rising samples i).
Proof. unfold rising. raises. Qed.

#[local] Hint Resolve no_width_error_rising : raises.

Lemma no_width_error_simple_scan samples count md indices :
  forall crossings last,
    no_width_error (Simple.scan samples count md indices crossings last).
Proof.
  induction indices as [|i indices IH]; intros crossings last; cbn [Simple.scan].
  - exact I.
  - apply no_width_error_bind; [auto with raises|]. intros r.
    destruct (r && (md <=? i - last)).
    + destruct (count <=? len (crossings ++ [i])); [exact I|apply IH].
    + destruct (count <=? len crossings); [exact I|apply IH].
Qed.

Lemma no_width_error_numpy_scan samples indices :
  forall crossings, no_width_error (Numpy.scan samples indices crossings).
Proof.
  induction indices as [|i indices IH]; intros crossings; cbn [Numpy.scan].
  - exact I.
  - apply no_width_error_bind; [auto with raises|]. intros r.
    destruct (10 <=? len (if r then crossings ++ [i] else crossings));
      [exact I|apply IH].
Qed.

Lemma no_width_error_best_pair c target indices :
  forall bi bd, no_width_error (best_pair c target indices bi bd).
Proof.
  induction indices as [|i indices IH]; intros bi bd; cbn [best_pair].
  - exact I.
  - apply no_width_error_bind; [auto with raises|]. intros c1.
    apply no_width_error_bind; [auto with raises|]. intros c0.
    destruct (improves _ bd); apply IH.
Qed.

Lemma no_width_error_interpolate_all samples ratio indices :
  forall acc, no_width_error (Simple.interpolate_all samples ratio indices acc).
Proof.
  induction indices as [|i indices IH]; intros acc; cbn [Simple.interpolate_all].
  - exact I.
  - apply no_width_error_bind; [|intros v; apply IH].
    unfold Simple.interpolate. raises.
Qed.

#[local] Hint Resolve no_width_error_simple_scan no_width_error_numpy_scan
  no_width_error_best_pair no_width_error_interpolate_all : raises.

Lemma no_width_error_simple_find_best samples start_ms rate bf :
  no_width_error (Simple.find_best_loop_cycle samples start_ms rate bf).
Proof.
  unfold Simple.find_best_loop_cycle, start_sample_of,
    expected_cycle_len_of, Simple.find_zero_crossings.
  raises.
Qed.

Lemma no_width_error_numpy_find_best samples start_ms rate bf :
  no_width_error (Numpy.find_best_loop_cycle samples start_ms rate bf).
Proof.
  unfold Numpy.find_best_loop_cycle, start_sample_of,
    expected_cycle_len_of, Numpy.find_zero_crossings.
  raises.
Qed.

Lemma no_width_error_downsample samples o t :
  no_width_error (Simple.downsample_to_48k samples o t).
Proof. unfold Simple.downsample_to_48k. raises. Qed.

Lemma no_width_error_attack_slice samples ms rate :
  no_width_error (attack_slice samples ms rate).
Proof.
  unfold attack_slice, attack_samples_count. raises.
Qed.

#[local] Hint Resolve no_width_error_simple_find_best
  no_width_error_numpy_find_best no_width_error_downsample
  no_width_error_attack_slice : raises.

Lemma no_width_error_simple_decode wav :
  getsampwidth wav = 2 -> no_width_error (Simple.decode wav).
Proof.
  intros H. unfold Simple.decode, Simple.struct_unpack_h. rewrite H.
  cbn [Z.eqb Pos.eqb]. apply no_width_error_bind.
  - destruct (_ =? _); [exact I|exact other_StructError].
  - intros; exact I.
Qed.

Lemma no_width_error_numpy_decode wav :
  getsampwidth wav = 2 -> no_width_error (Numpy.decode wav).
Proof.
  intros H. unfold Numpy.decode, Numpy.frombuffer_int16. rewrite H.
  cbn [Z.eqb Pos.eqb]. apply no_width_error_bind.
  - destruct (Z.even _); [exact I|]. intros w E. discriminate.
  - intros; exact I.
Qed.

Lemma no_width_error_simple_extract wav attack_ms loop_start_ms :
  getsampwidth wav = 2 ->
  no_width_error (Simple.extract_attack_and_loop wav attack_ms loop_start_ms).
Proof.
  intros H. pose proof (no_width_error_simple_decode wav H).
  unfold Simple.extract_attack_and_loop. raises.
Qed.

Lemma no_width_error_numpy_extract wav attack_ms loop_start_ms :
  getsampwidth wav = 2 ->
  no_width_error (Numpy.extract_attack_and_loop wav attack_ms loop_start_ms).
Proof.
  intros H. pose proof (no_width_error_numpy_decode wav H).
  unfold Numpy.extract_attack_and_loop. raises.
Qed.

Lemma simple_decode_bad_width wav :
  getsampwidth wav <> 2 ->
  Simple.decode wav = Raise (width_error (getsampwidth wav)).
Proof.
  intros H. unfold Simple.decode.
  destruct (Z.eqb_spec (getsampwidth wav) 2); [contradiction|].
  reflexivity.
Qed.

Lemma numpy_decode_bad_width wav :
  getsampwidth wav <> 2 ->
  Numpy.decode wav = Raise (width_error (getsampwidth wav)).
Proof.
  intros H. unfold Numpy.decode.
  destruct (Z.eqb_spec (getsampwidth wav) 2); [contradiction|].
  reflexivity.
Qed.

(** ** More on rounding: exact values and integer fences *)

Lemma binary64_integral x :
  Qnum x <> 0 ->
  (exists j, fst (scaled x (ulp_exponent x))
             = j * snd (scaled x (ulp_exponent x))) ->
  (binary64 x == x)%Q.
Proof.
  intros Hx (j & Hj). unfold binary64.
  destruct (Z.eqb_spec (Qnum x) 0); [contradiction|].
  pose proof (scaled_den_pos x (ulp_exponent x)) as D.
  remember (ulp_exponent x) as e eqn:He. clear He.
  unfold scaled in *. destruct x as [p q].
  change (Qnum (p # q)) with p in *.
  change (Z.pos (Qden (p # q))) with (Z.pos q) in *.
  destruct (e <=? 0) eqn:E1; cbn [fst snd] in Hj, D; cbv beta iota;
    destruct (0 <=? e) eqn:E0;
    try apply Z.leb_le in E0; try apply Z.leb_gt in E0;
    try apply Z.leb_le in E1; try apply Z.leb_gt in E1; try lia;
    rewrite Hj; rewrite round_half_even_exact by lia.
  - assert (e = 0) by lia. subst e. change (2 ^ (-0)) with 1 in Hj.
    change (2 ^ 0) with 1. unfold Qeq, inject_Z. cbn [Qnum Qden]. lia.
  - pose proof (Z.pow_pos_nonneg 2 (- e) ltac:(lia) ltac:(lia)).
    unfold Qeq. cbn [Qnum Qden]. rewrite Z2Pos.id by lia. lia.
  - unfold Qeq, inject_Z. cbn [Qnum Qden]. lia.
Qed.

Lemma pow2_le_inv a b : 0 <= a -> 0 <= b -> 2 ^ a <= 2 ^ b -> a <= b.
Proof.
  intros Ha Hb H. apply (Z.pow_le_mono_r_iff 2); lia.
Qed.

Lemma binary64_dyadic x m k :
  0 <= k -> Z.abs m <= 2 ^ 53 -> (x == m # Z.to_pos (2 ^ k))%Q ->
  (binary64 x == x)%Q.
Proof.
  intros Hk Hm Hx.
  pose proof (Z.pow_pos_nonneg 2 k ltac:(lia) Hk) as HK.
  destruct (Z.eq_dec (Qnum x) 0) as [Z0|Z0].
  { unfold binary64. rewrite Z0. cbn [Z.eqb].
    destruct x as [p q]. cbn in Z0. subst p. reflexivity. }
  apply binary64_integral; [assumption|].
  pose proof (ulp_exponent_lower x Z0) as L.
  remember (ulp_exponent x) as e eqn:He. clear He.
  unfold scaled in *. destruct x as [p q].
  change (Qnum (p # q)) with p in *.
  change (Z.pos (Qden (p # q))) with (Z.pos q) in *.
  assert (p * 2 ^ k = m * Z.pos q) as Hpq.
  { unfold Qeq in Hx. cbn [Qnum Qden] in Hx. rewrite Z2Pos.id in Hx by lia.
    exact Hx. }
  clear Hx.
  assert (Z.abs p * 2 ^ k = Z.abs m * Z.pos q) as Habs.
  { assert (Z.abs (p * 2 ^ k) = Z.abs (m * Z.pos q)) as HA by congruence.
    rewrite !Z.abs_mul in HA.
    rewrite (Z.abs_eq (2 ^ k)), (Z.abs_eq (Z.pos q)) in HA by lia.
    exact HA. }
  change (2 ^ 52) with 4503599627370496 in L.
  change (2 ^ 53) with 9007199254740992 in Hm.
  destruct (e <=? 0) eqn:E1; cbn [fst snd] in L |- *.
  - apply Z.leb_le in E1.
    pose proof (Z.pow_pos_nonneg 2 (- e) ltac:(lia) ltac:(lia)) as HE.
    rewrite Z.abs_mul in L. rewrite (Z.abs_eq (2 ^ (- e))) in L by lia.
    assert (2 ^ k <= 2 * 2 ^ (- e)) as HKE.
    { assert (4503599627370496 * Z.pos q * 2 ^ k
              <= Z.abs m * Z.pos q * 2 ^ (- e)) by nia.
      assert (4503599627370496 * 2 ^ k <= Z.abs m * 2 ^ (- e)) by nia.
      nia. }
    assert (k <= 1 - e) as Hke.
    { apply pow2_le_inv; try lia.
      replace (1 - e) with (Z.succ (- e)) by lia.
      rewrite Z.pow_succ_r by lia. exact HKE. }
    destruct (Z.eq_dec k (1 - e)) as [Heq|Hne].
    + (* the mantissa is 2^53 *)
      assert (2 ^ k = 2 * 2 ^ (- e)) as HK2.
      { rewrite Heq. replace (1 - e) with (Z.succ (- e)) by lia.
        rewrite Z.pow_succ_r by lia. reflexivity. }
      assert (Z.abs m = 9007199254740992) as Hm2.
      { assert (4503599627370496 * Z.pos q * 2 ^ k
                <= Z.abs m * Z.pos q * 2 ^ (- e)) by nia.
        assert (4503599627370496 * 2 ^ k <= Z.abs m * 2 ^ (- e)) by nia.
        nia. }
      rewrite HK2 in Hpq.
      assert (m = 4503599627370496 * 2 \/ m = -4503599627370496 * 2)
        as [-> | ->] by lia.
      * exists 4503599627370496. nia.
      * exists (-4503599627370496). nia.
    + exists (m * 2 ^ (- e - k)).
      assert (2 ^ (- e) = 2 ^ k * 2 ^ (- e - k)) as ->.
      { rewrite <- Z.pow_add_r by lia. f_equal. lia. }
      nia.
  - apply Z.leb_gt in E1.
    assert (4 <= 2 ^ e \/ e = 1) as [H4 | ->].
    { destruct (Z.eq_dec e 1); [right; assumption|left].
      change 4 with (2 ^ 2). apply Z.pow_le_mono_r; lia. }
    + exfalso.
      assert (4503599627370496 * (Z.pos q * 2 ^ e) * 2 ^ k
              <= Z.abs m * Z.pos q) by nia.
      nia.
    + change (2 ^ 1) with 2 in *.
      assert (2 ^ k = 1 /\ Z.abs m = 9007199254740992) as [HK1 Hm2].
      { assert (4503599627370496 * (Z.pos q * 2) * 2 ^ k
                <= Z.abs m * Z.pos q) by nia.
        assert (4503599627370496 * 2 * 2 ^ k <= Z.abs m) by nia.
        lia. }
      rewrite HK1 in Hpq.
      assert (m = 4503599627370496 * 2 \/ m = -4503599627370496 * 2)
        as [-> | ->] by lia.
      * exists 4503599627370496. nia.
      * exists (-4503599627370496). nia.
Qed.

Lemma round_half_even_ge_floor n d : n / d <= round_half_even n d.
Proof.
  unfold round_half_even.
  destruct (2 * (n mod d) ?= d); [destruct (Z.even (n / d))| |]; lia.
Qed.

(** Rounding does not fall below an integer that the argument reaches. *)
Lemma binary64_ge_int x j :
  0 <= j <= 2 ^ 53 -> (inject_Z j <= x)%Q -> (inject_Z j <= binary64 x)%Q.
Proof.
  intros Hj Hx.
  assert (0 <= x)%Q as Hx0.
  { pose proof (inject_Z_nonneg j ltac:(lia)). lra. }
  destruct (Z.eq_dec j 0) as [->|Hj0].
  { apply binary64_nonneg. assumption. }
  assert (Qnum x <> 0) as Z0.
  { intros Z0. destruct x as [p q]. cbn in Z0. subst p.
    unfold Qle, inject_Z in Hx. cbn in Hx. lia. }
  pose proof (ulp_exponent_lower x Z0) as L.
  pose proof (scaled_den_pos x (ulp_exponent x)) as D.
  unfold binary64. destruct (Z.eqb_spec (Qnum x) 0); [contradiction|].
  remember (ulp_exponent x) as e eqn:He. clear He.
  unfold scaled in *. destruct x as [p q].
  change (Qnum (p # q)) with p in *.
  change (Z.pos (Qden (p # q))) with (Z.pos q) in *.
  assert (j * Z.pos q <= p) as Hpq.
  { unfold Qle, inject_Z in Hx. cbn [Qnum Qden] in Hx. lia. }
  assert (0 < p) as Hp by nia.
  change (2 ^ 52) with 4503599627370496 in L.
  destruct Hj as [_ Hj]. change (2 ^ 53) with 9007199254740992 in Hj.
  destruct (e <=? 0) eqn:E1; cbn [fst snd] in L, D; cbv beta iota;
    destruct (0 <=? e) eqn:E0;
    try apply Z.leb_le in E0; try apply Z.leb_gt in E0;
    try apply Z.leb_le in E1; try apply Z.leb_gt in E1; try lia.
  - assert (e = 0) by lia. subst e. change (2 ^ (-0)) with 1 in *.
    change (2 ^ 0) with 1. rewrite !Z.mul_1_r in *.
    pose proof (round_half_even_ge_floor p (Z.pos q)).
    assert (j <= p / Z.pos q) by (apply Z.div_le_lower_bound; lia).
    rewrite <- Zle_Qle. lia.
  - pose proof (Z.pow_pos_nonneg 2 (- e) ltac:(lia) ltac:(lia)) as HE.
    pose proof (round_half_even_ge_floor (p * 2 ^ (- e)) (Z.pos q)).
    assert (j * 2 ^ (- e) <= p * 2 ^ (- e) / Z.pos q).
    { apply Z.div_le_lower_bound; [lia|nia]. }
    unfold Qle, inject_Z. cbn [Qnum Qden]. rewrite Z2Pos.id by lia. lia.
  - pose proof (Z.pow_pos_nonneg 2 e ltac:(lia) ltac:(lia)) as HE.
    pose proof (round_half_even_ge_floor p (Z.pos q * 2 ^ e)).
    rewrite Z.abs_eq in L by lia.
    assert (4503599627370496 <= p / (Z.pos q * 2 ^ e)).
    { apply Z.div_le_lower_bound; [lia|nia]. }
    assert (2 <= 2 ^ e).
    { change 2 with (2 ^ 1) at 1. apply Z.pow_le_mono_r; lia. }
    rewrite <- Zle_Qle. nia.
Qed.

(** [int] of a correctly rounded quotient of integers is the integer
    quotient, while the dividend is below [2^53]. *)
Lemma int_binary64_quotient x a b :
  (x * inject_Z b == inject_Z a)%Q -> 0 <= a < 2 ^ 53 -> 0 < b ->
  int (binary64 x) = a / b.
Proof.
  intros Hx Ha Hb.
  pose proof (Z.div_mod a b ltac:(lia)) as D.
  pose proof (Z.mod_pos_bound a b Hb) as B.
  set (F := a / b) in *. set (r := a mod b) in *.
  assert (0 <= F) by (apply Z.div_pos; lia).
  pose proof (inject_Z_pos b Hb) as Hb'.
  pose proof (inject_Z_nonneg a ltac:(lia)) as Ha'.
  assert (0 <= x)%Q as Hx0 by nra.
  assert (inject_Z a == inject_Z b * inject_Z F + inject_Z r)%Q as Da.
  { rewrite <- inject_Z_mult, <- inject_Z_plus, <- D. reflexivity. }
  pose proof (inject_Z_nonneg F ltac:(lia)) as HF'.
  destruct (Z.eq_dec r 0) as [R0|R0].
  - assert (binary64 x == inject_Z F)%Q as E.
    { apply binary64_int.
      - rewrite R0 in Da. change (inject_Z 0) with 0%Q in Da. nra.
      - assert (F <= a) by nia.
        change (2 ^ 53) with 9007199254740992 in *. lia. }
    apply int_unique; [rewrite E; lra| |assumption].
    rewrite E, inject_Z_plus. change (inject_Z 1) with 1%Q. lra.
  - pose proof (binary64_bounds x Hx0) as [Lo Hi].
    assert (inject_Z 1 <= inject_Z r)%Q as R1 by (rewrite <- Zle_Qle; lia).
    assert (inject_Z r + inject_Z 1 <= inject_Z b)%Q as R2.
    { rewrite <- inject_Z_plus, <- Zle_Qle. lia. }
    assert (inject_Z a < inject_Z 9007199254740992)%Q as A1.
    { rewrite <- Zlt_Qlt. change (2 ^ 53) with 9007199254740992 in *. lia. }
    change (inject_Z 9007199254740992) with 9007199254740992%Q in A1.
    change (inject_Z 1) with 1%Q in R1, R2.
    unfold u53 in *.
    remember (binary64 x) as y eqn:Hy. clear Hy.
    remember (inject_Z a) as a' eqn:Ha''. remember (inject_Z b) as b'.
    remember (inject_Z F) as F'. remember (inject_Z r) as r'.
    apply int_unique; [| |assumption].
    + rewrite <- HeqF'.
      assert (F' * b' <= y * b')%Q by nra. nra.
    + rewrite inject_Z_plus, <- HeqF'. change (inject_Z 1) with 1%Q.
      assert (y * b' < (F' + 1) * b')%Q by nra. nra.
Qed.

(** ** The crossing search: what it returns *)

Lemma rising_at_crossing samples i :
  rising_at samples i = true <-> crossing_at samples i.
Proof.
  unfold rising_at, crossing_at. split.
  - destruct (nth_error samples (Z.to_nat i)) as [a|]; [|discriminate].
    destruct (nth_error samples (Z.to_nat (i + 1))) as [b|]; [|discriminate].
    intros H. apply andb_true_iff in H. destruct H as [Ha Hb].
    exists a, b. split; [reflexivity|]. split; [reflexivity|]. split.
    + apply Qle_bool_iff. exact Ha.
    + apply Qnot_le_lt. intros C. apply Qle_bool_iff in C.
      rewrite C in Hb. discriminate.
  - intros (a & b & -> & -> & Ha & Hb). apply andb_true_iff. split.
    + apply Qle_bool_iff. exact Ha.
    + destruct (Qle_bool b 0) eqn:C; [|reflexivity].
      apply Qle_bool_iff in C. lra.
Qed.

Lemma rising_rising_at samples i :
  0 <= i -> i + 1 < len samples -> rising samples i = Ok (rising_at samples i).
Proof.
  intros H0 H1. unfold rising, rising_at.
  rewrite (getitem_in_range samples i 0%Q) by lia.
  rewrite (getitem_in_range samples (i + 1) 0%Q) by lia.
  rewrite (nth_error_nth' samples 0%Q (n := Z.to_nat i))
    by (unfold len in H1; lia).
  rewrite (nth_error_nth' samples 0%Q (n := Z.to_nat (i + 1)))
    by (unfold len in H1; lia).
  cbn [bind]. destruct (Qle_bool (nth (Z.to_nat i) samples 0%Q) 0);
    reflexivity.
Qed.

Lemma firstn_all_app {A} (l l' : list A) n :
  List.length l = n -> firstn n (l ++ l') = l.
Proof.
  intros <-. rewrite firstn_app, Nat.sub_diag, firstn_all. cbn.
  apply app_nil_r.
Qed.

Lemma numpy_scan_filter samples : forall indices crossings,
  Forall (in_bounds samples) indices ->
  len crossings < 10 ->
  Numpy.scan samples indices crossings
  = Ok (firstn 10 (crossings ++ filter (rising_at samples) indices)).
Proof.
  induction indices as [|i rest IH]; intros crossings B L.
  - cbn [Numpy.scan filter]. rewrite app_nil_r, firstn_all2; [reflexivity|].
    unfold len in L. lia.
  - inversion B as [|? ? [B0 B1] B']; subst.
    cbn [Numpy.scan filter]. rewrite rising_rising_at by assumption.
    cbn [bind]. destruct (rising_at samples i).
    + destruct (Z.leb_spec 10 (len (crossings ++ [i]))) as [G|G].
      * f_equal. symmetry.
        replace (crossings ++ i :: filter (rising_at samples) rest)
          with ((crossings ++ [i]) ++ filter (rising_at samples) rest)
          by (rewrite <- app_assoc; reflexivity).
        apply firstn_all_app. rewrite len_app in G. unfold len in *.
        rewrite length_app. cbn in *. lia.
      * rewrite IH by assumption. rewrite <- app_assoc. reflexivity.
    + destruct (Z.leb_spec 10 (len crossings)); [lia|]. apply IH; assumption.
Qed.

Lemma scan_sound samples count md : forall indices crossings last cs,
  Forall (in_bounds samples) indices ->
  Simple.scan samples count md indices crossings last = Ok cs ->
  forall c, In c cs ->
    In c crossings \/ (In c indices /\ crossing_at samples c).
Proof.
  induction indices as [|i rest IH]; intros crossings last cs B E c Hc.
  - cbn in E. injection E as <-. left. exact Hc.
  - inversion B as [|? ? [B0 B1] B']; subst.
    cbn [Simple.scan] in E. rewrite rising_rising_at in E by assumption.
    cbn [bind] in E.
    destruct (rising_at samples i && (md <=? i - last)) eqn:T.
    + apply andb_true_iff in T. destruct T as [T _].
      apply rising_at_crossing in T.
      assert (In c (crossings ++ [i]) ->
              In c crossings \/ In c (i :: rest) /\ crossing_at samples c) as K.
      { intros H. apply in_app_or in H. destruct H as [H|[<-|[]]].
        - left. exact H.
        - right. split; [left; reflexivity|exact T]. }
      destruct (count <=? len (crossings ++ [i])).
      * injection E as <-. apply K. exact Hc.
      * destruct (IH _ _ _ B' E c Hc) as [H|[H1 H2]].
        -- apply K. exact H.
        -- right. split; [right; exact H1|exact H2].
    + destruct (count <=? len crossings).
      * injection E as <-. left. exact Hc.
      * destruct (IH _ _ _ B' E c Hc) as [H|[H1 H2]].
        -- left. exact H.
        -- right. split; [right; exact H1|exact H2].
Qed.

Lemma scan_count samples count md : forall indices crossings last cs,
  Simple.scan samples count md indices crossings last = Ok cs ->
  len crossings <= Z.max (count - 1) 0 ->
  len cs <= Z.max count 1.
Proof.
  induction indices as [|i rest IH]; intros crossings last cs E L.
  - cbn in E. injection E as <-. lia.
  - cbn [Simple.scan] in E.
    destruct (rising samples i) as [r|]; [|discriminate]. cbn [bind] in E.
    destruct (r && (md <=? i - last)).
    + destruct (Z.leb_spec count (len (crossings ++ [i]))) as [G|G].
      * injection E as <-. rewrite len_app. cbn. lia.
      * eapply IH; [exact E|lia].
    + destruct (Z.leb_spec count (len crossings)) as [G|G].
      * injection E as <-. lia.
      * eapply IH; [exact E|lia].
Qed.

Lemma numpy_scan_count samples : forall indices crossings cs,
  Numpy.scan samples indices crossings = Ok cs ->
  len crossings <= 9 -> len cs <= 10.
Proof.
  induction indices as [|i rest IH]; intros crossings cs E L.
  - cbn in E. injection E as <-. lia.
  - cbn [Numpy.scan] in E.
    destruct (rising samples i) as [r|]; [|discriminate]. cbn [bind] in E.
    destruct r.
    + destruct (Z.leb_spec 10 (len (crossings ++ [i]))) as [G|G].
      * injection E as <-. rewrite len_app. cbn. lia.
      * eapply IH; [exact E|lia].
    + destruct (Z.leb_spec 10 (len crossings)) as [G|G].
      * injection E as <-. lia.
      * eapply IH; [exact E|lia].
Qed.

(** The greedy spacing filter: while the scan has not stopped on its
    count, a rising crossing it passes is either accepted or lies less
    than [md] after the crossing accepted last. *)
Lemma scan_complete samples count md : forall n a crossings last cs,
  Forall (in_bounds samples) (range a (a + Z.of_nat n)) ->
  Simple.scan samples count md (range a (a + Z.of_nat n)) crossings last
  = Ok cs ->
  len cs < count ->
  (crossings = [] /\ last = - md /\ 0 <= a) \/ (In last crossings /\ last < a) ->
  (forall c, In c crossings -> In c cs) /\
  forall i, a <= i < a + Z.of_nat n -> crossing_at samples i ->
    In i cs \/ exists c, In c cs /\ c < i < c + md.
Proof.
  induction n as [|n IH]; intros a crossings last cs B E L Inv.
  - rewrite range_nil in E by lia. cbn in E. injection E as <-.
    split; [auto|]. intros i Hi. lia.
  - rewrite range_cons in E, B by lia.
    replace (a + Z.of_nat (S n)) with (a + 1 + Z.of_nat n) in * by lia.
    inversion B as [|? ? [B0 B1] B']; subst.
    cbn [Simple.scan] in E. rewrite rising_rising_at in E by assumption.
    cbn [bind] in E.
    destruct (rising_at samples a && (md <=? a - last)) eqn:T.
    + destruct (Z.leb_spec count (len (crossings ++ [a]))) as [G|G].
      { injection E as <-. lia. }
      destruct (IH (a + 1) (crossings ++ [a]) a cs B' E L) as [Sub Cov].
      { right. split; [apply in_or_app; right; left; reflexivity|lia]. }
      split.
      * intros c Hc. apply Sub. apply in_or_app. left. exact Hc.
      * intros i Hi Hcr. destruct (Z.eq_dec i a) as [->|Hne].
        -- left. apply Sub. apply in_or_app. right. left. reflexivity.
        -- apply Cov; [lia|exact Hcr].
    + destruct (Z.leb_spec count (len crossings)) as [G|G].
      { injection E as <-. lia. }
      destruct (IH (a + 1) crossings last cs B' E L) as [Sub Cov].
      { destruct Inv as [(E0 & E1 & E2)|[I1 I2]].
        - left. repeat split; try assumption. lia.
        - right. split; [assumption|lia]. }
      split; [exact Sub|].
      intros i Hi Hcr. destruct (Z.eq_dec i a) as [->|Hne].
      * right. apply rising_at_crossing in Hcr. rewrite Hcr in T.
        cbn [andb] in T. apply Z.leb_gt in T.
        destruct Inv as [(E0 & E1 & E2)|[I1 I2]]; [lia|].
        exists last. split; [apply Sub; exact I1|lia].
      * apply Cov; [lia|exact Hcr].
Qed.

Lemma rising_total samples i :
  - len samples <= i -> i + 1 < len samples ->
  exists b, rising samples i = Ok b.
Proof.
  intros H0 H1.
  assert (forall j, - len samples <= j < len samples ->
                    exists x, getitem samples j = Ok x) as G.
  { intros j Hj. unfold getitem.
    destruct (j <? 0) eqn:N; [apply Z.ltb_lt in N|apply Z.ltb_ge in N].
    - destruct (Z.ltb_spec (j + len samples) 0); [lia|].
      destruct (nth_error samples (Z.to_nat (j + len samples))) eqn:E;
        [eexists; reflexivity|].
      apply nth_error_None in E. unfold len in *. lia.
    - destruct (Z.ltb_spec j 0); [lia|].
      destruct (nth_error samples (Z.to_nat j)) eqn:E;
        [eexists; reflexivity|].
      apply nth_error_None in E. unfold len in *. lia. }
  unfold rising.
  destruct (G i ltac:(lia)) as (x & ->). cbn [bind].
  destruct (Qle_bool x 0); [|eexists; reflexivity].
  destruct (G (i + 1) ltac:(lia)) as (y & ->). cbn [bind].
  eexists; reflexivity.
Qed.

Lemma simple_scan_total samples count md : forall indices crossings last,
  Forall (fun i => exists b, rising samples i = Ok b) indices ->
  exists cs, Simple.scan samples count md indices crossings last = Ok cs.
Proof.
  induction indices as [|i rest IH]; intros crossings last B.
  - eexists; reflexivity.
  - inversion B as [|? ? (b & Eb) B']; subst.
    cbn [Simple.scan]. rewrite Eb. cbn [bind].
    destruct (b && (md <=? i - last)).
    + destruct (count <=? len (crossings ++ [i])); [eexists; reflexivity|].
      apply IH. exact B'.
    + destruct (count <=? len crossings); [eexists; reflexivity|].
      apply IH. exact B'.
Qed.

Lemma numpy_scan_total samples : forall indices crossings,
  Forall (fun i => exists b, rising samples i = Ok b) indices ->
  exists cs, Numpy.scan samples indices crossings = Ok cs.
Proof.
  induction indices as [|i rest IH]; intros crossings B.
  - eexists; reflexivity.
  - inversion B as [|? ? (b & Eb) B']; subst.
    cbn [Numpy.scan]. rewrite Eb. cbn [bind].
    destruct b.
    + destruct (10 <=? len (crossings ++ [i])); [eexists; reflexivity|].
      apply IH. exact B'.
    + destruct (10 <=? len crossings); [eexists; reflexivity|].
      apply IH. exact B'.
Qed.

Lemma rising_below samples i :
  i < - len samples -> rising samples i = Raise IndexError.
Proof.
  intros H. unfold rising, getitem. pose proof (len_nonneg samples).
  destruct (Z.ltb_spec i 0); [|lia].
  destruct (Z.ltb_spec (i + len samples) 0); [|lia]. reflexivity.
Qed.

Lemma crossing_search_wraps samples start_idx count md :
  - len samples <= start_idx ->
  (exists cs, Simple.find_zero_crossings samples start_idx count md = Ok cs)
  /\ (exists cs, Numpy.find_zero_crossings samples start_idx = Ok cs).
Proof.
  intros H.
  assert (Forall (fun i => exists b, rising samples i = Ok b)
                 (range start_idx (len samples - 1))) as B.
  { apply Forall_forall. intros i Hi. apply in_range in Hi.
    apply rising_total; lia. }
  split.
  - apply simple_scan_total. exact B.
  - apply numpy_scan_total. exact B.
Qed.

(** ** Decoding: sixteen-bit samples and their normalisation *)

Lemma int16_le_range b0 b1 : -32768 <= int16_le b0 b1 < 32768.
Proof.
  unfold int16_le.
  pose proof (Byte.to_N_bounded b0). pose proof (Byte.to_N_bounded b1).
  destruct (Z.ltb_spec (Z.of_N (to_N b0) + 256 * Z.of_N (to_N b1)) 32768);
    lia.
Qed.

Lemma normalise_exact s x :
  -32768 <= s < 32768 -> (x == of_int s / 32768)%Q ->
  (binary64 x == s # 32768)%Q.
Proof.
  intros Hs Hx.
  assert (of_int s == inject_Z s)%Q as E.
  { apply binary64_int; [reflexivity|].
    change (2 ^ 53) with 9007199254740992. lia. }
  assert (x == s # 32768)%Q as E'.
  { rewrite Hx, E. unfold Qeq, Qdiv, Qmult, Qinv, inject_Z.
    cbn [Qnum Qden]. lia. }
  rewrite <- E'. apply (binary64_dyadic x s 15).
  - lia.
  - change (2 ^ 53) with 9007199254740992. lia.
  - exact E'.
Qed.

Lemma len_unpack_h : forall n raw,
  (List.length raw <= n)%nat -> len (unpack_h raw) = len raw / 2.
Proof.
  induction n as [|n IH]; intros raw L.
  - destruct raw; [reflexivity|cbn in L; lia].
  - destruct raw as [|b0 [|b1 raw']]; [reflexivity|reflexivity|].
    cbn [unpack_h]. unfold len in *. cbn [List.length] in *.
    specialize (IH raw' ltac:(lia)).
    replace (Z.of_nat (S (S (List.length raw'))))
      with (Z.of_nat (List.length raw') + 1 * 2) by lia.
    rewrite Z.div_add by lia. lia.
Qed.

Lemma nth_error_unpack_h : forall n raw k,
  (List.length raw <= n)%nat ->
  (k < List.length (unpack_h raw))%nat ->
  exists b0 b1,
    nth_error raw (2 * k) = Some b0 /\ nth_error raw (2 * k + 1) = Some b1 /\
    nth_error (unpack_h raw) k = Some (int16_le b0 b1).
Proof.
  induction n as [|n IH]; intros raw k L K.
  - destruct raw; [cbn in K; lia|cbn in L; lia].
  - destruct raw as [|b0 [|b1 raw']]; [cbn in K; lia|cbn in K; lia|].
    cbn [unpack_h] in *. destruct k as [|k].
    + exists b0, b1. repeat split.
    + cbn [List.length] in *.
      destruct (IH raw' k ltac:(lia) ltac:(lia)) as (c0 & c1 & A & B & C).
      exists c0, c1.
      replace (2 * S k)%nat with (S (S (2 * k))) by lia.
      replace (S (S (2 * k)) + 1)%nat with (S (S (2 * k + 1))) by lia.
      cbn [nth_error]. repeat split; assumption.
Qed.

Lemma len_every_other {A} : forall n (l : list A),
  (List.length l <= n)%nat -> len (every_other l) = (len l + 1) / 2.
Proof.
  induction n as [|n IH]; intros l L.
  - destruct l; [reflexivity|cbn in L; lia].
  - destruct l as [|x [|y l']]; [reflexivity|reflexivity|].
    cbn [every_other]. unfold len in *. cbn [List.length] in *.
    specialize (IH l' ltac:(lia)).
    replace (Z.of_nat (S (S (List.length l'))) + 1)
      with (Z.of_nat (List.length l') + 1 + 1 * 2) by lia.
    rewrite Z.div_add by lia. lia.
Qed.

Lemma nth_error_every_other {A} : forall n (l : list A) k,
  (List.length l <= n)%nat ->
  nth_error (every_other l) k = nth_error l (2 * k).
Proof.
  induction n as [|n IH]; intros l k L.
  - destruct l; [destruct k; reflexivity|cbn in L; lia].
  - destruct l as [|x [|y l']].
    + destruct k; reflexivity.
    + destruct k as [|[|k]]; reflexivity.
    + cbn [every_other]. destruct k as [|k]; [reflexivity|].
      replace (2 * S k)%nat with (S (S (2 * k))) by lia.
      cbn [nth_error List.length] in *. apply IH. lia.
Qed.

(** What both decoders compute once the width test has passed and the
    bytes have been unpacked. *)
Lemma simple_decode_ok wav samples :
  Simple.decode wav = Ok samples ->
  getsampwidth wav = 2 /\
  len (readframes wav) = 2 * (getnframes wav * getnchannels wav) /\
  samples = map (fun s => binary64 (of_int s / 32768)%Q)
                (if getnchannels wav =? 2
                 then every_other (unpack_h (readframes wav))
                 else unpack_h (readframes wav)).
Proof.
  unfold Simple.decode. intros E.
  destruct (Z.eqb_spec (getsampwidth wav) 2) as [W|W]; [|discriminate].
  unfold Simple.struct_unpack_h in E.
  destruct (Z.eqb_spec (len (readframes wav))
              (2 * (getnframes wav * getnchannels wav))) as [L|L];
    [|discriminate].
  cbn [bind] in E. injection E as <-. repeat split; assumption.
Qed.

Lemma numpy_decode_ok wav samples :
  Numpy.decode wav = Ok samples ->
  getsampwidth wav = 2 /\
  Z.even (len (readframes wav)) = true /\
  samples = map (fun s => binary64 (of_int s / 32768)%Q)
                (if getnchannels wav =? 2
                 then every_other (unpack_h (readframes wav))
                 else unpack_h (readframes wav)).
Proof.
  unfold Numpy.decode. intros E.
  destruct (Z.eqb_spec (getsampwidth wav) 2) as [W|W]; [|discriminate].
  unfold Numpy.frombuffer_int16 in E.
  destruct (Z.even (len (readframes wav))) eqn:L; [|discriminate].
  cbn [bind] in E. injection E as <-. repeat split; assumption.
Qed.

Lemma decoded_sample raw (stereo : bool) i :
  let ints := if stereo then every_other (unpack_h raw) else unpack_h raw in
  let samples := map (fun s => binary64 (of_int s / 32768)%Q) ints in
  let stride := if stereo then 4 else 2 in
  0 <= i < len samples ->
  exists b0 b1 v,
    nth_error raw (Z.to_nat (stride * i)) = Some b0 /\
    nth_error raw (Z.to_nat (stride * i + 1)) = Some b1 /\
    nth_error samples (Z.to_nat i) = Some v /\
    (v == int16_le b0 b1 # 32768)%Q.
Proof.
  intros ints samples stride Hi.
  assert (exists s, nth_error ints (Z.to_nat i) = Some s) as (s & Es).
  { destruct (nth_error ints (Z.to_nat i)) eqn:E; [eexists; reflexivity|].
    apply nth_error_None in E. unfold samples, len in Hi.
    rewrite length_map in Hi. lia. }
  assert (exists b0 b1,
             nth_error raw (Z.to_nat (stride * i)) = Some b0 /\
             nth_error raw (Z.to_nat (stride * i + 1)) = Some b1 /\
             s = int16_le b0 b1) as (b0 & b1 & A & B & C).
  { unfold ints, stride in *. destruct stereo.
    - rewrite (nth_error_every_other (List.length (unpack_h raw))) in Es
        by lia.
      assert (2 * Z.to_nat i < List.length (unpack_h raw))%nat as K
        by (apply nth_error_Some; congruence).
      destruct (nth_error_unpack_h (List.length raw) raw _ ltac:(lia) K)
        as (b0 & b1 & A & B & C).
      exists b0, b1.
      replace (Z.to_nat (4 * i)) with (2 * (2 * Z.to_nat i))%nat by lia.
      replace (Z.to_nat (4 * i + 1)) with (2 * (2 * Z.to_nat i) + 1)%nat
        by lia.
      repeat split; try assumption. congruence.
    - assert (Z.to_nat i < List.length (unpack_h raw))%nat as K
        by (apply nth_error_Some; congruence).
      destruct (nth_error_unpack_h (List.length raw) raw _ ltac:(lia) K)
        as (b0 & b1 & A & B & C).
      exists b0, b1.
      replace (Z.to_nat (2 * i)) with (2 * Z.to_nat i)%nat by lia.
      replace (Z.to_nat (2 * i + 1)) with (2 * Z.to_nat i + 1)%nat by lia.
      repeat split; try assumption. congruence. }
  exists b0, b1, (binary64 (of_int s / 32768)%Q).
  split; [exact A|]. split; [exact B|]. split.
  - unfold samples. rewrite nth_error_map, Es. reflexivity.
  - subst s. apply normalise_exact; [apply int16_le_range|reflexivity].
Qed.

(** ** The loop cycle, from the crossings found *)

Lemma simple_loop_after_search samples start_ms sample_rate base_freq cs :
  ~ (base_freq == 0)%Q ->
  Simple.find_zero_crossings samples (start_sample start_ms sample_rate) 10
    (Simple.min_dist_of (cycle_len sample_rate base_freq)) = Ok cs ->
  exists out,
    Simple.find_best_loop_cycle samples start_ms sample_rate base_freq = Ok out
    /\ ((len cs < 2 /\
         out = slice samples (start_sample start_ms sample_rate)
                 (start_sample start_ms sample_rate
                  + cycle_len sample_rate base_freq))
        \/ (2 <= len cs /\
            selected samples cs (cycle_len sample_rate base_freq) out)).
Proof.
  intros Hbf E. unfold Simple.find_best_loop_cycle.
  rewrite start_sample_of_eq, (expected_cycle_len_of_eq _ _ Hbf).
  cbn [bind]. rewrite E. cbn [bind].
  destruct (Z.ltb_spec (len cs) 2) as [L|L].
  - eexists. split; [reflexivity|]. left. split; [exact L|reflexivity].
  - destruct (selection_tail samples cs (cycle_len sample_rate base_freq) L)
      as (out & Eo & Sel).
    exists out. split; [exact Eo|]. right. split; assumption.
Qed.

Lemma numpy_loop_after_search samples start_ms sample_rate base_freq cs :
  ~ (base_freq == 0)%Q ->
  Numpy.find_zero_crossings samples (start_sample start_ms sample_rate)
  = Ok cs ->
  exists out,
    Numpy.find_best_loop_cycle samples start_ms sample_rate base_freq = Ok out
    /\ ((len cs < 2 /\
         out = slice samples (start_sample start_ms sample_rate)
                 (start_sample start_ms sample_rate
                  + cycle_len sample_rate base_freq))
        \/ (2 <= len cs /\
            selected samples cs (cycle_len sample_rate base_freq) out)).
Proof.
  intros Hbf E. unfold Numpy.find_best_loop_cycle.
  rewrite start_sample_of_eq, (expected_cycle_len_of_eq _ _ Hbf).
  cbn [bind]. rewrite E. cbn [bind].
  destruct (Z.ltb_spec (len cs) 2) as [L|L].
  - eexists. split; [reflexivity|]. left. split; [exact L|reflexivity].
  - destruct (selection_tail samples cs (cycle_len sample_rate base_freq) L)
      as (out & Eo & Sel).
    exists out. split; [exact Eo|]. right. split; assumption.
Qed.

(** The selected slice runs from one crossing to the next one of the
    list. *)
Lemma selected_between samples cs target start hi out :
  0 <= start -> hi <= len samples ->
  ascending start cs hi ->
  selected samples cs target out ->
  exists k c0 c1,
    nth_error cs k = Some c0 /\ nth_error cs (S k) = Some c1 /\
    start <= c0 /\ c0 < c1 /\ c1 < hi /\
    out = slice samples c0 c1 /\ len out = c1 - c0.
Proof.
  intros H0 Hhi A (k & F & ->).
  pose proof F as ((Hk1 & Hk2) & _).
  pose proof (nth_error_at cs k ltac:(lia)) as Ea.
  pose proof (nth_error_at cs (k + 1) ltac:(lia)) as Eb.
  replace (Z.to_nat (k + 1)) with (S (Z.to_nat k)) in Eb by lia.
  destruct (ascending_nth _ _ _ _ _ _ A Ea Eb) as (? & ? & ?).
  exists (Z.to_nat k), (at_ cs k), (at_ cs (k + 1)).
  repeat split; try assumption. apply len_slice; lia.
Qed.

Lemma zero_base_freq_raises sample_rate base_freq :
  (base_freq == 0)%Q ->
  expected_cycle_len_of sample_rate base_freq = Raise ZeroDivisionError.
Proof.
  intros H. unfold expected_cycle_len_of, fdiv.
  apply Qeq_bool_iff in H. rewrite H. reflexivity.
Qed.

(** ** Extraction: what a run that succeeds has established *)

Lemma max_abs_ok l m : Simple.max_abs l = Ok m -> l <> [].
Proof. destruct l; [discriminate|]. intros _. discriminate. Qed.

Lemma np_max_abs_ok l m : Numpy.np_max_abs l = Ok m -> l <> [].
Proof. destruct l; [discriminate|]. intros _. discriminate. Qed.

Lemma truediv_ok a b x : truediv a b = Ok x -> b <> 0.
Proof.
  unfold truediv. destruct (Z.eqb_spec b 0); [discriminate|]. intros _.
  assumption.
Qed.

Lemma truediv_nonzero a b :
  b <> 0 -> truediv a b = Ok (binary64 (inject_Z a / inject_Z b)).
Proof.
  intros H. unfold truediv. destruct (Z.eqb_spec b 0); [contradiction|].
  reflexivity.
Qed.

Lemma len_zero_nil {A} (l : list A) : len l = 0 -> l = [].
Proof. destruct l; [reflexivity|]. unfold len. cbn. lia. Qed.

Lemma attack_slice_eq samples attack_ms rate :
  attack_slice samples attack_ms rate
  = Ok (slice samples 0 (start_sample attack_ms rate)).
Proof.
  unfold attack_slice, attack_samples_count, truediv, start_sample.
  cbn [Z.eqb bind]. reflexivity.
Qed.

Lemma simple_decode_numpy wav samples :
  Simple.decode wav = Ok samples -> Numpy.decode wav = Ok samples.
Proof.
  intros E.
  destruct (simple_decode_ok wav samples E) as (W & L & ->).
  unfold Numpy.decode, Numpy.frombuffer_int16.
  rewrite W, L. cbn [Z.eqb Pos.eqb].
  rewrite Z.even_mul. cbn [Z.even orb bind]. reflexivity.
Qed.

(** A search that starts at or beyond the end of the buffer. *)
Lemma simple_loop_beyond_end samples start_ms sample_rate base_freq :
  ~ (base_freq == 0)%Q ->
  len samples <= start_sample start_ms sample_rate ->
  Simple.find_best_loop_cycle samples start_ms sample_rate base_freq = Ok [].
Proof.
  intros Hbf H.
  rewrite (find_best_loop_cycle_fallback _ _ _ _ [] Hbf).
  - rewrite slice_beyond_end by assumption. reflexivity.
  - unfold Simple.find_zero_crossings. rewrite range_nil by lia. reflexivity.
  - cbn. lia.
Qed.

Lemma numpy_loop_beyond_end samples start_ms sample_rate base_freq :
  ~ (base_freq == 0)%Q ->
  len samples <= start_sample start_ms sample_rate ->
  Numpy.find_best_loop_cycle samples start_ms sample_rate base_freq = Ok [].
Proof.
  intros Hbf H. unfold Numpy.find_best_loop_cycle.
  rewrite start_sample_of_eq, (expected_cycle_len_of_eq _ _ Hbf).
  cbn [bind]. unfold Numpy.find_zero_crossings.
  rewrite range_nil by lia. cbn [Numpy.scan bind len List.length Z.of_nat].
  cbn [Z.ltb Z.compare]. rewrite slice_beyond_end by assumption. reflexivity.
Qed.

(** ** The resampler at read positions that are whole numbers *)

Lemma binary64_representable x a :
  representable a -> (x == a)%Q -> (binary64 x == a)%Q.
Proof.
  intros (m & k & Hk & Hm & Ha) Hx.
  rewrite <- Hx. apply (binary64_dyadic x m k Hk Hm).
  rewrite Hx. exact Ha.
Qed.

Lemma int_inject_Z x j : (x == inject_Z j)%Q -> 0 <= j -> int x = j.
Proof.
  intros E H. apply int_unique; [rewrite E; apply Qle_refl| |exact H].
  rewrite E. rewrite <- Zlt_Qlt. lia.
Qed.

Lemma of_int_exact n :
  Z.abs n <= 2 ^ 53 -> (of_int n == inject_Z n)%Q.
Proof. intros H. apply binary64_int; [reflexivity|exact H]. Qed.

(** When [i * ratio] is the whole number [j], output [i] is [samples[j]]:
    the fraction is zero and the interpolation multiplies by one and
    zero. *)
Lemma interpolate_at_integer samples ratio i j a :
  (of_int i * ratio == inject_Z j)%Q ->
  0 <= j <= 2 ^ 53 ->
  nth_error samples (Z.to_nat j) = Some a ->
  representable a ->
  exists v, Simple.interpolate samples ratio i = Ok v /\ (v == a)%Q.
Proof.
  intros Hpos Hj Ha Ra.
  assert (j < len samples) as Hlen.
  { assert (Z.to_nat j < List.length samples)%nat
      by (apply nth_error_Some; congruence).
    unfold len. lia. }
  unfold Simple.interpolate.
  assert (fmul (of_int i) ratio == inject_Z j)%Q as P.
  { unfold fmul. apply binary64_int; [exact Hpos|lia]. }
  rewrite (int_inject_Z _ j P) by lia.
  rewrite (getitem_nth_error samples j) by lia. rewrite Ha.
  destruct (Z.ltb_spec (j + 1) (len samples)) as [L|L].
  - assert (exists b, nth_error samples (Z.to_nat (j + 1)) = Some b)
      as (b & Hb).
    { destruct (nth_error samples (Z.to_nat (j + 1))) eqn:E;
        [eexists; reflexivity|].
      apply nth_error_None in E. unfold len in L. lia. }
    rewrite (getitem_nth_error samples (j + 1)) by lia. rewrite Hb.
    cbn [bind]. eexists. split; [reflexivity|].
    assert (fsub (fmul (of_int i) ratio) (of_int j) == 0)%Q as F.
    { unfold fsub. apply (binary64_int _ 0); [|cbn; lia].
      rewrite P, (of_int_exact j) by lia.
      change (inject_Z 0) with 0%Q. ring. }
    remember (fsub (fmul (of_int i) ratio) (of_int j)) as frac eqn:Hf.
    clear Hf.
    assert (fsub 1 frac == 1)%Q as One.
    { unfold fsub. apply (binary64_int _ 1); [|cbn; lia].
      rewrite F. reflexivity. }
    assert (fmul b frac == 0)%Q as Zero.
    { unfold fmul. apply (binary64_int _ 0); [|cbn; lia].
      rewrite F. change (inject_Z 0) with 0%Q. ring. }
    assert (fmul a (fsub 1 frac) == a)%Q as A.
    { unfold fmul. apply binary64_representable; [exact Ra|].
      rewrite One. ring. }
    unfold fadd. apply binary64_representable; [exact Ra|].
    rewrite A, Zero. ring.
  - cbn [bind]. exists a. split; [reflexivity|apply Qeq_refl].
Qed.

Lemma integer_ratio k t :
  0 < t -> Z.abs k <= 2 ^ 53 -> (ratio_of (k * t) t == inject_Z k)%Q.
Proof.
  intros Ht Hk. unfold ratio_of. apply binary64_int; [|exact Hk].
  rewrite inject_Z_mult. pose proof (inject_Z_pos t Ht).
  field. intros C. rewrite C in H. exact (Qlt_irrefl 0 H).
Qed.

Lemma integer_position ratio k i :
  (ratio == inject_Z k)%Q -> Z.abs i <= 2 ^ 53 -> Z.abs (i * k) <= 2 ^ 53 ->
  (of_int i * ratio == inject_Z (i * k))%Q.
Proof.
  intros Hr Hi Hik. rewrite (of_int_exact i Hi), Hr, inject_Z_mult.
  reflexivity.
Qed.

Lemma decimation samples k t :
  0 < t -> 2 <= k -> len samples < 2 ^ 53 -> k <= 2 ^ 53 ->
  Forall representable samples ->
  exists out,
    Simple.downsample_to_48k samples (k * t) t = Ok out /\
    len out = len samples / k /\
    forall i, 0 <= i < len samples / k ->
      exists v a,
        nth_error out (Z.to_nat i) = Some v /\
        nth_error samples (Z.to_nat (i * k)) = Some a /\
        (v == a)%Q.
Proof.
  intros Ht Hk HL Hk' Rep.
  pose proof (len_nonneg samples) as L0.
  change (2 ^ 53) with 9007199254740992 in *.
  assert (ratio_of (k * t) t == inject_Z k)%Q as Er.
  { apply integer_ratio; [exact Ht|].
    change (2 ^ 53) with 9007199254740992. lia. }
  pose proof (inject_Z_pos k ltac:(lia)) as Kpos.
  unfold Simple.downsample_to_48k.
  destruct (Z.eqb_spec (k * t) t) as [C|_]; [nia|].
  rewrite truediv_nonzero by lia. cbn [bind].
  fold (ratio_of (k * t) t). set (ratio := ratio_of (k * t) t) in *.
  unfold fdiv.
  destruct (Qeq_bool ratio 0) eqn:Z0.
  { apply Qeq_bool_iff in Z0. rewrite Z0 in Er. rewrite <- Er in Kpos.
    exfalso. exact (Qlt_irrefl 0 Kpos). }
  cbn [bind].
  assert (int (binary64 (of_int (len samples) / ratio)) = len samples / k)
    as ->.
  { apply int_binary64_quotient; [|change (2 ^ 53) with 9007199254740992; lia
                                  |lia].
    rewrite (of_int_exact (len samples))
      by (change (2 ^ 53) with 9007199254740992; lia).
    rewrite Er. field. intros C. rewrite C in Kpos.
    exact (Qlt_irrefl 0 Kpos). }
  set (n := len samples / k).
  assert (0 <= n) as Hn by (apply Z.div_pos; lia).
  assert (forall i, 0 <= i < n -> 0 <= i * k < len samples) as Range.
  { intros i Hi.
    pose proof (Z.mul_div_le (len samples) k ltac:(lia)). fold n in H. nia. }
  assert (forall i, 0 <= i < n ->
                    (of_int i * ratio == inject_Z (i * k))%Q) as Pos.
  { intros i Hi. specialize (Range i Hi). apply integer_position.
    - exact Er.
    - change (2 ^ 53) with 9007199254740992. nia.
    - change (2 ^ 53) with 9007199254740992. lia. }
  destruct (interpolate_all_ok samples ratio (range 0 n) []) as (vs & E & F).
  { apply Forall_forall. intros i Hi. apply in_range in Hi.
    unfold read_index, fmul.
    rewrite (int_inject_Z _ (i * k)).
    - apply Range. lia.
    - apply binary64_int; [apply Pos; lia|].
      specialize (Range i ltac:(lia)).
      change (2 ^ 53) with 9007199254740992. lia.
    - specialize (Range i ltac:(lia)). lia. }
  cbn [app] in E. exists vs. split; [exact E|].
  pose proof (Forall2_len _ _ _ F) as Len. rewrite len_range in Len by lia.
  split; [lia|].
  intros i Hi.
  pose proof (nth_error_range 0 n i ltac:(lia)) as Ei.
  destruct (Forall2_nth_error _ _ _ _ _ F Ei) as (v & Ev & Iv).
  replace (0 + i) with i in Iv by lia.
  specialize (Range i Hi).
  destruct (nth_error samples (Z.to_nat (i * k))) as [a|] eqn:Ea.
  2:{ apply nth_error_None in Ea. unfold len in Range. lia. }
  assert (representable a) as Ra.
  { rewrite Forall_forall in Rep. apply Rep. eapply nth_error_In. exact Ea. }
  destruct (interpolate_at_integer samples ratio i (i * k) a (Pos i Hi)
              ltac:(change (2 ^ 53) with 9007199254740992; lia) Ea Ra)
    as (v' & Iv' & Eq).
  rewrite Iv in Iv'. injection Iv' as <-.
  exists v, a. repeat split; assumption.
Qed.

Lemma decoded_representable ints :
  Forall (fun s => -32768 <= s < 32768) ints ->
  Forall representable (map (fun s => binary64 (of_int s / 32768)%Q) ints).
Proof.
  intros H. apply Forall_map. eapply Forall_impl; [|exact H].
  intros s Hs. cbv beta in Hs. exists s, 15. split; [lia|]. split.
  - change (2 ^ 53) with 9007199254740992. lia.
  - apply normalise_exact; [exact Hs|reflexivity].
Qed.

Lemma unpack_h_range : forall n raw,
  (List.length raw <= n)%nat ->
  Forall (fun s => -32768 <= s < 32768) (unpack_h raw).
Proof.
  induction n as [|n IH]; intros raw L.
  - destruct raw; [constructor|cbn in L; lia].
  - destruct raw as [|b0 [|b1 raw']]; [constructor|constructor|].
    cbn [unpack_h]. constructor; [apply int16_le_range|].
    apply IH. cbn in L. lia.
Qed.

Lemma every_other_Forall {A} (P : A -> Prop) : forall n (l : list A),
  (List.length l <= n)%nat -> Forall P l -> Forall P (every_other l).
Proof.
  induction n as [|n IH]; intros l L H.
  - destruct l; [constructor|cbn in L; lia].
  - destruct l as [|x [|y l']]; [constructor|assumption|].
    inversion H as [|? ? Hx H']; subst. inversion H' as [|? ? Hy H'']; subst.
    cbn [every_other]. constructor; [exact Hx|].
    apply IH; [cbn in L; lia|exact H''].
Qed.

Lemma decode_representable wav samples :
  Simple.decode wav = Ok samples \/ Numpy.decode wav = Ok samples ->
  Forall representable samples.
Proof.
  intros E.
  assert (samples = map (fun s => binary64 (of_int s / 32768)%Q)
                        (if getnchannels wav =? 2
                         then every_other (unpack_h (readframes wav))
                         else unpack_h (readframes wav))) as ->.
  { destruct E as [E|E].
    - apply simple_decode_ok in E. apply E.
    - apply numpy_decode_ok in E. apply E. }
  apply decoded_representable.
  pose proof (unpack_h_range _ (readframes wav) (Nat.le_refl _)) as U.
  destruct (getnchannels wav =? 2); [|exact U].
  apply (every_other_Forall _ _ _ (Nat.le_refl _) U).
Qed.

Lemma interpolate_all_result samples ratio : forall indices acc out,
  Simple.interpolate_all samples ratio indices acc = Ok out ->
  exists vs,
    out = acc ++ vs /\
    Forall2 (fun i v => Simple.interpolate samples ratio i = Ok v) indices vs.
Proof.
  induction indices as [|i rest IH]; intros acc out E.
  - cbn in E. injection E as <-. exists []. split; [|constructor].
    symmetry. apply app_nil_r.
  - cbn [Simple.interpolate_all] in E.
    destruct (Simple.interpolate samples ratio i) as [v|] eqn:Ev;
      [|discriminate].
    cbn [bind] in E. destruct (IH _ _ E) as (vs & -> & F).
    exists (v :: vs). split.
    + rewrite <- app_assoc. reflexivity.
    + constructor; assumption.
Qed.

Lemma Forall_slice {A} (P : A -> Prop) (l : list A) lo hi :
  Forall P l -> Forall P (slice l lo hi).
Proof.
  intros H. unfold slice.
  set (a := Z.to_nat (clamp_bound (len l) lo)).
  set (n := Z.to_nat (clamp_bound (len l) hi - clamp_bound (len l) lo)).
  rewrite <- (firstn_skipn a l) in H. apply Forall_app in H.
  destruct H as [_ H].
  rewrite <- (firstn_skipn n (skipn a l)) in H. apply Forall_app in H.
  apply H.
Qed.

Lemma len_slice_le {A} (l : list A) lo hi : len (slice l lo hi) <= len l.
Proof.
  unfold slice, len. rewrite length_firstn, length_skipn. lia.
Qed.

(** Whatever [find_best_loop_cycle] returns is cut out of the buffer. *)
Lemma loop_cycle_is_slice samples start_ms sample_rate base_freq out :
  Simple.find_best_loop_cycle samples start_ms sample_rate base_freq = Ok out ->
  exists lo hi, out = slice samples lo hi.
Proof.
  unfold Simple.find_best_loop_cycle. intros E.
  destruct (start_sample_of start_ms sample_rate); [|discriminate].
  cbn [bind] in E.
  destruct (expected_cycle_len_of sample_rate base_freq); [|discriminate].
  cbn [bind] in E.
  destruct (Simple.find_zero_crossings _ _ _ _) as [cs|]; [|discriminate].
  cbn [bind] in E.
  destruct (len cs <? 2).
  - injection E as <-. eexists _, _. reflexivity.
  - destruct (best_pair _ _ _ _ _); [|discriminate]. cbn [bind] in E.
    destruct (getitem cs _); [|discriminate]. cbn [bind] in E.
    destruct (getitem cs _); [|discriminate]. cbn [bind] in E.
    injection E as <-. eexists _, _. reflexivity.
Qed.

(** ** The rows of the generated array *)

Lemma slice_firstn_skipn {A} (l : list A) lo hi :
  0 <= lo <= hi ->
  slice l lo hi = firstn (Z.to_nat (hi - lo)) (skipn (Z.to_nat lo) l).
Proof.
  intros H. unfold slice, clamp_bound.
  destruct (Z.ltb_spec lo 0); [lia|]. destruct (Z.ltb_spec hi 0); [lia|].
  pose proof (len_nonneg l) as L0. unfold len in *.
  destruct (Z.le_gt_cases (Z.of_nat (List.length l)) lo) as [C|C].
  - rewrite Z.min_r by lia.
    rewrite !skipn_all2 by lia. rewrite !firstn_nil. reflexivity.
  - rewrite (Z.min_l lo) by lia.
    destruct (Z.le_gt_cases hi (Z.of_nat (List.length l))) as [D|D].
    + rewrite Z.min_l by lia. reflexivity.
    + rewrite Z.min_r by lia.
      rewrite !firstn_all2; [reflexivity| |]; rewrite length_skipn; lia.
Qed.

Lemma firstn_plus {A} : forall a b (l : list A),
  firstn (a + b) l = firstn a l ++ firstn b (skipn a l).
Proof.
  induction a as [|a IH]; intros b l.
  - reflexivity.
  - destruct l as [|x l'].
    + cbn. rewrite !firstn_nil. reflexivity.
    + cbn [Nat.add firstn skipn app]. f_equal. apply IH.
Qed.

Lemma range_step_8 n :
  0 <= n ->
  range_step 0 n 8
  = map (fun k => 8 * Z.of_nat k) (seq 0 (Z.to_nat ((n + 7) / 8))).
Proof.
  intros H. unfold range_step.
  replace (n - 0 + 8 - 1) with (n + 7) by lia. reflexivity.
Qed.

Lemma chunks_eq samples :
  chunks samples
  = map (fun k => firstn 8 (skipn (8 * k) samples))
        (seq 0 (Z.to_nat ((len samples + 7) / 8))).
Proof.
  unfold chunks. rewrite range_step_8 by apply len_nonneg.
  rewrite map_map. apply map_ext. intros k.
  rewrite slice_firstn_skipn by lia.
  replace (Z.to_nat (8 * Z.of_nat k + 8 - 8 * Z.of_nat k)) with 8%nat by lia.
  replace (Z.to_nat (8 * Z.of_nat k)) with (8 * k)%nat by lia.
  reflexivity.
Qed.

Lemma concat_chunks_firstn {A} (l : list A) : forall n,
  List.concat (map (fun k => firstn 8 (skipn (8 * k) l)) (seq 0 n))
  = firstn (8 * n) l.
Proof.
  induction n as [|n IH].
  - reflexivity.
  - rewrite seq_S, map_app, concat_app, IH. cbn [map List.concat Nat.add].
    rewrite app_nil_r.
    replace (8 * S n)%nat with (8 * n + 8)%nat by lia.
    symmetry. apply firstn_plus.
Qed.

Lemma rows_count (samples : list Q) :
  0 <= (len samples + 7) / 8 /\
  len samples <= 8 * ((len samples + 7) / 8) < len samples + 8.
Proof.
  pose proof (len_nonneg samples).
  pose proof (Z.div_mod (len samples + 7) 8 ltac:(lia)).
  pose proof (Z.mod_pos_bound (len samples + 7) 8 ltac:(lia)).
  lia.
Qed.

(** ** One rising crossing per period *)

Lemma progression_snoc z P m :
  progression z P (S m) = progression z P m ++ [z + Z.of_nat m * P].
Proof.
  unfold progression. rewrite seq_S, map_app. reflexivity.
Qed.

Lemma len_progression z P m : len (progression z P m) = Z.of_nat m.
Proof.
  unfold len, progression. rewrite length_map, length_seq. reflexivity.
Qed.

Lemma at_progression z P m k :
  0 <= k < Z.of_nat m -> at_ (progression z P m) k = z + k * P.
Proof.
  intros H.
  pose proof (nth_error_at (progression z P m) k) as E.
  rewrite len_progression in E. specialize (E H).
  unfold progression in E at 1.
  rewrite nth_error_map, nth_error_seq in E.
  destruct (Nat.ltb_spec (Z.to_nat k) m); [|lia].
  cbn [option_map Nat.add] in E. injection E as E. rewrite <- E.
  f_equal. f_equal. lia.
Qed.

(** The spacing filter rejects nothing when the crossings are [P] apart
    and [md <= P]: the scan collects the progression until it stops. *)
Lemma scan_progression samples count md z P :
  0 <= z -> 0 < P -> md <= P ->
  forall n a m,
    Forall (in_bounds samples) (range a (a + Z.of_nat n)) ->
    (forall i, a <= i < a + Z.of_nat n ->
       (crossing_at samples i <-> exists j, 0 <= j /\ i = z + j * P)) ->
    a <= z + Z.of_nat m * P ->
    (m = O \/ z + (Z.of_nat m - 1) * P < a) ->
    Z.of_nat m < count ->
    exists m',
      (m <= m')%nat /\
      Simple.scan samples count md (range a (a + Z.of_nat n))
        (progression z P m)
        (match m with O => - md | S m0 => z + Z.of_nat m0 * P end)
      = Ok (progression z P m') /\
      (Z.of_nat m' = count \/ a + Z.of_nat n <= z + Z.of_nat m' * P).
Proof.
  intros Hz HP Hmd.
  induction n as [|n IH]; intros a m B Cr Next Prev Hm.
  - rewrite range_nil by lia. exists m. split; [lia|].
    split; [reflexivity|]. right. lia.
  - rewrite range_cons in B |- * by lia.
    replace (a + Z.of_nat (S n)) with (a + 1 + Z.of_nat n) in * by lia.
    inversion B as [|? ? [B0 B1] B']; subst.
    cbn [Simple.scan]. rewrite rising_rising_at by assumption.
    cbn [bind].
    destruct (rising_at samples a) eqn:Ra.
    + (* [a] is the next crossing of the progression *)
      assert (a = z + Z.of_nat m * P) as Ea.
      { apply rising_at_crossing in Ra.
        apply (Cr a ltac:(lia)) in Ra. destruct Ra as (j & Hj & Ej).
        assert (Z.of_nat m <= j) by (destruct Prev; [lia|nia]).
        nia. }
      assert (md <= a - match m with
                        | O => - md
                        | S m0 => z + Z.of_nat m0 * P
                        end) as Acc.
      { destruct m as [|m0]; [lia|]. nia. }
      apply Z.leb_le in Acc. rewrite Acc. cbn [andb].
      assert (progression z P m ++ [a] = progression z P (S m)) as ->
        by (rewrite progression_snoc, Ea; reflexivity).
      rewrite len_progression.
      destruct (Z.leb_spec count (Z.of_nat (S m))) as [G|G].
      * exists (S m). split; [lia|]. split; [reflexivity|]. left. lia.
      * destruct (IH (a + 1) (S m) B') as (m' & L & E & Fin).
        -- intros i Hi. apply Cr. lia.
        -- nia.
        -- right. nia.
        -- lia.
        -- exists m'. split; [lia|]. split; [|exact Fin].
           rewrite <- E. f_equal. exact Ea.
    + cbn [andb]. rewrite len_progression.
      destruct (Z.leb_spec count (Z.of_nat m)) as [G|G]; [lia|].
      assert (a <> z + Z.of_nat m * P) as Ne.
      { intros Ea.
        assert (crossing_at samples a) as C.
        { apply (Cr a ltac:(lia)). exists (Z.of_nat m). split; [lia|exact Ea]. }
        apply rising_at_crossing in C. congruence. }
      destruct (IH (a + 1) m B') as (m' & L & E & Fin).
      * intros i Hi. apply Cr. lia.
      * lia.
      * destruct Prev; [left; assumption|right; lia].
      * lia.
      * exists m'. split; [lia|]. split; [exact E|exact Fin].
Qed.

Lemma first_best_progression z P m target k :
  (2 <= m)%nat ->
  first_best (progression z P m) target (Z.of_nat m - 1) k -> k = 0.
Proof.
  intros Hm ((K0 & K1) & F).
  destruct (Z.eq_dec k 0) as [E|E]; [exact E|].
  destruct (F 0 ltac:(lia)) as [_ Lt]. specialize (Lt ltac:(lia)).
  unfold pair_diff in Lt.
  rewrite !at_progression in Lt by lia. exfalso.
  replace (z + (k + 1) * P - (z + k * P) - target) with (P - target) in Lt
    by lia.
  replace (z + (0 + 1) * P - (z + 0 * P) - target) with (P - target) in Lt
    by lia.
  lia.
Qed.

(** The crossing search on such a buffer, and the slice selected from
    its result. *)
Lemma periodic_search samples start md z P :
  0 <= start -> start <= z -> 0 < P -> md <= P ->
  z + P < len samples - 1 ->
  (forall i, start <= i < len samples - 1 ->
     (crossing_at samples i <-> exists j, 0 <= j /\ i = z + j * P)) ->
  exists m,
    (2 <= m)%nat /\
    Simple.find_zero_crossings samples start 10 md = Ok (progression z P m).
Proof.
  intros H0 Hz HP Hmd Hlen Cr.
  pose proof (range_in_bounds samples start H0) as B.
  unfold Simple.find_zero_crossings.
  replace (len samples - 1)
    with (start + Z.of_nat (Z.to_nat (len samples - 1 - start)))
    in B |- * by lia.
  destruct (scan_progression samples 10 md z P ltac:(lia) HP Hmd _ start O B)
    as (m & _ & E & Fin).
  - intros i Hi. apply Cr. lia.
  - lia.
  - left. reflexivity.
  - lia.
  - exists m. split; [|exact E].
    destruct Fin as [F|F]; [lia|].
    destruct m as [|[|m]]; lia.
Qed.

Lemma selected_progression samples z P m target out :
  (2 <= m)%nat -> 0 <= z -> 0 < P -> z + P <= len samples ->
  selected samples (progression z P m) target out ->
  out = slice samples z (z + P) /\ len out = P.
Proof.
  intros Hm Hz HP Hlen (k & F & ->).
  rewrite len_progression in F.
  pose proof (first_best_progression z P m target k Hm F) as ->.
  rewrite !at_progression by lia.
  replace (z + 0 * P) with z by lia.
  replace (z + (0 + 1) * P) with (z + P) by lia.
  split; [reflexivity|]. rewrite len_slice by lia. lia.
Qed.

(** ** Inside the float range

    Within [finite_arguments] and [finite_ratio] the floats that the
    divisions produce stay far from both ends of the binary64 range. *)

Lemma binary64_abs_le x : (Qabs (binary64 x) <= 2 * Qabs x)%Q.
Proof.
  pose proof (binary64_err x) as E.
  pose proof (Qabs_triangle (binary64 x - x) x) as T.
  assert (binary64 x - x + x == binary64 x)%Q as R by ring.
  rewrite R in T. pose proof (Qabs_nonneg x) as N. unfold u53 in E.
  remember (Qabs (binary64 x)) as b. remember (Qabs (binary64 x - x)) as d.
  remember (Qabs x) as a. lra.
Qed.

Lemma Qabs_inject_Z n : (Qabs (inject_Z n) == inject_Z (Z.abs n))%Q.
Proof. unfold Qabs, inject_Z. cbn. reflexivity. Qed.

Lemma finite_arguments_floats start_ms sample_rate base_freq :
  finite_arguments start_ms sample_rate base_freq ->
  (Qabs (binary64 (inject_Z (start_ms * sample_rate) / inject_Z 1000))
   < inject_Z (2 ^ 1000))%Q
  /\ (Qabs (of_int sample_rate) < inject_Z (2 ^ 1001))%Q
  /\ (Qabs (binary64 (of_int sample_rate / base_freq))
      < inject_Z (2 ^ 1002))%Q.
Proof.
  intros (H1 & H2 & H3).
  assert (Qabs (inject_Z sample_rate) < inject_Z (2 ^ 1000))%Q as R2.
  { rewrite Qabs_inject_Z, <- Zlt_Qlt. exact H2. }
  assert (Qabs (of_int sample_rate) < inject_Z (2 ^ 1001))%Q as F2.
  { pose proof (binary64_abs_le (inject_Z sample_rate)) as B.
    unfold of_int.
    replace (2 ^ 1001) with (2 * 2 ^ 1000) by reflexivity.
    rewrite inject_Z_mult. change (inject_Z 2) with 2%Q.
    remember (inject_Z (2 ^ 1000)) as M.
    remember (Qabs (binary64 (inject_Z sample_rate))) as b.
    remember (Qabs (inject_Z sample_rate)) as a. lra. }
  split; [|split; [exact F2|]].
  - pose proof (binary64_abs_le
                  (inject_Z (start_ms * sample_rate) / inject_Z 1000)) as B.
    assert (Qabs (inject_Z (start_ms * sample_rate) / inject_Z 1000)
            == Qabs (inject_Z (start_ms * sample_rate)) * (1 # 1000))%Q as E.
    { unfold Qdiv. rewrite Qabs_Qmult. reflexivity. }
    rewrite E in B.
    assert (Qabs (inject_Z (start_ms * sample_rate)) < inject_Z (2 ^ 1000))%Q
      as R1 by (rewrite Qabs_inject_Z, <- Zlt_Qlt; exact H1).
    pose proof (Qabs_nonneg (inject_Z (start_ms * sample_rate))) as N.
    remember (inject_Z (2 ^ 1000)) as M.
    remember (Qabs (binary64 (inject_Z (start_ms * sample_rate)
                              / inject_Z 1000))) as b.
    remember (Qabs (inject_Z (start_ms * sample_rate))) as a. lra.
  - pose proof (binary64_abs_le (of_int sample_rate / base_freq)) as B.
    assert (0 < Qabs base_freq)%Q as Pf.
    { pose proof (Qabs_nonneg (inject_Z sample_rate)) as N.
      pose proof (Qabs_nonneg base_freq) as N'.
      assert (0 < inject_Z (2 ^ 1000))%Q as PM by reflexivity.
      remember (inject_Z (2 ^ 1000)) as M.
      remember (Qabs (inject_Z sample_rate)) as a.
      remember (Qabs base_freq) as f. nra. }
    assert (Qabs (of_int sample_rate / base_freq) * Qabs base_freq
            == Qabs (of_int sample_rate))%Q as E.
    { unfold Qdiv. rewrite Qabs_Qmult, Qabs_Qinv. field.
      intros C. rewrite C in Pf. exact (Qlt_irrefl 0 Pf). }
    pose proof (binary64_abs_le (inject_Z sample_rate)) as B2.
    fold (of_int sample_rate) in B2.
    replace (2 ^ 1002) with (4 * 2 ^ 1000) by reflexivity.
    rewrite inject_Z_mult. change (inject_Z 4) with 4%Q.
    pose proof (Qabs_nonneg (of_int sample_rate / base_freq)) as Nq.
    assert (0 < inject_Z (2 ^ 1000))%Q as PM by reflexivity.
    remember (inject_Z (2 ^ 1000)) as M.
    remember (Qabs (binary64 (of_int sample_rate / base_freq))) as b.
    remember (Qabs (of_int sample_rate / base_freq)) as q.
    remember (Qabs (of_int sample_rate)) as r.
    remember (Qabs (inject_Z sample_rate)) as a.
    remember (Qabs base_freq) as f.
    assert (q * f < 2 * M * f)%Q as K by nra.
    assert (q < 2 * M)%Q as K' by nra.
    lra.
Qed.

Lemma finite_ratio_float original_rate target_rate :
  0 < original_rate -> 0 < target_rate ->
  finite_ratio original_rate target_rate ->
  (1 < inject_Z (2 ^ 901) * ratio_of original_rate target_rate)%Q
  /\ (ratio_of original_rate target_rate < inject_Z (2 ^ 901))%Q.
Proof.
  intros Ho Ht (H1 & H2).
  pose proof (inject_Z_pos _ Ho) as Po. pose proof (inject_Z_pos _ Ht) as Pt.
  assert (inject_Z original_rate < inject_Z (2 ^ 900) * inject_Z target_rate)%Q
    as Q1 by (rewrite <- inject_Z_mult, <- Zlt_Qlt; exact H1).
  assert (inject_Z target_rate < inject_Z (2 ^ 900) * inject_Z original_rate)%Q
    as Q2 by (rewrite <- inject_Z_mult, <- Zlt_Qlt; exact H2).
  set (x := (inject_Z original_rate / inject_Z target_rate)%Q).
  assert (x * inject_Z target_rate == inject_Z original_rate)%Q as Ex.
  { unfold x. field. intros C. rewrite C in Pt. exact (Qlt_irrefl 0 Pt). }
  assert (0 < x)%Q as Px by nra.
  pose proof (binary64_bounds x (Qlt_le_weak _ _ Px)) as [Lo Hi].
  unfold ratio_of. fold x. unfold u53 in *.
  replace (2 ^ 901) with (2 * 2 ^ 900) by reflexivity.
  rewrite inject_Z_mult. change (inject_Z 2) with 2%Q.
  assert (0 < inject_Z (2 ^ 900))%Q as PM by reflexivity.
  remember (inject_Z (2 ^ 900)) as M.
  remember (inject_Z original_rate) as o. remember (inject_Z target_rate) as t.
  remember (binary64 x) as b.
  assert (x < M)%Q as X1 by nra.
  assert (1 < M * x)%Q as X2 by nra.
  split; nra.
Qed.

(** ** Runs on small inputs *)

Example extract_square_wave :
  match Simple.extract_attack_and_loop square_wave 45 200 with
  | Ok (attack, loop_cycle, rate) =>
      len attack = 45 /\ rate = 1000 /\
      Qeq_bool (nth 0 loop_cycle 0%Q) (-1000 / 32768)%Q = true /\
      loop_cycle = slice (map (fun s => binary64 (of_int s / 32768)%Q)
                              (unpack_h (readframes square_wave))) 200 204
  | Raise _ => False
  end
  /\ Numpy.extract_attack_and_loop square_wave 45 200
     = Simple.extract_attack_and_loop square_wave 45 200.
Proof. vm_compute. repeat split. Qed.

Example downsample_and_emit :
  match Simple.downsample_to_48k [0; 1; 0; -1]%Q 72000 48000 with
  | Ok [a; b] => Qeq_bool a 0 && Qeq_bool b (1 # 2) = true
  | _ => False
  end
  /\ Simple.generate_c_array [1 # 10; -2 # 10; 3 # 10]%Q "k_loop_samples"
     = ("const float k_loop_samples[] = {" ++ nl
        ++ "    0.100000f, -0.200000f, 0.300000f," ++ nl
        ++ "};" ++ nl
        ++ "const uint32_t k_loop_samples_len = 3;")%string.
Proof. vm_compute. repeat split. Qed.

(** * Properties of the specification *)

(** C1. When the crossing search yields at least two crossings,
    [find_best_loop_cycle] (in both scripts) returns the slice between the
    adjacent crossing pair [k] that minimises
    [abs((crossing[k+1] - crossing[k]) - expected_cycle_len)], where [k] is
    the lowest such index: every earlier pair is strictly worse.  When the
    start offset is a position in the buffer ([start_ms] and [sample_rate]
    not negative), the length of the returned slice is as close to the
    expected cycle length as any adjacent pair's spacing.  Stated for
    arguments inside the float range ([finite_arguments]); where that range
    ends, Python raises [OverflowError] before the search starts. *)
Theorem find_best_loop_cycle_selects :
  forall samples start_ms sample_rate base_freq,
    ~ (base_freq == 0)%Q ->
    finite_arguments start_ms sample_rate base_freq ->
    let start := start_sample start_ms sample_rate in
    let target := cycle_len sample_rate base_freq in
    (forall crossings,
        Simple.find_zero_crossings samples start 10 (Simple.min_dist_of target)
        = Ok crossings ->
        2 <= len crossings ->
        exists out,
          Simple.find_best_loop_cycle samples start_ms sample_rate base_freq
          = Ok out
          /\ selected samples crossings target out
          /\ (0 <= start_ms -> 0 <= sample_rate ->
              closest_length crossings target out))
    /\
    (forall crossings,
        Numpy.find_zero_crossings samples start = Ok crossings ->
        2 <= len crossings ->
        exists out,
          Numpy.find_best_loop_cycle samples start_ms sample_rate base_freq
          = Ok out
          /\ selected samples crossings target out
          /\ (0 <= start_ms -> 0 <= sample_rate ->
              closest_length crossings target out)).
Proof.
  intros samples start_ms sample_rate base_freq Hbf Hfin start target.
  split; intros crossings E H2.
  - destruct (selection_tail samples crossings target H2) as (out & Eo & Sel).
    exists out. split; [|split; [exact Sel|]].
    + unfold Simple.find_best_loop_cycle.
      rewrite start_sample_of_eq, (expected_cycle_len_of_eq _ _ Hbf).
      cbn [bind]. fold start target. rewrite E. cbn [bind].
      destruct (Z.ltb_spec (len crossings) 2); [lia|]. exact Eo.
    + intros Hms Hrate.
      pose proof (start_sample_nonneg _ _ Hms Hrate) as H0. fold start in H0.
      apply selected_closest with (samples := samples) (start := start);
        try assumption.
      eapply find_zero_crossings_ascending. exact E.
  - destruct (selection_tail samples crossings target H2) as (out & Eo & Sel).
    exists out. split; [|split; [exact Sel|]].
    + unfold Numpy.find_best_loop_cycle.
      rewrite start_sample_of_eq, (expected_cycle_len_of_eq _ _ Hbf).
      cbn [bind]. fold start target. rewrite E. cbn [bind].
      destruct (Z.ltb_spec (len crossings) 2); [lia|]. exact Eo.
    + intros Hms Hrate.
      pose proof (start_sample_nonneg _ _ Hms Hrate) as H0. fold start in H0.
      apply selected_closest with (samples := samples) (start := start);
        try assumption.
      rewrite (numpy_find_zero_crossings_eq samples start 0) in E by lia.
      eapply find_zero_crossings_ascending. exact E.
Qed.

Lemma find_best_loop_cycle_selects_witness :
  ~ (default_base_freq == 0)%Q /\
  finite_arguments 0 1000 default_base_freq /\
  Simple.find_zero_crossings [-1; 1; 1; -1; 1; 1; 1; -1; 1; 0]%Q
    (start_sample 0 1000) 10
    (Simple.min_dist_of (cycle_len 1000 default_base_freq))
  = Ok [0; 3; 7] /\
  2 <= len [0; 3; 7] /\
  exists out,
    Simple.find_best_loop_cycle [-1; 1; 1; -1; 1; 1; 1; -1; 1; 0]%Q
      0 1000 default_base_freq = Ok out
    /\ selected [-1; 1; 1; -1; 1; 1; 1; -1; 1; 0]%Q [0; 3; 7]
         (cycle_len 1000 default_base_freq) out
    /\ closest_length [0; 3; 7] (cycle_len 1000 default_base_freq) out.
Proof.
  split; [exact default_base_freq_nonzero|].
  assert (finite_arguments 0 1000 default_base_freq) as Hfin.
  { split; [|split]; vm_compute; reflexivity. }
  split; [exact Hfin|].
  assert (Simple.find_zero_crossings [-1; 1; 1; -1; 1; 1; 1; -1; 1; 0]%Q
            (start_sample 0 1000) 10
            (Simple.min_dist_of (cycle_len 1000 default_base_freq))
          = Ok [0; 3; 7]) as E by (vm_compute; reflexivity).
  split; [exact E|].
  assert (2 <= len [0; 3; 7]) as H2 by (vm_compute; discriminate).
  split; [exact H2|].
  pose proof (find_best_loop_cycle_selects
                [-1; 1; 1; -1; 1; 1; 1; -1; 1; 0]%Q 0 1000 default_base_freq
                default_base_freq_nonzero Hfin) as HS.
  cbv zeta in HS. destruct HS as [HS _].
  destruct (HS [0; 3; 7] E H2) as (out & Eo & Sel & Cl).
  exists out. split; [exact Eo|]. split; [exact Sel|].
  apply Cl; lia.
Defined.

(** C2. For every buffer, start index, count and minimum distance, any
    two consecutive entries of the list the zero-crossing finder of
    [extract_samples_simple.py] returns are at least [min_distance] apart.
    For a start index that is an offset into the buffer
    ([0 <= start_idx]) the finder does return a list, and the first
    rising crossing at or after the start offset that the scan reaches is
    accepted: it is the first entry of the result.  The scan reaches it
    when [count >= 1], or when it sits at the start offset itself (with
    [count <= 0] the loop stops after its first iteration). *)
Theorem find_zero_crossings_spacing :
  forall samples start_idx count min_distance,
    (forall cs,
        Simple.find_zero_crossings samples start_idx count min_distance
        = Ok cs ->
        forall k a b,
          nth_error cs k = Some a -> nth_error cs (S k) = Some b ->
          b - a >= min_distance)
    /\
    (0 <= start_idx ->
     exists cs,
       Simple.find_zero_crossings samples start_idx count min_distance = Ok cs
       /\ (forall i,
              start_idx <= i -> crossing_at samples i ->
              (forall j, start_idx <= j < i -> ~ crossing_at samples j) ->
              1 <= count \/ i = start_idx ->
              nth_error cs 0 = Some i)).
Proof.
  intros samples start_idx count md. split.
  { intros cs E k a b Ha Hb.
    assert (spaced md cs) as Sp.
    { apply (scan_spaced_result samples count md _ [] (- md) cs E).
      - exact I.
      - left. reflexivity. }
    pose proof (spaced_nth _ _ _ _ _ Sp Ha Hb). lia. }
  intros H0.
  unfold Simple.find_zero_crossings.
  destruct (scan_spaced samples count md (range start_idx (len samples - 1))
              [] (- md)) as (cs & E & _).
  { apply range_in_bounds. assumption. }
  { exact I. }
  { left. reflexivity. }
  cbn [app] in E. exists cs. split; [exact E|].
  intros i Hi Hc Hfirst Hreach.
  assert (i + 1 < len samples) as Hlen.
  { destruct Hc as (a & b & _ & Hb & _).
    assert (Z.to_nat (i + 1) < List.length samples)%nat
      by (apply nth_error_Some; congruence).
    unfold len. lia. }
  rewrite (range_app start_idx i (len samples - 1)) in E by lia.
  rewrite (range_cons i (len samples - 1)) in E by lia.
  assert (Simple.scan samples count md (i :: range (i + 1) (len samples - 1))
            [] (- md) = Ok cs) as E'.
  { destruct Hreach as [Hcount | ->].
    - rewrite scan_skip in E; [exact E|assumption|].
      apply Forall_forall. intros j Hj. apply in_range in Hj.
      destruct (rising_in_range samples j) as (r & Er & Hr); try lia.
      destruct r; [|exact Er]. exfalso. apply (Hfirst j); [lia|].
      apply Hr. reflexivity.
    - rewrite range_nil in E by lia. exact E. }
  clear E. cbn [Simple.scan] in E'.
  destruct (rising_in_range samples i) as (r & Er & Hr); try lia.
  apply Hr in Hc. subst r. rewrite Er in E'. cbn [bind andb app] in E'.
  destruct (Z.leb_spec md (i - - md)); [|lia].
  destruct (count <=? len [i]).
  + injection E' as <-. reflexivity.
  + destruct (scan_spaced samples count md (range (i + 1) (len samples - 1))
                [i] i) as (picked & E & _).
    { apply range_in_bounds. lia. }
    { exact I. }
    { right. exists []. reflexivity. }
    rewrite E in E'. injection E' as <-. reflexivity.
Qed.

Lemma find_zero_crossings_spacing_witness :
  0 <= 0 /\
  exists cs,
    Simple.find_zero_crossings [-1; 1; -1; 1; -1; 1; 0]%Q 0 10 2 = Ok cs
    /\ nth_error cs 0 = Some 0 /\ nth_error cs 1 = Some 2
    /\ 2 - 0 >= 2.
Proof.
  split; [lia|].
  destruct (find_zero_crossings_spacing [-1; 1; -1; 1; -1; 1; 0]%Q 0 10 2)
    as [Sp Fst].
  destruct (Fst ltac:(lia)) as (cs & E & _).
  exists cs. split; [exact E|].
  assert (nth_error cs 0 = Some 0 /\ nth_error cs 1 = Some 2) as [A B].
  { vm_compute in E. injection E as <-. split; reflexivity. }
  split; [exact A|]. split; [exact B|].
  exact (Sp cs E 0%nat 0 2 A B).
Defined.




(** C4. Whenever the crossing search finds fewer than two crossings,
    [find_best_loop_cycle] returns (as a value, not as an exception)
    exactly [samples[start_sample : start_sample + expected_cycle_len]];
    in particular this is its result on every all-zero buffer, whatever
    the buffer's length, for a start offset that is not negative.  Stated
    for arguments inside the float range ([finite_arguments]); where that range
    ends, Python raises [OverflowError] before the search starts. *)
Theorem find_best_loop_cycle_fallback_slice :
  forall samples start_ms sample_rate base_freq,
    ~ (base_freq == 0)%Q ->
    finite_arguments start_ms sample_rate base_freq ->
    let start := start_sample start_ms sample_rate in
    let target := cycle_len sample_rate base_freq in
    (forall crossings,
        Simple.find_zero_crossings samples start 10 (Simple.min_dist_of target)
        = Ok crossings ->
        len crossings < 2 ->
        Simple.find_best_loop_cycle samples start_ms sample_rate base_freq
        = Ok (slice samples start (start + target)))
    /\
    (0 <= start_ms -> 0 <= sample_rate ->
     Forall (fun s => s == 0)%Q samples ->
     Simple.find_zero_crossings samples start 10 (Simple.min_dist_of target)
     = Ok []
     /\ Simple.find_best_loop_cycle samples start_ms sample_rate base_freq
        = Ok (slice samples start (start + target))).
Proof.
  intros samples start_ms sample_rate base_freq Hbf Hfin start target.
  split.
  - intros crossings E H.
    apply find_best_loop_cycle_fallback with (crossings := crossings);
      assumption.
  - intros Hms Hrate Hz.
    pose proof (start_sample_nonneg _ _ Hms Hrate) as H0.
    pose proof (find_zero_crossings_flat samples start
                  (Simple.min_dist_of target) Hz H0) as E.
    split; [exact E|].
    apply find_best_loop_cycle_fallback with (crossings := []);
      [assumption|exact E|cbn; lia].
Qed.

Lemma find_best_loop_cycle_fallback_slice_witness :
  ~ (default_base_freq == 0)%Q /\
  finite_arguments 0 1000 default_base_freq /\ 0 <= 0 /\ 0 <= 1000 /\
  Forall (fun s => s == 0)%Q [0; 0; 0; 0; 0]%Q /\
  Simple.find_best_loop_cycle [0; 0; 0; 0; 0]%Q 0 1000 default_base_freq
  = Ok [0; 0; 0]%Q.
Proof.
  split; [exact default_base_freq_nonzero|].
  assert (finite_arguments 0 1000 default_base_freq) as Hfin.
  { split; [|split]; vm_compute; reflexivity. }
  split; [exact Hfin|].
  split; [lia|]. split; [lia|].
  assert (Forall (fun s => s == 0)%Q [0; 0; 0; 0; 0]%Q) as Hz
    by (repeat constructor; reflexivity).
  split; [exact Hz|].
  destruct (find_best_loop_cycle_fallback_slice [0; 0; 0; 0; 0]%Q 0 1000
              default_base_freq default_base_freq_nonzero Hfin) as [_ H].
  destruct (H ltac:(lia) ltac:(lia) Hz) as [_ E].
  rewrite E. reflexivity.
Defined.

(** C5. Resampling a buffer to its own rate returns the buffer itself:
    the same samples, value for value, with no interpolation step run. *)
Theorem downsample_same_rate :
  forall samples rate, Simple.downsample_to_48k samples rate rate = Ok samples.
Proof.
  intros samples rate. unfold Simple.downsample_to_48k.
  rewrite Z.eqb_refl. reflexivity.
Qed.

(** C6. When the target rate differs from the buffer's rate, the
    resampled buffer has [new_len = int(len(samples) / ratio)] samples
    with [ratio = original_rate / target_rate], and that length is
    [floor(len(samples) * target_rate / original_rate)] up to one unit
    (the two float divisions may land just below or above an integer
    quotient).  Stated for positive rates whose quotient is a float of the
    normal range ([finite_ratio]; beyond it Python raises [OverflowError]
    or, the ratio being rounded to zero, [ZeroDivisionError]) and for an
    output length below [2^50]. *)
Theorem downsample_length :
  forall samples original_rate target_rate,
    0 < original_rate -> 0 < target_rate -> original_rate <> target_rate ->
    finite_ratio original_rate target_rate ->
    len samples * target_rate < 2 ^ 50 * original_rate ->
    exists out,
      Simple.downsample_to_48k samples original_rate target_rate = Ok out
      /\ len out = new_len_of samples original_rate target_rate
      /\ Z.abs (len out - len samples * target_rate / original_rate) <= 1.
Proof.
  intros samples o t Ho Ht Hne Hfin Hsize.
  destruct (downsample_resampled samples o t Ho Ht Hne Hsize)
    as (out & E & L & _).
  exists out. split; [exact E|]. split; [exact L|].
  rewrite L. apply new_len_close; assumption.
Qed.

Lemma downsample_length_witness :
  0 < 3 /\ 0 < 2 /\ 3 <> 2 /\ finite_ratio 3 2 /\
  len [1; 2; 3; 4]%Q * 2 < 2 ^ 50 * 3 /\
  exists out,
    Simple.downsample_to_48k [1; 2; 3; 4]%Q 3 2 = Ok out
    /\ len out = 2.
Proof.
  assert (len [1; 2; 3; 4]%Q * 2 < 2 ^ 50 * 3) as H by (vm_compute; reflexivity).
  assert (finite_ratio 3 2) as Hfin by (split; vm_compute; reflexivity).
  split; [lia|]. split; [lia|]. split; [lia|]. split; [exact Hfin|].
  split; [exact H|].
  destruct (downsample_length [1; 2; 3; 4]%Q 3 2 ltac:(lia) ltac:(lia)
              ltac:(lia) Hfin H) as (out & E & L & _).
  exists out. split; [exact E|]. rewrite L. vm_compute. reflexivity.
Defined.

(** The one-unit tolerance is needed: 48000 samples taken from 48000 Hz
    to 44100 Hz give [new_len = 44099], one less than
    [floor(48000 * 44100 / 48000) = 44100]. *)
Example new_len_one_below :
  forall samples, len samples = 48000 ->
    new_len_of samples 48000 44100 = 44099
    /\ len samples * 44100 / 48000 = 44100.
Proof.
  intros samples H. unfold new_len_of. rewrite H.
  split; vm_compute; reflexivity.
Qed.

(** C7. The attack segment is the prefix
    [samples[0 : floor(attack_ms * rate / 1000)]], its length is
    [min(len(samples), floor(attack_ms * rate / 1000))], and a buffer
    shorter than the requested count just gives a shorter slice: the
    slice is a value, nothing is raised.  Stated for an attack length and
    a rate that are not negative, with [attack_ms * rate] below [2^1000]
    (from about [2^1034] on, [attack_ms * rate / 1000] is no float and
    Python raises [OverflowError]), and a buffer of at most [2^42] samples
    (beyond [2^53] the float quotient may round to the next integer, which
    such a buffer cannot notice). *)
Theorem attack_slice_prefix :
  forall samples attack_ms rate,
    0 <= attack_ms -> 0 <= rate -> attack_ms * rate < 2 ^ 1000 ->
    len samples <= 2 ^ 42 ->
    attack_slice samples attack_ms rate
    = Ok (slice samples 0 (attack_ms * rate / 1000))
    /\ slice samples 0 (attack_ms * rate / 1000)
       = firstn (Z.to_nat (attack_ms * rate / 1000)) samples
    /\ len (slice samples 0 (attack_ms * rate / 1000))
       = Z.min (len samples) (attack_ms * rate / 1000).
Proof.
  intros samples attack_ms rate Hms Hrate Hfin Hlen.
  assert (0 <= attack_ms * rate) as Ha by nia.
  assert (0 <= attack_ms * rate / 1000) as HF by (apply Z.div_pos; lia).
  split; [|split].
  - unfold attack_slice, attack_samples_count, truediv.
    cbn [Z.eqb bind]. f_equal.
    destruct (Z.lt_ge_cases (attack_ms * rate) (2 ^ 53)) as [C|C].
    + rewrite int_truediv_1000 by lia. reflexivity.
    + pose proof (int_truediv_1000_large _ C) as B.
      assert (2 ^ 42 <= attack_ms * rate / 1000).
      { apply Z.div_le_lower_bound; [lia|].
        change (2 ^ 53) with 9007199254740992 in C.
        change (2 ^ 42) with 4398046511104. lia. }
      rewrite !slice_prefix_all by lia. reflexivity.
  - unfold slice, clamp_bound. pose proof (len_nonneg samples).
    destruct (Z.ltb_spec (attack_ms * rate / 1000) 0); [lia|].
    cbn [Z.ltb Z.compare]. replace (Z.min 0 (len samples)) with 0 by lia.
    cbn [Z.to_nat skipn]. rewrite Z.sub_0_r.
    destruct (Z.le_gt_cases (attack_ms * rate / 1000) (len samples)) as [C|C].
    + rewrite Z.min_l by lia. reflexivity.
    + rewrite Z.min_r by lia. unfold len. rewrite Nat2Z.id.
      rewrite firstn_all. symmetry. apply firstn_all2. unfold len in C. lia.
  - apply len_slice_prefix. assumption.
Qed.

Lemma attack_slice_prefix_witness :
  0 <= 45 /\ 0 <= 1000 /\ 45 * 1000 < 2 ^ 1000 /\
  len [1; 2; 3]%Q <= 2 ^ 42 /\
  attack_slice [1; 2; 3]%Q 45 1000 = Ok [1; 2; 3]%Q /\
  len (slice [1; 2; 3]%Q 0 (45 * 1000 / 1000)) = 3.
Proof.
  assert (len [1; 2; 3]%Q <= 2 ^ 42) as H by (vm_compute; discriminate).
  assert (45 * 1000 < 2 ^ 1000) as Hfin by (vm_compute; reflexivity).
  split; [lia|]. split; [lia|]. split; [exact Hfin|]. split; [exact H|].
  pose proof (attack_slice_prefix [1; 2; 3]%Q 45 1000 ltac:(lia) ltac:(lia)
                Hfin H) as (E & _ & L).
  split; [rewrite E; reflexivity|rewrite L; reflexivity].
Defined.

Lemma no_width_error_neq {A} (r : result A) w :
  no_width_error r -> r <> Raise (width_error w).
Proof.
  intros H E. subst r. exact (H w eq_refl).
Qed.

Lemma no_width_error_main wav fs :
  getsampwidth wav = 2 -> no_width_error (snd (Simple.main wav fs)).
Proof.
  intros H. unfold Simple.main.
  match goal with
  | |- context [match ?m with Ok _ => _ | Raise _ => _ end] =>
      assert (no_width_error m) as Hm; [|destruct m as [[a l]|e]]
  end.
  - apply no_width_error_bind.
    + apply no_width_error_simple_extract. exact H.
    + intros [[attack loop_cycle] rate]. raises.
  - exact I.
  - exact Hm.
Qed.

(** C8. A file whose sample width is not two bytes (16-bit samples) makes
    the decoding step raise the error whose message names that width;
    the error leaves [extract_attack_and_loop] and [main] unhandled, and
    [main] ends with the files it started with, so no output is written.
    A file whose sample width is two bytes never produces that error,
    whatever else may go wrong. *)
Theorem unsupported_sample_width :
  forall wav,
    let width := getsampwidth wav in
    (width <> 2 ->
     Simple.decode wav = Raise (width_error width)
     /\ (forall attack_ms loop_start_ms,
            Simple.extract_attack_and_loop wav attack_ms loop_start_ms
            = Raise (width_error width))
     /\ (forall fs, Simple.main wav fs = (fs, Raise (width_error width)))
     /\ Numpy.decode wav = Raise (width_error width)
     /\ (forall attack_ms loop_start_ms,
            Numpy.extract_attack_and_loop wav attack_ms loop_start_ms
            = Raise (width_error width)))
    /\
    (width = 2 ->
     forall w,
       (forall attack_ms loop_start_ms,
           Simple.extract_attack_and_loop wav attack_ms loop_start_ms
           <> Raise (width_error w))
       /\ (forall fs, snd (Simple.main wav fs) <> Raise (width_error w))
       /\ (forall attack_ms loop_start_ms,
              Numpy.extract_attack_and_loop wav attack_ms loop_start_ms
              <> Raise (width_error w))).
Proof.
  intros wav width. split.
  - intros H.
    pose proof (simple_decode_bad_width wav H) as Ds.
    pose proof (numpy_decode_bad_width wav H) as Dn.
    fold width in Ds, Dn.
    assert (forall a l, Simple.extract_attack_and_loop wav a l
                        = Raise (width_error width)) as Es.
    { intros a l. unfold Simple.extract_attack_and_loop. rewrite Ds.
      reflexivity. }
    split; [exact Ds|]. split; [exact Es|]. split; [|split].
    + intros fs. unfold Simple.main. rewrite Es. reflexivity.
    + exact Dn.
    + intros a l. unfold Numpy.extract_attack_and_loop. rewrite Dn.
      reflexivity.
  - intros H w. split; [|split].
    + intros a l. apply no_width_error_neq.
      apply no_width_error_simple_extract. exact H.
    + intros fs. apply no_width_error_neq.
      apply no_width_error_main. exact H.
    + intros a l. apply no_width_error_neq.
      apply no_width_error_numpy_extract. exact H.
Qed.

Lemma unsupported_sample_width_witness :
  let wav := {| getnchannels := 1; getsampwidth := 3;
                getframerate := 44100; getnframes := 1;
                readframes := [x00; x00; x01]%byte |} in
  getsampwidth wav <> 2 /\
  Simple.main wav (fun _ => None)
  = (fun _ => None, Raise (ValueError "Unsupported sample width: 3")).
Proof.
  intros wav.
  assert (getsampwidth wav <> 2) as H by (cbn; lia).
  split; [exact H|].
  destruct (unsupported_sample_width wav) as [B _].
  destruct (B H) as (_ & _ & M & _).
  rewrite M. reflexivity.
Defined.

(** C9. For every buffer, the empty one included, and every pair of
    positive rates, [downsample_to_48k] returns a list and raises
    nothing: each index it reads lies inside the buffer, an output
    position whose [idx + 1] would pass the last sample gets
    [samples[idx]], and an empty buffer gives an empty result.  Stated for
    rates whose quotient is a float of the normal range ([finite_ratio];
    beyond it Python raises [OverflowError] or, the ratio being rounded to
    zero, [ZeroDivisionError]) and for an output length below [2^50]. *)
Theorem downsample_total :
  forall samples original_rate target_rate,
    0 < original_rate -> 0 < target_rate ->
    finite_ratio original_rate target_rate ->
    len samples * target_rate < 2 ^ 50 * original_rate ->
    exists out,
      Simple.downsample_to_48k samples original_rate target_rate = Ok out
      /\ (samples = [] -> out = [])
      /\ (original_rate <> target_rate ->
          forall i, 0 <= i < len out ->
            let idx := read_index (ratio_of original_rate target_rate) i in
            0 <= idx < len samples
            /\ (len samples <= idx + 1 ->
                getitem out i = getitem samples idx)).
Proof.
  intros samples o t Ho Ht Hfin Hsize.
  destruct (Z.eq_dec o t) as [->|Hne].
  - exists samples. unfold Simple.downsample_to_48k. rewrite Z.eqb_refl.
    split; [reflexivity|]. split; [tauto|]. intros C. contradiction.
  - destruct (downsample_resampled samples o t Ho Ht Hne Hsize)
      as (out & E & L & F2).
    exists out. split; [exact E|]. split.
    + intros ->.
      pose proof (new_len_close [] o t Ho Ht Hsize) as C.
      pose proof (new_len_nonneg [] o t Ho Ht) as N0.
      change (len (@nil Q)) with 0 in C. rewrite Z.mul_0_l in C.
      rewrite Z.div_0_l in C by lia.
      destruct out as [|v out]; [reflexivity|exfalso].
      assert (0 <= 0 < new_len_of [] o t) as H0.
      { rewrite <- L. unfold len. cbn [List.length]. lia. }
      pose proof (read_index_in_range [] o t 0 Ho Ht Hsize H0) as R.
      change (len (@nil Q)) with 0 in R. lia.
    + intros _ i Hi idx.
      assert (0 <= i < new_len_of samples o t) as Hi' by lia.
      pose proof (read_index_in_range samples o t i Ho Ht Hsize Hi') as R.
      fold idx in R. split; [exact R|]. intros Hlast.
      pose proof (nth_error_range 0 (new_len_of samples o t) i ltac:(lia)) as Ei.
      rewrite Z.add_0_l in Ei.
      destruct (Forall2_nth_error _ _ _ _ _ F2 Ei) as (v & Ev & Iv).
      destruct (interpolate_ok samples (ratio_of o t) i R) as (v' & Ev' & Hv').
      rewrite Iv in Ev'. injection Ev' as <-.
      fold idx in Hv'. rewrite (Hv' Hlast).
      rewrite getitem_nth_error by lia. rewrite Ev. reflexivity.
Qed.

Lemma downsample_total_witness :
  0 < 1 /\ 0 < 2 /\ finite_ratio 1 2 /\
  len [1; 2; 3]%Q * 2 < 2 ^ 50 * 1 /\
  exists out,
    Simple.downsample_to_48k [1; 2; 3]%Q 1 2 = Ok out
    /\ getitem out 5 = getitem [1; 2; 3]%Q 2.
Proof.
  assert (len [1; 2; 3]%Q * 2 < 2 ^ 50 * 1) as H by (vm_compute; reflexivity).
  assert (finite_ratio 1 2) as Hfin by (split; vm_compute; reflexivity).
  split; [lia|]. split; [lia|]. split; [exact Hfin|]. split; [exact H|].
  destruct (downsample_total [1; 2; 3]%Q 1 2 ltac:(lia) ltac:(lia) Hfin H)
    as (out & E & _ & R).
  exists out. split; [exact E|].
  assert (len out = 6) as L.
  { vm_compute in E. injection E as <-. reflexivity. }
  destruct (R ltac:(lia) 5 ltac:(lia)) as [_ C].
  assert (read_index (ratio_of 1 2) 5 = 2) as I by (vm_compute; reflexivity).
  rewrite I in C. apply C. vm_compute. discriminate.
Defined.

(** C10. When the start offset computed from [start_ms] lies at or beyond
    the end of the buffer, [find_best_loop_cycle] raises nothing: the
    crossing search returns no crossing, the fallback slice
    [samples[start_sample : start_sample + expected_cycle_len]] is taken,
    and that slice is empty.  Stated for arguments inside the float range
    ([finite_arguments]): a start offset so large that
    [start_ms * sample_rate / 1000] is no float makes Python raise
    [OverflowError] instead. *)
Theorem find_best_loop_cycle_start_beyond_end :
  forall samples start_ms sample_rate base_freq,
    ~ (base_freq == 0)%Q ->
    finite_arguments start_ms sample_rate base_freq ->
    let start := start_sample start_ms sample_rate in
    let target := cycle_len sample_rate base_freq in
    len samples <= start ->
    Simple.find_zero_crossings samples start 10 (Simple.min_dist_of target)
    = Ok []
    /\ Simple.find_best_loop_cycle samples start_ms sample_rate base_freq
       = Ok (slice samples start (start + target))
    /\ slice samples start (start + target) = [].
Proof.
  intros samples start_ms sample_rate base_freq Hbf Hfin start target H.
  assert (Simple.find_zero_crossings samples start 10
            (Simple.min_dist_of target) = Ok []) as E.
  { unfold Simple.find_zero_crossings. rewrite range_nil by lia.
    reflexivity. }
  split; [exact E|]. split.
  - apply find_best_loop_cycle_fallback with (crossings := []);
      [assumption|exact E|cbn; lia].
  - apply slice_beyond_end. assumption.
Qed.

Lemma find_best_loop_cycle_start_beyond_end_witness :
  ~ (default_base_freq == 0)%Q /\
  finite_arguments 200 1000 default_base_freq /\
  len [-1; 1; -1; 1]%Q <= start_sample 200 1000 /\
  Simple.find_best_loop_cycle [-1; 1; -1; 1]%Q 200 1000 default_base_freq
  = Ok [].
Proof.
  split; [exact default_base_freq_nonzero|].
  assert (finite_arguments 200 1000 default_base_freq) as Hfin.
  { split; [|split]; vm_compute; reflexivity. }
  split; [exact Hfin|].
  assert (len [-1; 1; -1; 1]%Q <= start_sample 200 1000) as H
    by (vm_compute; discriminate).
  split; [exact H|].
  destruct (find_best_loop_cycle_start_beyond_end [-1; 1; -1; 1]%Q 200 1000
              default_base_freq default_base_freq_nonzero Hfin H)
    as (_ & E & Z0).
  rewrite E, Z0. reflexivity.
Defined.

(** * Further properties of the code *)

(** X1. Soundness of the crossing search of both scripts.  For a start
    offset into the buffer ([0 <= start_idx]), every index the search
    returns is a rising zero crossing
    ([samples[c] <= 0 < samples[c+1]]) located in
    [start_idx <= c < len(samples) - 1], and the returned list is strictly
    increasing. *)
Theorem find_zero_crossings_sound :
  forall samples start_idx count min_distance cs,
    0 <= start_idx ->
    Simple.find_zero_crossings samples start_idx count min_distance = Ok cs
    \/ Numpy.find_zero_crossings samples start_idx = Ok cs ->
    ascending start_idx cs (Z.max start_idx (len samples - 1)) /\
    forall c, In c cs ->
      start_idx <= c < len samples - 1 /\ crossing_at samples c.
Proof.
  intros samples start_idx count md cs H0 E.
  assert (exists count' md',
             Simple.find_zero_crossings samples start_idx count' md' = Ok cs)
    as (count' & md' & E').
  { destruct E as [E|E].
    - exists count, md. exact E.
    - exists 10, 0.
      rewrite <- (numpy_find_zero_crossings_eq samples start_idx 0) by lia.
      exact E. }
  clear E. split.
  - eapply find_zero_crossings_ascending. exact E'.
  - intros c Hc. unfold Simple.find_zero_crossings in E'.
    destruct (scan_sound samples count' md' _ _ _ _
                (range_in_bounds samples start_idx H0) E' c Hc)
      as [[]|[Hr Hcr]].
    apply in_range in Hr. split; [lia|exact Hcr].
Qed.

Lemma find_zero_crossings_sound_witness :
  0 <= 1 /\
  Simple.find_zero_crossings [-1; 1; -1; 1; -1; 1; 0]%Q 1 10 2 = Ok [2; 4] /\
  crossing_at [-1; 1; -1; 1; -1; 1; 0]%Q 4.
Proof.
  assert (Simple.find_zero_crossings [-1; 1; -1; 1; -1; 1; 0]%Q 1 10 2
          = Ok [2; 4]) as E by (vm_compute; reflexivity).
  split; [lia|]. split; [exact E|].
  pose proof (find_zero_crossings_sound [-1; 1; -1; 1; -1; 1; 0]%Q 1 10 2
                [2; 4] ltac:(lia) (or_introl E)) as [_ H].
  apply (H 4). right. left. reflexivity.
Defined.

(** X2. The crossing search returns at most [count] indices (at most one
    when [count] is not positive: the limit is tested after the first
    iteration), and the search of [extract_samples.py] at most ten. *)
Theorem find_zero_crossings_count :
  forall samples start_idx count min_distance cs,
    (Simple.find_zero_crossings samples start_idx count min_distance = Ok cs ->
     len cs <= Z.max count 1)
    /\ (Numpy.find_zero_crossings samples start_idx = Ok cs -> len cs <= 10).
Proof.
  intros samples start_idx count md cs. split; intros E.
  - eapply scan_count; [exact E|]. cbn. lia.
  - eapply numpy_scan_count; [exact E|]. cbn. lia.
Qed.

Lemma find_zero_crossings_count_witness :
  Simple.find_zero_crossings [-1; 1; -1; 1; -1; 1; 0]%Q 0 2 1 = Ok [0; 2] /\
  len [0; 2] <= Z.max 2 1.
Proof.
  assert (Simple.find_zero_crossings [-1; 1; -1; 1; -1; 1; 0]%Q 0 2 1
          = Ok [0; 2]) as E by (vm_compute; reflexivity).
  split; [exact E|].
  exact (proj1 (find_zero_crossings_count [-1; 1; -1; 1; -1; 1; 0]%Q 0 2 1
                  [0; 2]) E).
Defined.

(** X3. The crossing search of [extract_samples.py], for a start offset
    into the buffer, returns the first ten rising zero crossings at or
    after the start offset (all of them when there are fewer), in
    order. *)
Theorem numpy_find_zero_crossings_first_ten :
  forall samples start_idx,
    0 <= start_idx ->
    Numpy.find_zero_crossings samples start_idx
    = Ok (firstn 10 (filter (rising_at samples)
                            (range start_idx (len samples - 1)))).
Proof.
  intros samples start_idx H0. unfold Numpy.find_zero_crossings.
  rewrite numpy_scan_filter.
  - reflexivity.
  - apply range_in_bounds. exact H0.
  - cbn. lia.
Qed.

Lemma numpy_find_zero_crossings_first_ten_witness :
  0 <= 1 /\
  Numpy.find_zero_crossings [-1; 1; -1; 1; -1; 1; 0]%Q 1 = Ok [2; 4].
Proof.
  split; [lia|].
  rewrite (numpy_find_zero_crossings_first_ten
             [-1; 1; -1; 1; -1; 1; 0]%Q 1 ltac:(lia)).
  vm_compute. reflexivity.
Defined.

(** X4. The spacing filter of [extract_samples_simple.py] is greedy.
    When the search ends with fewer than [count] indices, every rising
    zero crossing from the start offset on is either returned or lies
    less than [min_distance] after a returned one. *)
Theorem find_zero_crossings_greedy :
  forall samples start_idx count min_distance cs,
    0 <= start_idx ->
    Simple.find_zero_crossings samples start_idx count min_distance = Ok cs ->
    len cs < count ->
    forall i, start_idx <= i -> crossing_at samples i ->
      In i cs \/ exists c, In c cs /\ c < i < c + min_distance.
Proof.
  intros samples start_idx count md cs H0 E L i Hi Hcr.
  assert (i + 1 < len samples) as Hlen.
  { destruct Hcr as (a & b & _ & Hb & _).
    assert (Z.to_nat (i + 1) < List.length samples)%nat
      by (apply nth_error_Some; congruence).
    unfold len. lia. }
  unfold Simple.find_zero_crossings in E.
  pose proof (range_in_bounds samples start_idx H0) as B.
  replace (len samples - 1)
    with (start_idx + Z.of_nat (Z.to_nat (len samples - 1 - start_idx)))
    in E, B by lia.
  destruct (scan_complete samples count md _ _ _ _ _ B E L) as [_ Cov].
  { left. repeat split; try reflexivity. exact H0. }
  apply Cov; [lia|exact Hcr].
Qed.

Lemma find_zero_crossings_greedy_witness :
  Simple.find_zero_crossings [-1; 1; -1; 1; -1; 1; 0]%Q 0 10 3 = Ok [0; 4] /\
  (In 2 [0; 4] \/ exists c, In c [0; 4] /\ c < 2 < c + 3).
Proof.
  assert (Simple.find_zero_crossings [-1; 1; -1; 1; -1; 1; 0]%Q 0 10 3
          = Ok [0; 4]) as E by (vm_compute; reflexivity).
  split; [exact E|].
  apply (find_zero_crossings_greedy [-1; 1; -1; 1; -1; 1; 0]%Q 0 10 3 [0; 4]).
  - lia.
  - exact E.
  - cbn. lia.
  - lia.
  - apply rising_at_crossing. vm_compute. reflexivity.
Defined.

(** X5. A negative start index within the buffer's length is Python
    wrap-around indexing: for [-len(samples) <= start_idx] every read of
    the crossing search succeeds and the search returns a list, in both
    scripts. *)
Theorem find_zero_crossings_wraps :
  forall samples start_idx count min_distance,
    - len samples <= start_idx ->
    (exists cs,
        Simple.find_zero_crossings samples start_idx count min_distance
        = Ok cs)
    /\ (exists cs, Numpy.find_zero_crossings samples start_idx = Ok cs).
Proof.
  intros samples start_idx count md H.
  apply crossing_search_wraps. exact H.
Qed.

Lemma find_zero_crossings_wraps_witness :
  - len [1; -1; 1; -1; 0]%Q <= -2 /\
  exists cs, Simple.find_zero_crossings [1; -1; 1; -1; 0]%Q (-2) 10 1 = Ok cs.
Proof.
  assert (- len [1; -1; 1; -1; 0]%Q <= -2) as H by (vm_compute; discriminate).
  split; [exact H|].
  exact (proj1 (find_zero_crossings_wraps [1; -1; 1; -1; 0]%Q (-2) 10 1 H)).
Defined.

(** X6. A start index below [-len(samples)] makes the first read of the
    crossing search fail: on a buffer that is not empty both scripts raise
    [IndexError]. *)
Theorem find_zero_crossings_below_buffer :
  forall samples start_idx count min_distance,
    samples <> [] ->
    start_idx < - len samples ->
    Simple.find_zero_crossings samples start_idx count min_distance
    = Raise IndexError
    /\ Numpy.find_zero_crossings samples start_idx = Raise IndexError.
Proof.
  intros samples start_idx count md Hne H.
  assert (1 <= len samples) as L.
  { destruct samples; [contradiction|]. unfold len. cbn [List.length]. lia. }
  unfold Simple.find_zero_crossings, Numpy.find_zero_crossings.
  rewrite range_cons by lia. cbn [Simple.scan Numpy.scan].
  rewrite rising_below by exact H. split; reflexivity.
Qed.

Lemma find_zero_crossings_below_buffer_witness :
  [-1; 1]%Q <> [] /\ -3 < - len [-1; 1]%Q /\
  Numpy.find_zero_crossings [-1; 1]%Q (-3) = Raise IndexError.
Proof.
  assert ([-1; 1]%Q <> []) as Hne by discriminate.
  assert (-3 < - len [-1; 1]%Q) as H by (vm_compute; reflexivity).
  split; [exact Hne|]. split; [exact H|].
  exact (proj2 (find_zero_crossings_below_buffer [-1; 1]%Q (-3) 10 1 Hne H)).
Defined.

(** X7. The minimum spacing that [find_best_loop_cycle] of
    [extract_samples_simple.py] passes to the crossing search,
    [int(expected_cycle_len * 0.8)], is the integer
    [floor(4 * expected_cycle_len / 5)]: the float [0.8] lies above
    four fifths, so a multiple of five is not rounded below its exact
    product, and the rounding of the product is too small to reach the
    next integer. *)
Theorem min_dist_of_floor :
  forall expected_cycle_len,
    0 <= expected_cycle_len < 2 ^ 48 ->
    Simple.min_dist_of expected_cycle_len = 4 * expected_cycle_len / 5.
Proof.
  intros ecl [H0 H1]. change (2 ^ 48) with 281474976710656 in H1.
  unfold Simple.min_dist_of, fmul.
  assert (of_int ecl == inject_Z ecl)%Q as E1.
  { apply binary64_int; [reflexivity|].
    change (2 ^ 53) with 9007199254740992. lia. }
  assert (binary64 (8 # 10) == 3602879701896397 # 4503599627370496)%Q as E2
    by (vm_compute; reflexivity).
  pose proof (Z.div_mod (4 * ecl) 5 ltac:(lia)) as D.
  pose proof (Z.mod_pos_bound (4 * ecl) 5 ltac:(lia)) as B.
  set (k := 4 * ecl / 5) in *. set (r := (4 * ecl) mod 5) in *.
  assert (0 <= k) by (apply Z.div_pos; lia).
  assert (inject_Z 4 * inject_Z ecl == inject_Z 5 * inject_Z k + inject_Z r)%Q
    as DQ.
  { rewrite <- !inject_Z_mult, <- inject_Z_plus, <- D. reflexivity. }
  change (inject_Z 4) with 4%Q in DQ. change (inject_Z 5) with 5%Q in DQ.
  pose proof (inject_Z_nonneg ecl H0) as P0.
  pose proof (inject_Z_nonneg r ltac:(lia)) as P1.
  assert (inject_Z r <= 4)%Q as P2.
  { change 4%Q with (inject_Z 4). rewrite <- Zle_Qle. lia. }
  assert (inject_Z ecl < 281474976710656)%Q as P3.
  { change 281474976710656%Q with (inject_Z 281474976710656).
    rewrite <- Zlt_Qlt. lia. }
  set (x := (of_int ecl * binary64 (8 # 10))%Q).
  assert (x == inject_Z ecl * (3602879701896397 # 4503599627370496))%Q as Ex.
  { unfold x. rewrite E1, E2. reflexivity. }
  assert (0 <= x)%Q as X0 by (rewrite Ex; nra).
  apply int_unique; [| |assumption].
  - apply binary64_ge_int.
    + change (2 ^ 53) with 9007199254740992. lia.
    + rewrite Ex. lra.
  - pose proof (binary64_bounds x X0) as [_ Hi]. unfold u53 in Hi.
    rewrite inject_Z_plus. change (inject_Z 1) with 1%Q.
    remember (binary64 x) as y. lra.
Qed.

Lemma min_dist_of_floor_witness :
  0 <= 185 < 2 ^ 48 /\ Simple.min_dist_of 185 = 148.
Proof.
  assert (0 <= 185 < 2 ^ 48) as H by lia.
  split; [exact H|].
  rewrite (min_dist_of_floor 185 H). reflexivity.
Defined.

(** X8. Decoding, in both scripts: sample [i] of the decoded buffer is
    the little-endian signed 16-bit integer stored at byte offset
    [2 * i] of the frame data (at [4 * i], the left channel, when the file
    has two channels), divided by 32768 without rounding error; it lies in
    [-1, 1), and the value [1.0] is never produced. *)
Theorem decode_sample :
  forall wav samples i,
    Simple.decode wav = Ok samples \/ Numpy.decode wav = Ok samples ->
    0 <= i < len samples ->
    let stride := if getnchannels wav =? 2 then 4 else 2 in
    exists b0 b1 v,
      nth_error (readframes wav) (Z.to_nat (stride * i)) = Some b0 /\
      nth_error (readframes wav) (Z.to_nat (stride * i + 1)) = Some b1 /\
      nth_error samples (Z.to_nat i) = Some v /\
      (v == int16_le b0 b1 # 32768)%Q /\
      (-1 <= v)%Q /\ (v < 1)%Q.
Proof.
  intros wav samples i E Hi stride.
  assert (samples = map (fun s => binary64 (of_int s / 32768)%Q)
                        (if getnchannels wav =? 2
                         then every_other (unpack_h (readframes wav))
                         else unpack_h (readframes wav))) as ->.
  { destruct E as [E|E].
    - apply simple_decode_ok in E. apply E.
    - apply numpy_decode_ok in E. apply E. }
  destruct (decoded_sample (readframes wav) (getnchannels wav =? 2) i Hi)
    as (b0 & b1 & v & A & B & C & D).
  exists b0, b1, v.
  split; [exact A|]. split; [exact B|]. split; [exact C|].
  split; [exact D|].
  pose proof (int16_le_range b0 b1) as R.
  rewrite D. unfold Qle, Qlt. cbn [Qnum Qden]. lia.
Qed.

Lemma decode_sample_witness :
  let wav := {| getnchannels := 2; getsampwidth := 2; getframerate := 8000;
                getnframes := 2;
                readframes := [x00; x80; x01; x00; xff; x7f; x02; x00]%byte |}
  in
  exists samples a b,
    Simple.decode wav = Ok samples /\
    nth_error samples 0 = Some a /\ (a == -1)%Q /\
    nth_error samples 1 = Some b /\ (b == 32767 # 32768)%Q.
Proof.
  intros wav.
  destruct (Simple.decode wav) as [samples|] eqn:E;
    [|vm_compute in E; discriminate].
  pose proof (decode_sample wav samples 0 (or_introl E)) as H0.
  pose proof (decode_sample wav samples 1 (or_introl E)) as H1.
  assert (len samples = 2) as L.
  { vm_compute in E. injection E as <-. reflexivity. }
  cbv zeta in H0, H1.
  destruct (H0 ltac:(lia)) as (b0 & b1 & a & A0 & A1 & A2 & A3 & _).
  destruct (H1 ltac:(lia)) as (c0 & c1 & b & B0 & B1 & B2 & B3 & _).
  vm_compute in A0, A1, B0, B1.
  injection A0 as <-. injection A1 as <-.
  injection B0 as <-. injection B1 as <-.
  exists samples, a, b.
  split; [reflexivity|]. split; [exact A2|]. split.
  - rewrite A3. vm_compute. reflexivity.
  - split; [exact B2|]. rewrite B3. vm_compute. reflexivity.
Defined.

(** X9. The number of decoded samples in [extract_samples_simple.py]:
    [struct.unpack] accepts the frame data only when it holds exactly
    [frames * channels] items, so a two-channel file yields one sample
    per frame; for every other channel count no channel is selected and
    the interleaved items are all kept. *)
Theorem decode_length :
  forall wav samples,
    Simple.decode wav = Ok samples ->
    len samples = if getnchannels wav =? 2 then getnframes wav
                  else getnframes wav * getnchannels wav.
Proof.
  intros wav samples E.
  destruct (simple_decode_ok wav samples E) as (_ & L & ->).
  pose proof (len_unpack_h (List.length (readframes wav)) (readframes wav)
                ltac:(lia)) as U.
  rewrite L in U.
  replace (2 * (getnframes wav * getnchannels wav))
    with (getnframes wav * getnchannels wav * 2) in U by lia.
  rewrite Z.div_mul in U by lia.
  unfold len in *. rewrite length_map.
  destruct (Z.eqb_spec (getnchannels wav) 2) as [C|C].
  - pose proof (len_every_other (List.length (unpack_h (readframes wav)))
                  (unpack_h (readframes wav)) ltac:(lia)) as V.
    unfold len in V. rewrite V, U, C.
    replace (getnframes wav * 2 + 1) with (1 + getnframes wav * 2) by lia.
    rewrite Z.div_add by lia. reflexivity.
  - exact U.
Qed.

Lemma decode_length_witness :
  let wav := {| getnchannels := 2; getsampwidth := 2; getframerate := 8000;
                getnframes := 2;
                readframes := [x00; x80; x01; x00; xff; x7f; x02; x00]%byte |}
  in
  exists samples, Simple.decode wav = Ok samples /\ len samples = 2.
Proof.
  intros wav.
  destruct (Simple.decode wav) as [samples|] eqn:E;
    [|vm_compute in E; discriminate].
  exists samples. split; [reflexivity|].
  exact (decode_length wav samples E).
Defined.

(** X10. Whatever [extract_samples_simple.py] decodes, [extract_samples.py]
    decodes to the same samples.  (The converse fails: [np.frombuffer]
    takes any frame data of even length, whatever the header says.) *)
Theorem simple_decode_numpy_decode :
  forall wav samples,
    Simple.decode wav = Ok samples -> Numpy.decode wav = Ok samples.
Proof.
  intros wav samples E. apply simple_decode_numpy. exact E.
Qed.

Lemma simple_decode_numpy_decode_witness :
  let wav := {| getnchannels := 1; getsampwidth := 2; getframerate := 8000;
                getnframes := 2; readframes := [x00; x80; x01; x00]%byte |}
  in
  exists samples, Numpy.decode wav = Ok samples /\ len samples = 2.
Proof.
  intros wav.
  destruct (Simple.decode wav) as [samples|] eqn:E;
    [|vm_compute in E; discriminate].
  exists samples. split.
  - exact (simple_decode_numpy_decode wav samples E).
  - vm_compute in E. injection E as <-. reflexivity.
Defined.

(** X11. Clean loop points.  When the crossing search of
    [extract_samples_simple.py] finds at least two crossings from a start
    offset into the buffer, the loop cycle that [find_best_loop_cycle]
    returns is [samples[c0:c1]] for two consecutive returned crossings:
    it starts at a rising zero crossing, ends just before the next
    accepted one, lies after the start offset and inside the buffer, and
    holds [c1 - c0] samples, which is at least the minimum spacing
    [int(expected_cycle_len * 0.8)].  Stated for arguments inside the
    float range ([finite_arguments]). *)
Theorem find_best_loop_cycle_boundaries :
  forall samples start_ms sample_rate base_freq cs,
    ~ (base_freq == 0)%Q ->
    finite_arguments start_ms sample_rate base_freq ->
    0 <= start_ms -> 0 <= sample_rate ->
    let start := start_sample start_ms sample_rate in
    let min_dist := Simple.min_dist_of (cycle_len sample_rate base_freq) in
    Simple.find_zero_crossings samples start 10 min_dist = Ok cs ->
    2 <= len cs ->
    exists out c0 c1,
      Simple.find_best_loop_cycle samples start_ms sample_rate base_freq
      = Ok out
      /\ out = slice samples c0 c1
      /\ crossing_at samples c0 /\ crossing_at samples c1
      /\ start <= c0 /\ c0 < c1 /\ c1 < len samples - 1
      /\ len out = c1 - c0 /\ min_dist <= len out.
Proof.
  intros samples start_ms sample_rate base_freq cs Hbf Hfin Hms Hrate start
         min_dist E L.
  pose proof (start_sample_nonneg _ _ Hms Hrate) as H0. fold start in H0.
  destruct (simple_loop_after_search samples start_ms sample_rate base_freq
              cs Hbf E) as (out & Eo & [[L' _]|[_ Sel]]); [lia|].
  pose proof (find_zero_crossings_ascending _ _ _ _ _ E) as A.
  assert (start <= len samples - 1) as Hs.
  { destruct cs as [|c cs']; [cbn in L; lia|].
    destruct A as [A1 A2].
    destruct cs' as [|c' cs'']; [cbn in L; lia|].
    destruct A2 as [A2 A3].
    assert (c' + 1 <= Z.max start (len samples - 1)).
    { clear - A3. revert c' A3. induction cs'' as [|x l IH]; intros c' A3.
      - exact A3.
      - destruct A3 as [B1 B2]. specialize (IH _ B2). lia. }
    lia. }
  rewrite Z.max_r in A by exact Hs.
  destruct (selected_between samples cs _ start (len samples - 1) out H0
              ltac:(lia) A Sel)
    as (k & c0 & c1 & E0 & E1 & B0 & B1 & B2 & Ho & Hl).
  assert (forall c, In c cs -> crossing_at samples c) as Snd.
  { intros c Hc. unfold Simple.find_zero_crossings in E.
    destruct (scan_sound samples _ _ _ _ _ _
                (range_in_bounds samples start H0) E c Hc) as [[]|[_ Hcr]].
    exact Hcr. }
  assert (spaced min_dist cs) as Sp.
  { apply (scan_spaced_result samples 10 min_dist _ [] (- min_dist) cs E).
    - exact I.
    - left. reflexivity. }
  pose proof (spaced_nth _ _ _ _ _ Sp E0 E1) as Hsp.
  exists out, c0, c1.
  split; [exact Eo|]. split; [exact Ho|].
  split; [apply Snd; eapply nth_error_In; exact E0|].
  split; [apply Snd; eapply nth_error_In; exact E1|].
  repeat split; try assumption. lia.
Qed.

Lemma find_best_loop_cycle_boundaries_witness :
  exists out c0 c1,
    Simple.find_best_loop_cycle [0; 1; -1; 1; -1; 0; 1; 0]%Q 0 2000 (500 # 1)
    = Ok out
    /\ out = slice [0; 1; -1; 1; -1; 0; 1; 0]%Q c0 c1
    /\ crossing_at [0; 1; -1; 1; -1; 0; 1; 0]%Q c0
    /\ len out = c1 - c0.
Proof.
  assert (~ (500 # 1 == 0)%Q) as Hbf by discriminate.
  assert (finite_arguments 0 2000 (500 # 1)) as Hfin.
  { split; [|split]; vm_compute; reflexivity. }
  pose proof (find_best_loop_cycle_boundaries
                [0; 1; -1; 1; -1; 0; 1; 0]%Q 0 2000 (500 # 1) [0; 5]
                Hbf Hfin ltac:(lia) ltac:(lia)) as H.
  cbv zeta in H.
  assert (Simple.find_zero_crossings [0; 1; -1; 1; -1; 0; 1; 0]%Q
            (start_sample 0 2000) 10
            (Simple.min_dist_of (cycle_len 2000 (500 # 1))) = Ok [0; 5]) as E
    by (vm_compute; reflexivity).
  destruct (H E ltac:(cbn; lia))
    as (out & c0 & c1 & A & B & C & _ & _ & _ & _ & D & _).
  exists out, c0, c1.
  split; [exact A|]. split; [exact B|]. split; [exact C|exact D].
Defined.

(** X12. For arguments that are not negative and lie inside the float
    range ([finite_arguments]: the two quotients
    [start_ms * sample_rate / 1000] and [sample_rate / base_freq] do not
    overflow) and a base frequency other than zero,
    [find_best_loop_cycle] raises nothing, in both scripts, and what it
    returns is a contiguous run [samples[lo:hi]] of the buffer with
    [0 <= lo]. *)
Theorem find_best_loop_cycle_total :
  forall samples start_ms sample_rate base_freq,
    ~ (base_freq == 0)%Q ->
    finite_arguments start_ms sample_rate base_freq ->
    0 <= start_ms -> 0 <= sample_rate ->
    (exists out lo hi,
        Simple.find_best_loop_cycle samples start_ms sample_rate base_freq
        = Ok out /\ 0 <= lo /\ out = slice samples lo hi)
    /\
    (exists out lo hi,
        Numpy.find_best_loop_cycle samples start_ms sample_rate base_freq
        = Ok out /\ 0 <= lo /\ out = slice samples lo hi).
Proof.
  intros samples start_ms sample_rate base_freq Hbf Hfin Hms Hrate.
  pose proof (start_sample_nonneg _ _ Hms Hrate) as H0.
  set (start := start_sample start_ms sample_rate) in *.
  set (target := cycle_len sample_rate base_freq).
  assert (forall md cs out,
             Simple.find_zero_crossings samples start 10 md = Ok cs ->
             (len cs < 2 /\ out = slice samples start (start + target))
             \/ (2 <= len cs /\ selected samples cs target out) ->
             exists lo hi, 0 <= lo /\ out = slice samples lo hi) as K.
  { intros md cs out E [[_ ->]|[L Sel]].
    - exists start, (start + target). split; [exact H0|reflexivity].
    - pose proof (find_zero_crossings_ascending _ _ _ _ _ E) as A.
      destruct Sel as (k & F & ->).
      pose proof F as ((Hk1 & Hk2) & _).
      pose proof (nth_error_at cs k ltac:(lia)) as Ea.
      pose proof (nth_error_at cs (k + 1) ltac:(lia)) as Eb.
      replace (Z.to_nat (k + 1)) with (S (Z.to_nat k)) in Eb by lia.
      destruct (ascending_nth _ _ _ _ _ _ A Ea Eb) as (? & ? & ?).
      exists (at_ cs k), (at_ cs (k + 1)). split; [lia|reflexivity]. }
  assert (- len samples <= start) as Hw
    by (pose proof (len_nonneg samples); lia).
  split.
  - destruct (proj1 (crossing_search_wraps samples start 10
                       (Simple.min_dist_of target) Hw)) as (cs & E).
    destruct (simple_loop_after_search samples start_ms sample_rate base_freq
                cs Hbf E) as (out & Eo & Hcase).
    destruct (K _ cs out E Hcase) as (lo & hi & Hlo & Ho).
    exists out, lo, hi. repeat split; assumption.
  - destruct (proj2 (crossing_search_wraps samples start 10 0 Hw))
      as (cs & E).
    destruct (numpy_loop_after_search samples start_ms sample_rate base_freq
                cs Hbf E) as (out & Eo & Hcase).
    rewrite (numpy_find_zero_crossings_eq samples start 0) in E by lia.
    destruct (K _ cs out E Hcase) as (lo & hi & Hlo & Ho).
    exists out, lo, hi. repeat split; assumption.
Qed.

Lemma find_best_loop_cycle_total_witness :
  exists out lo hi,
    Numpy.find_best_loop_cycle [0; 1; -1; 1; -1; 0; 1; 0]%Q 1 2000
      default_base_freq = Ok out
    /\ 0 <= lo /\ out = slice [0; 1; -1; 1; -1; 0; 1; 0]%Q lo hi.
Proof.
  assert (finite_arguments 1 2000 default_base_freq) as Hfin.
  { split; [|split]; vm_compute; reflexivity. }
  exact (proj2 (find_best_loop_cycle_total [0; 1; -1; 1; -1; 0; 1; 0]%Q
                  1 2000 default_base_freq default_base_freq_nonzero Hfin
                  ltac:(lia) ltac:(lia))).
Defined.

(** X13. A base frequency of zero makes [sample_rate / base_freq] raise
    [ZeroDivisionError] before the buffer is read, in both scripts and for
    every buffer.  Stated for [start_ms * sample_rate] and [sample_rate]
    below [2^1000] in magnitude: the start offset is computed first and
    the rate is converted to a float before the division, and either step
    raises [OverflowError] where the float range ends. *)
Theorem find_best_loop_cycle_zero_base_freq :
  forall samples start_ms sample_rate base_freq,
    (base_freq == 0)%Q ->
    Z.abs (start_ms * sample_rate) < 2 ^ 1000 ->
    Z.abs sample_rate < 2 ^ 1000 ->
    Simple.find_best_loop_cycle samples start_ms sample_rate base_freq
    = Raise ZeroDivisionError
    /\ Numpy.find_best_loop_cycle samples start_ms sample_rate base_freq
       = Raise ZeroDivisionError.
Proof.
  intros samples start_ms sample_rate base_freq H Hstart Hrate.
  unfold Simple.find_best_loop_cycle, Numpy.find_best_loop_cycle.
  rewrite start_sample_of_eq, (zero_base_freq_raises _ _ H).
  split; reflexivity.
Qed.

Lemma find_best_loop_cycle_zero_base_freq_witness :
  Simple.find_best_loop_cycle [0; 1; -1; 1]%Q 200 44100 0
  = Raise ZeroDivisionError.
Proof.
  apply (find_best_loop_cycle_zero_base_freq [0; 1; -1; 1]%Q 200 44100 0).
  - reflexivity.
  - vm_compute. reflexivity.
  - vm_compute. reflexivity.
Defined.

(** X14. What a successful extraction has established, in both scripts:
    the sample width is two bytes, the returned rate is the file's frame
    rate and is not zero, and neither the attack nor the loop cycle is
    empty (an empty one makes the peak computation or the loop frequency
    raise). *)
Theorem extract_attack_and_loop_success :
  forall wav attack_ms loop_start_ms attack loop_cycle rate,
    Simple.extract_attack_and_loop wav attack_ms loop_start_ms
    = Ok (attack, loop_cycle, rate)
    \/ Numpy.extract_attack_and_loop wav attack_ms loop_start_ms
       = Ok (attack, loop_cycle, rate) ->
    getsampwidth wav = 2
    /\ rate = getframerate wav /\ rate <> 0
    /\ attack <> [] /\ loop_cycle <> [].
Proof.
  intros wav attack_ms loop_start_ms attack loop_cycle rate [E|E].
  - unfold Simple.extract_attack_and_loop in E.
    destruct (Simple.decode wav) as [samples|] eqn:D; [|discriminate].
    apply simple_decode_ok in D. destruct D as (W & _ & _).
    cbn [bind] in E.
    destruct (Simple.max_abs samples); [|discriminate]. cbn [bind] in E.
    destruct (truediv (len samples) (getframerate wav)) eqn:T;
      [|discriminate].
    apply truediv_ok in T. cbn [bind] in E.
    rewrite attack_slice_eq in E. cbn [bind] in E.
    destruct (Simple.max_abs (slice samples 0 _)) eqn:MA; [|discriminate].
    apply max_abs_ok in MA. cbn [bind] in E.
    destruct (Simple.find_best_loop_cycle _ _ _ _) as [lc|]; [|discriminate].
    cbn [bind] in E.
    destruct (Simple.max_abs lc) eqn:ML; [|discriminate].
    apply max_abs_ok in ML. cbn [bind] in E.
    destruct (truediv (getframerate wav) (len lc)); [|discriminate].
    cbn [bind] in E. injection E as <- <- <-.
    repeat split; assumption.
  - unfold Numpy.extract_attack_and_loop in E.
    destruct (Numpy.decode wav) as [samples|] eqn:D; [|discriminate].
    apply numpy_decode_ok in D. destruct D as (W & _ & _).
    cbn [bind] in E.
    destruct (truediv (len samples) (getframerate wav)) eqn:T;
      [|discriminate].
    apply truediv_ok in T. cbn [bind] in E.
    destruct (Numpy.np_max_abs samples); [|discriminate]. cbn [bind] in E.
    rewrite attack_slice_eq in E. cbn [bind] in E.
    destruct (Numpy.np_max_abs (slice samples 0 _)) eqn:MA; [|discriminate].
    apply np_max_abs_ok in MA. cbn [bind] in E.
    destruct (Numpy.find_best_loop_cycle _ _ _ _) as [lc|]; [|discriminate].
    cbn [bind] in E.
    destruct (truediv (getframerate wav) (len lc)); [|discriminate].
    cbn [bind] in E.
    destruct (Numpy.np_max_abs lc) eqn:ML; [|discriminate].
    apply np_max_abs_ok in ML. cbn [bind] in E. injection E as <- <- <-.
    repeat split; assumption.
Qed.

Lemma extract_attack_and_loop_success_witness :
  exists attack loop_cycle rate,
    Simple.extract_attack_and_loop square_wave 45 200
    = Ok (attack, loop_cycle, rate)
    /\ rate = 1000 /\ attack <> [] /\ loop_cycle <> [].
Proof.
  destruct (Simple.extract_attack_and_loop square_wave 45 200)
    as [[[attack loop_cycle] rate]|] eqn:E;
    [|vm_compute in E; discriminate].
  destruct (extract_attack_and_loop_success square_wave 45 200
              attack loop_cycle rate (or_introl E)) as (_ & R & _ & A & L).
  exists attack, loop_cycle, rate.
  split; [reflexivity|]. split; [exact R|]. split; assumption.
Defined.

(** X15. A recording that ends at or before the loop search offset
    ([len(samples) <= int(loop_start_ms * rate / 1000)]) makes the
    extraction fail instead of returning an empty loop.
    [extract_samples_simple.py] raises the [ValueError] that [max()]
    raises on an empty sequence (whichever of the buffer, the attack and
    the loop is the first empty one); [extract_samples.py], whose loop
    frequency is printed before the loop peak, raises [ZeroDivisionError]
    when the attack is not empty.  Stated for a rate and for products
    [attack_ms * rate] and [loop_start_ms * rate] below [2^1000] in
    magnitude: where the float range ends, the attack length or the
    search offset raises [OverflowError] first. *)
Theorem extract_attack_and_loop_short_recording :
  forall wav samples attack_ms loop_start_ms,
    Simple.decode wav = Ok samples ->
    getframerate wav <> 0 ->
    Z.abs (getframerate wav) < 2 ^ 1000 ->
    Z.abs (attack_ms * getframerate wav) < 2 ^ 1000 ->
    Z.abs (loop_start_ms * getframerate wav) < 2 ^ 1000 ->
    len samples <= start_sample loop_start_ms (getframerate wav) ->
    (exists msg,
        Simple.max_abs [] = Raise (ValueError msg) /\
        Simple.extract_attack_and_loop wav attack_ms loop_start_ms
        = Raise (ValueError msg))
    /\ (slice samples 0 (start_sample attack_ms (getframerate wav)) <> [] ->
        Numpy.extract_attack_and_loop wav attack_ms loop_start_ms
        = Raise ZeroDivisionError).
Proof.
  intros wav samples attack_ms loop_start_ms D R Hrate Hatk Hloop H.
  pose proof default_base_freq_nonzero as Hbf.
  assert (Simple.extract_attack_and_loop wav attack_ms loop_start_ms
          = bind (Simple.max_abs []) (fun _ => Ok ([], [], 0))) as ES.
  { unfold Simple.extract_attack_and_loop. rewrite D. cbn [bind].
    destruct samples as [|s samples']; [reflexivity|].
    cbn [Simple.max_abs bind].
    rewrite truediv_nonzero by exact R. cbn [bind].
    rewrite attack_slice_eq. cbn [bind].
    destruct (slice (s :: samples') 0 _) as [|a attack']; [reflexivity|].
    cbn [Simple.max_abs bind].
    rewrite (simple_loop_beyond_end _ _ _ _ Hbf H). reflexivity. }
  split.
  - rewrite ES. eexists. split; reflexivity.
  - intros Hatt. unfold Numpy.extract_attack_and_loop.
    rewrite (simple_decode_numpy wav samples D). cbn [bind].
    rewrite truediv_nonzero by exact R. cbn [bind].
    destruct samples as [|s samples'].
    { exfalso. apply Hatt. unfold slice. rewrite skipn_nil.
      apply firstn_nil. }
    cbn [Numpy.np_max_abs Simple.max_abs bind].
    rewrite attack_slice_eq. cbn [bind].
    destruct (slice (s :: samples') 0 _) as [|a attack'];
      [contradiction|].
    cbn [Numpy.np_max_abs Simple.max_abs bind].
    rewrite (numpy_loop_beyond_end _ _ _ _ Hbf H). reflexivity.
Qed.

Lemma extract_attack_and_loop_short_recording_witness :
  let wav := {| getnchannels := 1; getsampwidth := 2; getframerate := 1000;
                getnframes := 2; readframes := [x00; x80; x01; x00]%byte |}
  in
  (exists msg,
      Simple.extract_attack_and_loop wav 1 200 = Raise (ValueError msg))
  /\ Numpy.extract_attack_and_loop wav 1 200 = Raise ZeroDivisionError.
Proof.
  intros wav.
  destruct (Simple.decode wav) as [samples|] eqn:D;
    [|vm_compute in D; discriminate].
  assert (getframerate wav <> 0) as R by discriminate.
  assert (len samples <= start_sample 200 (getframerate wav)) as H.
  { vm_compute in D. injection D as <-. vm_compute. discriminate. }
  destruct (extract_attack_and_loop_short_recording wav samples 1 200 D R
              ltac:(vm_compute; reflexivity) ltac:(vm_compute; reflexivity)
              ltac:(vm_compute; reflexivity) H)
    as ((msg & _ & A) & B).
  split; [exists msg; exact A|]. apply B.
  vm_compute in D. injection D as <-. vm_compute. discriminate.
Defined.

(** X16. A rate of zero, when the two rates differ, makes
    [downsample_to_48k] raise [ZeroDivisionError] for every buffer, the
    empty one included: a zero target rate fails in
    [original_rate / target_rate], a zero original rate gives the ratio
    [0.0] and fails in [len(samples) / ratio]. *)
Theorem downsample_zero_rate :
  forall samples original_rate target_rate,
    original_rate <> target_rate ->
    original_rate = 0 \/ target_rate = 0 ->
    Simple.downsample_to_48k samples original_rate target_rate
    = Raise ZeroDivisionError.
Proof.
  intros samples o t Hne [->| ->]; unfold Simple.downsample_to_48k.
  - destruct (Z.eqb_spec 0 t) as [C|_]; [contradiction|].
    rewrite truediv_nonzero by lia. cbn [bind].
    assert (binary64 (inject_Z 0 / inject_Z t) = 0%Q) as ->.
    { unfold binary64. cbn. reflexivity. }
    reflexivity.
  - destruct (Z.eqb_spec o 0) as [C|_]; [contradiction|]. reflexivity.
Qed.

Lemma downsample_zero_rate_witness :
  Simple.downsample_to_48k [0; 1; 0]%Q 0 48000 = Raise ZeroDivisionError.
Proof.
  apply (downsample_zero_rate [0; 1; 0]%Q 0 48000).
  - discriminate.
  - left. reflexivity.
Defined.

(** X17. Decimation by a whole factor.  When the original rate is [k]
    times the target rate ([k >= 2]) and the buffer holds float samples,
    [downsample_to_48k] returns [len(samples) // k] samples and output [i]
    is input sample [i * k], unchanged: every read position is a whole
    number, so the interpolation weights are one and zero. *)
Theorem downsample_integer_factor :
  forall samples k target_rate,
    0 < target_rate -> 2 <= k <= 2 ^ 53 -> len samples < 2 ^ 53 ->
    Forall representable samples ->
    exists out,
      Simple.downsample_to_48k samples (k * target_rate) target_rate = Ok out
      /\ len out = len samples / k
      /\ forall i, 0 <= i < len samples / k ->
           exists v a,
             nth_error out (Z.to_nat i) = Some v /\
             nth_error samples (Z.to_nat (i * k)) = Some a /\
             (v == a)%Q.
Proof.
  intros samples k t Ht [Hk Hk'] HL Rep.
  apply decimation; assumption.
Qed.

Lemma downsample_integer_factor_witness :
  exists out v,
    Simple.downsample_to_48k [0; 1 # 2; 1; -1 # 4; -1]%Q 96000 48000 = Ok out
    /\ len out = 2 /\ nth_error out 1 = Some v /\ (v == 1)%Q.
Proof.
  assert (Forall representable [0; 1 # 2; 1; -1 # 4; -1]%Q) as Rep.
  { repeat constructor.
    - exists 0, 0. repeat split; cbn; try lia.
    - exists 1, 1. repeat split; cbn; try lia.
    - exists 1, 0. repeat split; cbn; try lia.
    - exists (-1), 2. repeat split; cbn; try lia.
    - exists (-1), 0. repeat split; cbn; try lia. }
  destruct (downsample_integer_factor [0; 1 # 2; 1; -1 # 4; -1]%Q 2 48000
              ltac:(lia) ltac:(lia) ltac:(cbn; lia) Rep)
    as (out & E & L & H).
  change (2 * 48000) with 96000 in E.
  destruct (H 1 ltac:(cbn; lia)) as (v & a & Hv & Ha & Eq).
  cbn in Ha. injection Ha as <-.
  exists out, v. split; [exact E|]. split; [exact L|].
  split; [exact Hv|exact Eq].
Defined.

(** X18. Whenever [downsample_to_48k] returns a buffer that is not
    empty, its first sample is the first input sample (a float): the read
    position of output [0] is [0.0] whatever the two rates are. *)
Theorem downsample_first_sample :
  forall samples original_rate target_rate out a v,
    Simple.downsample_to_48k samples original_rate target_rate = Ok out ->
    nth_error samples 0 = Some a -> representable a ->
    nth_error out 0 = Some v ->
    (v == a)%Q.
Proof.
  intros samples o t out a v E Ha Ra Hv.
  unfold Simple.downsample_to_48k in E.
  destruct (o =? t).
  { injection E as <-. rewrite Ha in Hv. injection Hv as <-.
    apply Qeq_refl. }
  destruct (truediv o t) as [ratio|]; [|discriminate]. cbn [bind] in E.
  destruct (fdiv (of_int (len samples)) ratio) as [x|]; [|discriminate].
  cbn [bind] in E.
  apply interpolate_all_result in E. destruct E as (vs & -> & F).
  cbn [app] in Hv.
  destruct vs as [|v0 vs']; [discriminate|]. injection Hv as ->.
  inversion F as [|i ? rest ? Iv F' Erange]; subst.
  assert (i = 0) as ->.
  { assert (In i (range 0 (int x))) as Hin
      by (rewrite <- Erange; left; reflexivity).
    destruct (Z.le_gt_cases (int x) 0) as [C|C].
    - rewrite range_nil in Erange by lia. discriminate.
    - rewrite range_cons in Erange by lia. congruence. }
  destruct (interpolate_at_integer samples ratio 0 0 a) as (v' & Iv' & Eq).
  - unfold of_int, binary64. cbn. apply Qmult_0_l.
  - cbn. lia.
  - exact Ha.
  - exact Ra.
  - rewrite Iv in Iv'. injection Iv' as <-. exact Eq.
Qed.

Lemma downsample_first_sample_witness :
  exists out v,
    Simple.downsample_to_48k [1 # 2; 1; 0; -1]%Q 72000 48000 = Ok out
    /\ nth_error out 0 = Some v /\ (v == 1 # 2)%Q.
Proof.
  destruct (Simple.downsample_to_48k [1 # 2; 1; 0; -1]%Q 72000 48000)
    as [out|] eqn:E; [|vm_compute in E; discriminate].
  destruct (nth_error out 0) as [v|] eqn:Hv.
  2:{ vm_compute in E. injection E as <-. discriminate. }
  exists out, v. split; [reflexivity|]. split; [exact Hv|].
  apply (downsample_first_sample [1 # 2; 1; 0; -1]%Q 72000 48000 out
           (1 # 2) v E).
  - reflexivity.
  - exists 1, 1. repeat split; cbn; try lia.
  - exact Hv.
Defined.

(** X19. The pipeline of [main] on a recording whose frame rate is a
    whole multiple [k >= 2] of 48 kHz: once the extraction has succeeded,
    both calls of [downsample_to_48k] succeed and keep every [k]-th sample
    of the attack and of the loop cycle, [len // k] samples each. *)
Theorem extract_then_downsample_integer_factor :
  forall wav attack_ms loop_start_ms attack loop_cycle rate k,
    Simple.extract_attack_and_loop wav attack_ms loop_start_ms
    = Ok (attack, loop_cycle, rate) ->
    rate = k * 48000 -> 2 <= k <= 2 ^ 53 ->
    len (readframes wav) < 2 ^ 53 ->
    forall buffer, buffer = attack \/ buffer = loop_cycle ->
      exists out,
        Simple.downsample_to_48k buffer rate 48000 = Ok out
        /\ len out = len buffer / k
        /\ forall i, 0 <= i < len buffer / k ->
             exists v a,
               nth_error out (Z.to_nat i) = Some v /\
               nth_error buffer (Z.to_nat (i * k)) = Some a /\
               (v == a)%Q.
Proof.
  intros wav attack_ms loop_start_ms attack loop_cycle rate k E -> [Hk Hk'] HL
         buffer Hb.
  unfold Simple.extract_attack_and_loop in E.
  destruct (Simple.decode wav) as [samples|] eqn:D; [|discriminate].
  pose proof (decode_representable wav samples (or_introl D)) as Rep.
  destruct (simple_decode_ok wav samples D) as (_ & _ & Es).
  assert (len samples <= len (readframes wav)) as Ls.
  { rewrite Es. unfold len at 1. rewrite length_map.
    pose proof (len_unpack_h _ (readframes wav) (Nat.le_refl _)) as U.
    pose proof (len_nonneg (readframes wav)) as N.
    assert (len (unpack_h (readframes wav)) <= len (readframes wav)) as V.
    { rewrite U. apply Z.div_le_upper_bound; lia. }
    destruct (getnchannels wav =? 2); [|exact V].
    pose proof (len_every_other _ (unpack_h (readframes wav))
                  (Nat.le_refl _)) as W.
    pose proof (len_nonneg (unpack_h (readframes wav))) as N'.
    fold (len (every_other (unpack_h (readframes wav)))). rewrite W.
    assert ((len (unpack_h (readframes wav)) + 1) / 2
            <= len (unpack_h (readframes wav))).
    { pose proof (Z.div_mod (len (unpack_h (readframes wav)) + 1) 2
                    ltac:(lia)).
      pose proof (Z.mod_pos_bound (len (unpack_h (readframes wav)) + 1) 2
                    ltac:(lia)).
      lia. }
    lia. }
  cbn [bind] in E.
  destruct (Simple.max_abs samples); [|discriminate]. cbn [bind] in E.
  destruct (truediv (len samples) (getframerate wav)); [|discriminate].
  cbn [bind] in E. rewrite attack_slice_eq in E. cbn [bind] in E.
  destruct (Simple.max_abs (slice samples 0 _)); [|discriminate].
  cbn [bind] in E.
  destruct (Simple.find_best_loop_cycle _ _ _ _) as [lc|] eqn:Elc;
    [|discriminate].
  cbn [bind] in E.
  destruct (Simple.max_abs lc); [|discriminate]. cbn [bind] in E.
  destruct (truediv (getframerate wav) (len lc)); [|discriminate].
  cbn [bind] in E. injection E as <- <- _.
  destruct (loop_cycle_is_slice _ _ _ _ _ Elc) as (lo & hi & ->).
  assert (exists lo' hi', buffer = slice samples lo' hi')
    as (lo' & hi' & ->).
  { destruct Hb as [-> | ->]; eexists _, _; reflexivity. }
  apply decimation.
  - lia.
  - exact Hk.
  - pose proof (len_slice_le samples lo' hi'). lia.
  - exact Hk'.
  - apply Forall_slice. exact Rep.
Qed.

Lemma extract_then_downsample_integer_factor_witness :
  let wav := {| getnchannels := 1; getsampwidth := 2; getframerate := 96000;
                getnframes := 4;
                readframes :=
                  [x00; xc0; x00; x40; x00; x20; x00; xe0]%byte |}
  in
  exists attack loop_cycle rate out,
    Simple.extract_attack_and_loop wav 1 0 = Ok (attack, loop_cycle, rate)
    /\ Simple.downsample_to_48k attack rate 48000 = Ok out
    /\ len out = len attack / 2.
Proof.
  intros wav.
  destruct (Simple.extract_attack_and_loop wav 1 0)
    as [[[attack loop_cycle] rate]|] eqn:E;
    [|vm_compute in E; discriminate].
  assert (rate = 2 * 48000) as R.
  { pose proof E as E'. vm_compute in E'. injection E' as _ _ <-.
    reflexivity. }
  destruct (extract_then_downsample_integer_factor wav 1 0 attack loop_cycle
              rate 2 E R ltac:(lia) ltac:(cbn; lia) attack
              (or_introl eq_refl)) as (out & D & L & _).
  exists attack, loop_cycle, rate, out.
  split; [reflexivity|]. split; [exact D|exact L].
Defined.

(** X20. The rows of [generate_c_array] (the same code in both scripts).
    The text is the opening line, one row per chunk, the closing brace
    and the length constant; the chunks, put end to end, are exactly the
    samples in their order, so every sample is printed once and the
    constant [<name>_len] counts the printed values; there are
    [ceil(len / 8)] rows, every row but the last holds eight values, and
    no row is empty. *)
Theorem generate_c_array_rows :
  forall samples array_name,
    Simple.generate_c_array samples array_name
    = String.concat nl
        ([("const float " ++ array_name ++ "[] = {")%string]
           ++ map row_text (chunks samples)
           ++ ["};"%string;
               ("const uint32_t " ++ array_name ++ "_len = "
                  ++ str (len samples) ++ ";")%string])
    /\ List.concat (chunks samples) = samples
    /\ len (chunks samples) = (len samples + 7) / 8
    /\ forall k chunk,
         nth_error (chunks samples) k = Some chunk ->
         1 <= len chunk <= 8 /\
         (Z.of_nat k < len (chunks samples) - 1 -> len chunk = 8).
Proof.
  intros samples array_name.
  destruct (rows_count samples) as (N0 & N1 & N2).
  assert (len (chunks samples) = (len samples + 7) / 8) as Lc.
  { rewrite chunks_eq. unfold len at 1. rewrite length_map, length_seq. lia. }
  split; [|split; [|split; [exact Lc|]]].
  - unfold Simple.generate_c_array, chunks, row_text. rewrite map_map.
    reflexivity.
  - rewrite chunks_eq, concat_chunks_firstn. apply firstn_all2.
    unfold len in *. lia.
  - intros k chunk Hk. rewrite Lc. rewrite chunks_eq in Hk.
    assert (k < Z.to_nat ((len samples + 7) / 8))%nat as Kn.
    { assert (k < List.length
                    (map (fun k => firstn 8 (skipn (8 * k) samples))
                       (seq 0 (Z.to_nat ((len samples + 7) / 8)))))%nat
        by (apply nth_error_Some; congruence).
      rewrite length_map, length_seq in H. exact H. }
    assert (chunk = firstn 8 (skipn (8 * k) samples)) as ->.
    { rewrite nth_error_map, nth_error_seq in Hk.
      destruct (Nat.ltb_spec k (Z.to_nat ((len samples + 7) / 8))); [|lia].
      cbn [option_map] in Hk. change (0 + k)%nat with k in Hk. congruence. }
    unfold len in *. rewrite length_firstn, length_skipn. lia.
Qed.

Lemma generate_c_array_rows_witness :
  exists chunk,
    nth_error (chunks [0; 1; 0; -1; 0; 1; 0; -1; 0]%Q) 0 = Some chunk
    /\ len chunk = 8.
Proof.
  pose proof (generate_c_array_rows [0; 1; 0; -1; 0; 1; 0; -1; 0]%Q
                "k_loop_samples") as (_ & _ & _ & H).
  destruct (nth_error (chunks [0; 1; 0; -1; 0; 1; 0; -1; 0]%Q) 0)
    as [chunk|] eqn:E; [|vm_compute in E; discriminate].
  exists chunk. split; [reflexivity|].
  apply (H 0%nat chunk E). vm_compute. reflexivity.
Defined.

(** X22. Frame data whose size does not match the header.  With a
    two-byte sample width, [extract_samples_simple.py] decodes only frame
    data of exactly [2 * frames * channels] bytes and raises
    [struct.error] otherwise; [extract_samples.py] does not use the frame
    count: it decodes any frame data of even size and raises the
    [ValueError] of [np.frombuffer] for an odd size. *)
Theorem decode_size_mismatch :
  forall wav,
    getsampwidth wav = 2 ->
    len (readframes wav) <> 2 * (getnframes wav * getnchannels wav) ->
    Simple.decode wav = Raise StructError
    /\ (Z.even (len (readframes wav)) = true ->
        exists samples, Numpy.decode wav = Ok samples)
    /\ (Z.even (len (readframes wav)) = false ->
        Numpy.decode wav
        = Raise (ValueError
                   "buffer size must be a multiple of element size")).
Proof.
  intros wav W L.
  unfold Simple.decode, Numpy.decode, Simple.struct_unpack_h,
    Numpy.frombuffer_int16.
  rewrite W. cbn [Z.eqb Pos.eqb].
  destruct (Z.eqb_spec (len (readframes wav))
              (2 * (getnframes wav * getnchannels wav))); [contradiction|].
  split; [reflexivity|]. split; intros ->.
  - eexists. reflexivity.
  - reflexivity.
Qed.

Lemma decode_size_mismatch_witness :
  let wav := {| getnchannels := 1; getsampwidth := 2; getframerate := 8000;
                getnframes := 3; readframes := [x00; x80; x01; x00]%byte |}
  in
  Simple.decode wav = Raise StructError
  /\ exists samples, Numpy.decode wav = Ok samples.
Proof.
  intros wav.
  destruct (decode_size_mismatch wav eq_refl) as (A & B & _).
  - vm_compute. discriminate.
  - split; [exact A|]. apply B. vm_compute. reflexivity.
Defined.

(** X23. One period of a periodic signal.  Suppose that, from the search
    offset on, the rising zero crossings of the buffer are exactly
    [z, z + P, z + 2 * P, ...] (one per period [P]), that at least two of
    them lie in the buffer, and, for [extract_samples_simple.py], that
    the period is not below the minimum spacing
    [int(expected_cycle_len * 0.8)].  Then [find_best_loop_cycle] returns
    the first full period [samples[z : z + P]], of [P] samples, in both
    scripts, however far [P] is from the expected cycle length.  Stated
    for arguments inside the float range ([finite_arguments]). *)
Theorem find_best_loop_cycle_periodic :
  forall samples start_ms sample_rate base_freq z P,
    ~ (base_freq == 0)%Q ->
    finite_arguments start_ms sample_rate base_freq ->
    0 <= start_ms -> 0 <= sample_rate ->
    let start := start_sample start_ms sample_rate in
    let min_dist := Simple.min_dist_of (cycle_len sample_rate base_freq) in
    start <= z -> 0 < P -> z + P < len samples - 1 ->
    (forall i, start <= i < len samples - 1 ->
       (crossing_at samples i <-> exists j, 0 <= j /\ i = z + j * P)) ->
    len (slice samples z (z + P)) = P
    /\ (min_dist <= P ->
        Simple.find_best_loop_cycle samples start_ms sample_rate base_freq
        = Ok (slice samples z (z + P)))
    /\ Numpy.find_best_loop_cycle samples start_ms sample_rate base_freq
       = Ok (slice samples z (z + P)).
Proof.
  intros samples start_ms sample_rate base_freq z P Hbf Hfin Hms Hrate start
         min_dist Hz HP Hlen Cr.
  pose proof (start_sample_nonneg _ _ Hms Hrate) as H0. fold start in H0.
  split; [rewrite len_slice by lia; lia|]. split.
  - intros Hmd.
    destruct (periodic_search samples start min_dist z P H0 Hz HP Hmd Hlen Cr)
      as (m & Hm & E).
    destruct (simple_loop_after_search samples start_ms sample_rate base_freq
                _ Hbf E) as (out & Eo & [[L _]|[_ Sel]]).
    { rewrite len_progression in L. lia. }
    rewrite Eo. f_equal.
    apply (selected_progression samples z P m
             (cycle_len sample_rate base_freq) out Hm); try lia.
    exact Sel.
  - destruct (periodic_search samples start 0 z P H0 Hz HP ltac:(lia) Hlen Cr)
      as (m & Hm & E).
    rewrite <- (numpy_find_zero_crossings_eq samples start 0) in E by lia.
    destruct (numpy_loop_after_search samples start_ms sample_rate base_freq
                _ Hbf E) as (out & Eo & [[L _]|[_ Sel]]).
    { rewrite len_progression in L. lia. }
    rewrite Eo. f_equal.
    apply (selected_progression samples z P m
             (cycle_len sample_rate base_freq) out Hm); try lia.
    exact Sel.
Qed.

Lemma find_best_loop_cycle_periodic_witness :
  Simple.find_best_loop_cycle
    [-1; 1; 1; -1; -1; 1; 1; -1; -1; 1; 0]%Q 0 2000 (500 # 1)
  = Ok [-1; 1; 1; -1]%Q.
Proof.
  assert (~ (500 # 1 == 0)%Q) as Hbf by discriminate.
  assert (start_sample 0 2000 = 0) as S0 by (vm_compute; reflexivity).
  assert (finite_arguments 0 2000 (500 # 1)) as Hfin.
  { split; [|split]; vm_compute; reflexivity. }
  pose proof (find_best_loop_cycle_periodic
                [-1; 1; 1; -1; -1; 1; 1; -1; -1; 1; 0]%Q 0 2000 (500 # 1)
                0 4 Hbf Hfin ltac:(lia) ltac:(lia)) as H.
  cbv zeta in H. rewrite S0 in H.
  change (len [-1; 1; 1; -1; -1; 1; 1; -1; -1; 1; 0]%Q - 1) with 10 in H.
  destruct H as (_ & HS & _).
  - lia.
  - lia.
  - lia.
  - intros i Hi. rewrite <- rising_at_crossing.
    assert (i = 0 \/ i = 1 \/ i = 2 \/ i = 3 \/ i = 4 \/ i = 5 \/ i = 6
            \/ i = 7 \/ i = 8 \/ i = 9) as C by lia.
    destruct C as [->|[->|[->|[->|[->|[->|[->|[->|[->| ->]]]]]]]]];
      (split;
       [intros R;
        first [ discriminate R
              | exists 0; lia | exists 1; lia | exists 2; lia ]
       |intros (j & Hj & Ej);
        first [ reflexivity | exfalso; lia ]]).
  - rewrite HS; [reflexivity|]. vm_compute. discriminate.
Defined.

